(** * cosmotype: model registry, portable query evaluator and Mongo lowering

    A shallow embedding of
    - [src/unnamed/part_000]           (the model registry: [Field], [Model]),
    - [src/packages/core/src/query.ts] (the portable evaluator and [Type]),
    - [src/packages/mongo/src/builder.ts] (the Mongo filter and expression
      lowering),
    followed by the properties of the specification that concern them.

    JavaScript values are a first-order tree.  Numbers are the integers
    together with NaN; fractional doubles and the infinities are not
    represented.  Strings are sequences of 8-bit code units.  Exceptions are
    an explicit [result]. *)

From Stdlib Require Import ZArith List String Ascii Bool Lia Arith.
From Stdlib Require Import DecimalString Decimal DecimalNat DecimalPos DecimalZ.
Import ListNotations.

Set Implicit Arguments.
Set Warnings "-register-all,-automation".
Local Open Scope string_scope.
Local Open Scope Z_scope.
Local Open Scope list_scope.

(* ================================================================== *)
(** * JavaScript values *)
(* ================================================================== *)

Module JS.

(** A JavaScript number: an integer, or NaN. *)
Inductive number : Type :=
| Int (z : Z)
| NaN.

(** Values.  [VObj kt es] is an ordinary object with its own enumerable
    string-keyed properties [es] in enumeration order, and [kt] the value of
    its property keyed by the symbol [Symbol.for('minato.type')], if any.
    [VFunc] is an opaque function. *)
Unset Elimination Schemes.
Inductive value : Type :=
| VUndefined
| VNull
| VBool (b : bool)
| VNum (n : number)
| VStr (s : string)
| VDate (t : Z)
| VRegExp (source flags : string)
| VObjectId (hex : string)
| VFunc (id : nat)
| VArr (xs : list value)
| VObj (kt : option value) (es : list (string * value)).
Set Elimination Schemes.

Definition entries := list (string * value).

(** Exceptions.  [Unsupported] is not an exception of the language: it
    marks a run that leaves the modelled fragment (a read of an inherited
    member, a write to an exotic object), where the embedding says nothing
    about what the program does. *)
Inductive error : Type :=
| TypeError (msg : string)
| SyntaxError (msg : string)
| Error (msg : string)
| Unsupported.

(** The outcome of a computation that may throw. *)
Inductive result (A : Type) : Type :=
| Ok (a : A)
| Throw (e : error).
Arguments Ok {A} a.
Arguments Throw {A} e.

Definition bind {A B} (r : result A) (f : A -> result B) : result B :=
  match r with
  | Ok a => f a
  | Throw e => Throw e
  end.

Definition ret {A} (a : A) : result A := Ok a.

Notation "x <- c ;; k" := (bind c (fun x => k))
  (at level 61, c at next level, right associativity).

(** [xs.map(f)] where [f] may throw, left to right. *)
Definition mapR {A B} (f : A -> result B) : list A -> result (list B) :=
  fix go (xs : list A) : result (list B) :=
    match xs with
    | [] => Ok []
    | x :: xs' => y <- f x ;; ys <- go xs' ;; ret (y :: ys)
    end.

Definition int (z : Z) : value := VNum (Int z).
Definition obj (es : entries) : value := VObj None es.

(** ** Size, used as a measure *)

Fixpoint size (v : value) : nat :=
  match v with
  | VArr xs => S (fold_right (fun x n => size x + n)%nat 0%nat xs)
  | VObj kt es =>
      S ((match kt with Some t => size t | None => 0%nat end)
         + fold_right (fun e n => size (snd e) + n)%nat 0%nat es)
  | _ => 1%nat
  end.

(** ** Primitive predicates *)

(** cosmokit [isNullable]: [value === null || value === undefined]. *)
Definition isNullable (v : value) : bool :=
  match v with
  | VUndefined | VNull => true
  | _ => false
  end.

(** ToBoolean. *)
Definition truthy (v : value) : bool :=
  match v with
  | VUndefined | VNull => false
  | VBool b => b
  | VNum (Int z) => negb (Z.eqb z 0)
  | VNum NaN => false
  | VStr s => negb (String.eqb s "")
  | _ => true
  end.

(** [typeof v === 'object']. *)
Definition typeof_object (v : value) : bool :=
  match v with
  | VNull | VDate _ | VRegExp _ _ | VObjectId _ | VArr _ | VObj _ _ => true
  | _ => false
  end.

Definition is_array (v : value) : bool :=
  match v with VArr _ => true | _ => false end.

Definition is_string (v : value) : bool :=
  match v with VStr _ => true | _ => false end.

(** A primitive value (not an object in the sense of the language). *)
Definition is_primitive (v : value) : bool :=
  match v with
  | VUndefined | VNull | VBool _ | VNum _ | VStr _ => true
  | _ => false
  end.

(** ** Strings *)

(** [s.split(sep)] for a one-character separator. *)
Fixpoint split (sep : ascii) (s : string) : list string :=
  match s with
  | EmptyString => [EmptyString]
  | String c s' =>
      if Ascii.eqb c sep then EmptyString :: split sep s'
      else match split sep s' with
           | [] => [String c EmptyString]
           | x :: xs => String c x :: xs
           end
  end.

(** [s] between double quotes, as a template literal writes it. *)
Definition quoted (s : string) : string :=
  let q := String (ascii_of_nat 34) EmptyString in (q ++ s ++ q)%string.

(** [s.startsWith(p)]. *)
Definition startsWith (s p : string) : bool := String.prefix p s.

Definition dot : ascii := "."%char.

Fixpoint string_in (s : string) (l : list string) : bool :=
  match l with
  | [] => false
  | x :: l' => String.eqb s x || string_in s l'
  end.

(** [s.slice(n)] for [0 <= n]. *)
Fixpoint slice_from (n : nat) (s : string) : string :=
  match n, s with
  | O, _ => s
  | S n', String _ s' => slice_from n' s'
  | S _, EmptyString => EmptyString
  end.

(** [xs.join(sep)] on strings. *)
Fixpoint join (sep : string) (xs : list string) : string :=
  match xs with
  | [] => ""
  | [x] => x
  | x :: xs' => (x ++ sep ++ join sep xs')%string
  end.

Definition is_digit (c : ascii) : bool :=
  let n := nat_of_ascii c in (48 <=? n)%nat && (n <=? 57)%nat.

Definition digit_value (c : ascii) : Z := Z.of_nat (nat_of_ascii c) - 48.

Fixpoint digits_value (acc : Z) (s : string) : option Z :=
  match s with
  | EmptyString => Some acc
  | String c s' =>
      if is_digit c then digits_value (10 * acc + digit_value c) s' else None
  end.

(** The decimal numeral of a natural number, as [String(n)] prints it. *)
Definition nat_to_string (n : nat) : string :=
  NilZero.string_of_uint (Nat.to_uint n).

(** The decimal numeral of an integer, as [String(z)] prints it. *)
Definition Z_to_string (z : Z) : string :=
  NilZero.string_of_int (Z.to_int z).

(** [BigInt(s)] on a decimal numeral: the integer it denotes. *)
Definition string_to_Z (s : string) : option Z :=
  match NilZero.int_of_string s with
  | Some d => Some (Z.of_int d)
  | None => None
  end.

(** An array index in the sense of the language: the canonical numeral of an
    integer in [0, 2^32 - 2].  Such property keys are enumerated first, in
    ascending order. *)
Definition array_index (k : string) : option Z :=
  match k with
  | EmptyString => None
  | String c rest =>
      if Ascii.eqb c "0"%char then
        match rest with EmptyString => Some 0 | _ => None end
      else
        match digits_value 0 k with
        | Some n => if n <? 4294967295 then Some n else None
        | None => None
        end
  end.

(** ** Objects as ordered property lists *)

Section Dict.
Variable A : Type.

Definition dict := list (string * A).

Fixpoint lookup (k : string) (es : dict) : option A :=
  match es with
  | [] => None
  | (k', v) :: es' => if String.eqb k k' then Some v else lookup k es'
  end.

Definition has_key (k : string) (es : dict) : bool :=
  match lookup k es with Some _ => true | None => false end.

Definition keys (es : dict) : list string := map fst es.

Fixpoint replace (k : string) (v : A) (es : dict) : dict :=
  match es with
  | [] => []
  | (k', v') :: es' =>
      if String.eqb k k' then (k', v) :: es' else (k', v') :: replace k v es'
  end.

(** Where a new integer-indexed property goes: before the first property
    that is not integer-indexed or has a larger index. *)
Fixpoint insert_index (i : Z) (k : string) (v : A) (es : dict) : dict :=
  match es with
  | [] => [(k, v)]
  | (k', v') :: es' =>
      match array_index k' with
      | Some j => if j <? i then (k', v') :: insert_index i k v es'
                  else (k, v) :: es
      | None => (k, v) :: es
      end
  end.

(** [o[k] = v] defining or updating an own property: an existing property
    keeps its place; a new one is created in property order (integer
    indices ascending, then strings in creation order). *)
Definition obj_set (es : dict) (k : string) (v : A) : dict :=
  if has_key k es then replace k v es
  else match array_index k with
       | Some i => insert_index i k v es
       | None => es ++ [(k, v)]
       end.
End Dict.

(** [{ ...a, ...b }] on property lists. *)
Definition spread (a b : entries) : entries :=
  fold_left (fun acc e => obj_set acc (fst e) (snd e)) b a.

Fixpoint index_entries (i : nat) (xs : list value) : entries :=
  match xs with
  | [] => []
  | x :: xs' => (nat_to_string i, x) :: index_entries (S i) xs'
  end.

Fixpoint char_entries (i : nat) (s : string) : entries :=
  match s with
  | EmptyString => []
  | String c s' =>
      (nat_to_string i, VStr (String c EmptyString)) :: char_entries (S i) s'
  end.

(** [Object.entries(v)]: own enumerable string-keyed properties.  Throws on
    [null] and [undefined]. *)
Definition object_entries (v : value) : result entries :=
  match v with
  | VUndefined | VNull =>
      Throw (TypeError "Cannot convert undefined or null to object")
  | VObj _ es => Ok es
  | VArr xs => Ok (index_entries 0 xs)
  | VStr s => Ok (char_entries 0 s)
  | _ => Ok []
  end.

(** The keys visited by [for (const key in v)]; nothing for [null] and
    [undefined]. *)
Definition for_in_entries (v : value) : entries :=
  match v with
  | VObj _ es => es
  | VArr xs => index_entries 0 xs
  | VStr s => char_entries 0 s
  | _ => []
  end.

Definition object_keys (v : value) : result (list string) :=
  es <- object_entries v ;; ret (keys es).

(** cosmokit [mapValues]. *)
Definition mapValues (f : value -> string -> value) (es : entries) : entries :=
  map (fun e => (fst e, f (snd e) (fst e))) es.

(** cosmokit [makeArray] on a key or a list of keys. *)
Inductive MaybeArray (A : Type) : Type :=
| One (a : A)
| Many (l : list A).
Arguments One {A} a.
Arguments Many {A} l.

Definition makeArray {A} (m : MaybeArray A) : list A :=
  match m with
  | One a => [a]
  | Many l => l
  end.

(** cosmokit [clone]: a deep copy.  Primitives and functions are returned
    as they are, arrays, dates, regular expressions and plain objects are
    rebuilt (a rebuilt plain object has string-keyed properties only). *)
Fixpoint clone (v : value) : value :=
  match v with
  | VArr xs => VArr (map clone xs)
  | VObj _ es => VObj None (map (fun e => (fst e, clone (snd e))) es)
  | _ => v
  end.

(** ** Property access *)

(** The names every ordinary object inherits from [Object.prototype]. *)
Definition object_prototype_keys : list string :=
  ["constructor"; "__proto__"; "hasOwnProperty"; "isPrototypeOf";
   "propertyIsEnumerable"; "toLocaleString"; "toString"; "valueOf";
   "__defineGetter__"; "__defineSetter__"; "__lookupGetter__";
   "__lookupSetter__"].

Definition inherited_key (k : string) : bool :=
  string_in k object_prototype_keys.

Definition nth_value (i : Z) (xs : list value) : value :=
  if i <? Z.of_nat (List.length xs) then nth (Z.to_nat i) xs VUndefined
  else VUndefined.

(** [v[k]] as a read.  Reading from [null] or [undefined] throws; inherited
    members and the members of exotic objects are outside the fragment. *)
Definition get_prop (v : value) (k : string) : result value :=
  match v with
  | VUndefined | VNull =>
      Throw (TypeError "Cannot read properties of undefined or null")
  | VObj _ es =>
      match lookup k es with
      | Some x => Ok x
      | None => if inherited_key k then Throw Unsupported else Ok VUndefined
      end
  | VArr xs =>
      match array_index k with
      | Some i => Ok (nth_value i xs)
      | None => if String.eqb k "length"
                then Ok (int (Z.of_nat (List.length xs)))
                else Throw Unsupported
      end
  | _ => Throw Unsupported
  end.

(** [v[k] = x] in strict mode, returning the object after the write.  A
    write to a primitive throws; [__proto__] and exotic objects are outside
    the fragment. *)
Definition set_prop (v : value) (k : string) (x : value) : result value :=
  match v with
  | VUndefined | VNull =>
      Throw (TypeError "Cannot set properties of undefined or null")
  | VBool _ | VNum _ | VStr _ =>
      Throw (TypeError "Cannot create property on a primitive")
  | VObj kt es =>
      if String.eqb k "__proto__" then Throw Unsupported
      else Ok (VObj kt (obj_set es k x))
  | _ => Throw Unsupported
  end.

(** [o[k] = x] on the property list of an ordinary object. *)
Definition assign (es : entries) (k : string) (x : value) : result entries :=
  if String.eqb k "__proto__" then Throw Unsupported
  else Ok (obj_set es k x).

(** ** The host *)

(** What the embedding takes from the host environment:
    - [string_to_number]: ToNumber on a string (unary plus);
    - [tza]: the offset of local time from UTC in milliseconds, taken to be
      constant (no daylight saving);
    - [same_object]: whether two object values are one object (reference
      identity, which a tree of values does not record);
    - [regexp_test]: [new RegExp(source, flags).test(input)].  *)
Class Host : Type := {
  string_to_number : string -> number;
  tza : Z;
  same_object : value -> value -> bool;
  regexp_test : string -> string -> value -> result bool
}.

(** ** Dates (ECMAScript time values, in milliseconds) *)

Definition msPerSecond : Z := 1000.
Definition msPerMinute : Z := 60000.
Definition msPerHour : Z := 3600000.
Definition msPerDay : Z := 86400000.

Definition Day (t : Z) : Z := t / msPerDay.
Definition HourFromTime (t : Z) : Z := (t / msPerHour) mod 24.
Definition MinFromTime (t : Z) : Z := (t / msPerMinute) mod 60.
Definition SecFromTime (t : Z) : Z := (t / msPerSecond) mod 60.
Definition msFromTime (t : Z) : Z := t mod msPerSecond.

Definition MakeTime (h m s ms : Z) : Z :=
  h * msPerHour + m * msPerMinute + s * msPerSecond + ms.
Definition MakeDate (day time : Z) : Z := day * msPerDay + time.

Section Dates.
Context `{Host}.

Definition LocalTime (t : Z) : Z := t + tza.
Definition UTC (t : Z) : Z := t - tza.

Definition getHours (t : Z) : Z := HourFromTime (LocalTime t).
Definition getMinutes (t : Z) : Z := MinFromTime (LocalTime t).
Definition getSeconds (t : Z) : Z := SecFromTime (LocalTime t).
Definition getMilliseconds (t : Z) : Z := msFromTime (LocalTime t).

(** [date.setHours(h, m, s, ms)] on the date with time value [t]: the new
    time value. *)
Definition setHours (t h m s ms : Z) : Z :=
  UTC (MakeDate (Day (LocalTime t)) (MakeTime h m s ms)).
End Dates.

(** ** Structural equality of values, as a test *)



End JS.

Import JS.

(** What the embedding takes from the parts of the core package that are
    not under [src/]:
    - [isEvalExpr] ([eval.ts]) tells an evaluation expression from plain
      data;
    - [executeEval data expr] ([eval.ts]) is the portable evaluator of
      expressions;
    - [makeRegExp] ([utils.ts]) gives the source and the flags of the
      regular expression a [$regex] operand denotes. *)
Class Core : Type := {
  isEvalExpr : value -> bool;
  executeEval : value -> value -> result value;
  makeRegExp : value -> result (string * string)
}.

(* ================================================================== *)
(** * Fields ([namespace Field] of part_000) *)
(* ================================================================== *)

Module Field.

(** [interface Field].  An optional member that is absent is [None]. *)
Record t : Type := mk {
  type : string;
  length : option number;
  nullable : option bool;
  initial : option value;
  precision : option number;
  scale : option number;
  expr : option value;
  legacy : option (list string);
  deprecated : option bool
}.

Definition number : list string :=
  ["integer"; "unsigned"; "float"; "double"; "decimal"].
Definition string : list String.string := ["char"; "string"; "text"].
Definition boolean : list String.string := ["boolean"].
Definition date : list String.string := ["timestamp"; "date"; "time"].
Definition object : list String.string := ["list"; "json"].
Definition primary : list String.string := ["primary"].

(** What [Field.parse] accepts: a shorthand string, a field object, or a
    callback. *)
Inductive source : Type :=
| Shorthand (s : String.string)
| Object (f : t)
| Callback (f : value).

(** [{ type }]. *)
Definition of_type (ty : String.string) : t :=
  mk ty None None None None None None None None.

Definition set_initial (f : t) (v : value) : t :=
  mk (type f) (length f) (nullable f) (Some v) (precision f) (scale f)
     (expr f) (legacy f) (deprecated f).

Definition set_length (f : t) (n : JS.number) : t :=
  mk (type f) (Some n) (nullable f) (initial f) (precision f) (scale f)
     (expr f) (legacy f) (deprecated f).

Definition set_precision_scale (f : t) (p s : JS.number) : t :=
  mk (type f) (length f) (nullable f) (initial f) (Some p) (Some s)
     (expr f) (legacy f) (deprecated f).

Definition set_deprecated (f : t) (b : bool) : t :=
  mk (type f) (length f) (nullable f) (initial f) (precision f) (scale f)
     (expr f) (legacy f) (Some b).

(** ** The regular expression [/^(\w+)(?:\((.+)\))?$/] *)

(** [\w]. *)
Definition is_word (c : ascii) : bool :=
  let n := nat_of_ascii c in
  ((97 <=? n) && (n <=? 122) || (65 <=? n) && (n <=? 90)
   || (48 <=? n) && (n <=? 57) || (n =? 95))%nat.

(** What [.] does not match. *)
Definition is_line_terminator (c : ascii) : bool :=
  let n := nat_of_ascii c in ((n =? 10) || (n =? 13))%nat.

(** The longest prefix of word characters, and what follows it. *)
Fixpoint span_word (s : String.string) : String.string * String.string :=
  match s with
  | EmptyString => (EmptyString, EmptyString)
  | String c s' =>
      if is_word c then
        let (w, r) := span_word s' in (String c w, r)
      else (EmptyString, s)
  end.

(** [s] read as [.*\)$]: what precedes the closing parenthesis that ends
    the string. *)
Fixpoint group_body (s : String.string) : option String.string :=
  match s with
  | EmptyString => None
  | String c EmptyString =>
      if Ascii.eqb c ")"%char then Some EmptyString else None
  | String c s' =>
      if is_line_terminator c then None
      else match group_body s' with
           | Some b => Some (String c b)
           | None => None
           end
  end.

(** [regexp.exec(source)]: the two captures, when the string matches. *)
Definition regexp_exec (s : String.string)
  : option (String.string * option String.string) :=
  let (w, rest) := span_word s in
  if String.eqb w "" then None
  else match rest with
       | EmptyString => Some (w, None)
       | String c body =>
           if Ascii.eqb c "("%char then
             match group_body body with
             | Some b => if String.eqb b "" then None else Some (w, Some b)
             | None => None
             end
           else None
       end.

Section Parse.
Context `{Host}.

(** Unary plus on [args[i]], which is [undefined] past the end. *)
Definition plus_arg (args : list String.string) (i : nat) : JS.number :=
  match nth_error args i with
  | Some a => string_to_number a
  | None => NaN
  end.

(** The default initial value of a shorthand. *)
Definition default_initial (f : t) : t :=
  let f1 := if string_in (type f) number then set_initial f (int 0) else f in
  let f2 := if string_in (type f1) string then set_initial f1 (VStr "")
            else f1 in
  let f3 := if String.eqb (type f2) "list" then set_initial f2 (VArr [])
            else f2 in
  if String.eqb (type f3) "json" then set_initial f3 (obj []) else f3.

(** [Field.parse]. *)
Definition parse (src : source) : result t :=
  match src with
  | Callback f =>
      Ok (mk "expr" None None None None None (Some f) None None)
  | Object f =>
      Ok (mk (type f) (length f) (nullable f)
             (match initial f with None => Some VNull | i => i end)
             (precision f) (scale f) (expr f) (legacy f) (deprecated f))
  | Shorthand s =>
      match regexp_exec s with
      | None => Throw (TypeError "invalid field definition")
      | Some (ty, capture2) =>
          let args :=
            split ","%char
                  (match capture2 with Some a => a | None => "" end) in
          let field := of_type ty in
          let field :=
            match initial field with
            | None => default_initial field
            | Some _ => field
            end in
          let field :=
            if String.eqb ty "decimal" then
              set_precision_scale field (plus_arg args 0) (plus_arg args 1)
            else if negb (String.eqb (hd "" args) "") then
              set_length field (plus_arg args 0)
            else field in
          Ok field
      end
  end.
End Parse.

End Field.

(* ================================================================== *)
(** * Models ([class Model] of part_000) *)
(* ================================================================== *)

Module Model.

(** [Model.Config].  A member the caller leaves out is [None]. *)
Record Config : Type := mkConfig {
  c_callback : option value;
  c_autoInc : option bool;
  c_primary : option (MaybeArray string);
  c_unique : option (list (MaybeArray string));
  c_foreign : option (dict (string * string))
}.

Definition no_config : Config := mkConfig None None None None None.

(** The state of a [Model] object. *)
Record t : Type := mk {
  name : string;
  fields : dict Field.t;
  migrations : list (value * list string);
  autoInc : bool;
  primary : MaybeArray string;
  unique : list (MaybeArray string);
  foreign : dict (string * string)
}.

(** [new Model(name)]. *)
Definition new (name : string) : t :=
  mk name [] [] false (One "id") [] [].

Definition with_fields (m : t) (fs : dict Field.t) : t :=
  mk (name m) fs (migrations m) (autoInc m) (primary m) (unique m) (foreign m).

(** [a || b] on an optional index key: the empty string and a missing key
    are falsy, an array is truthy. *)
Definition key_or (a : option (MaybeArray string)) (b : MaybeArray string)
  : MaybeArray string :=
  match a with
  | None => b
  | Some (One s) => if String.eqb s "" then b else One s
  | Some (Many l) => Many l
  end.

Definition bool_or (a : option bool) (b : bool) : bool :=
  match a with
  | Some true => true
  | _ => b
  end.

(** [this.unique.includes(key)]: a string key is found by value; an array
    key is a new object, identical to none of the stored ones. *)
Definition unique_includes (us : list (MaybeArray string))
           (key : MaybeArray string) : bool :=
  match key with
  | One s =>
      existsb (fun u => match u with One s' => String.eqb s s' | _ => false end)
              us
  | Many _ => false
  end.

Definition push_unique (us : list (MaybeArray string))
           (ks : list (MaybeArray string)) : list (MaybeArray string) :=
  fold_left (fun acc key => if unique_includes acc key then acc
                            else acc ++ [key]) ks us.

(** [map.set(callback, keys)] on the migrations, keyed by function
    identity. *)
Fixpoint map_set (ms : list (value * list string)) (cb : value)
         (ks : list string) : list (value * list string) :=
  match ms with
  | [] => [(cb, ks)]
  | (cb', ks') :: ms' =>
      match cb, cb' with
      | VFunc i, VFunc j =>
          if Nat.eqb i j then (cb', ks) :: ms' else (cb', ks') :: map_set ms' cb ks
      | _, _ => (cb', ks') :: map_set ms' cb ks
      end
  end.

Definition is_some {A} (o : option A) : bool :=
  match o with Some _ => true | None => false end.

Section Methods.
Context `{Host} `{Core}.

(** The loop [for (const key in fields)] of [extend]: the fields after
    the loop, and whether [Field.parse] threw on the way. *)
Fixpoint extend_fields (fs : dict Field.t) (deprecated : bool)
         (src : dict Field.source) : dict Field.t * result unit :=
  match src with
  | [] => (fs, Ok tt)
  | (key, s) :: src' =>
      match Field.parse s with
      | Throw e => (fs, Throw e)
      | Ok f =>
          if String.eqb key "__proto__" then (fs, Throw Unsupported)
          else
            extend_fields
              (obj_set fs key (Field.set_deprecated f deprecated))
              deprecated src'
      end
  end.

(** [checkIndex]. *)
Fixpoint checkKeys (fs : dict Field.t) (ks : list string) : result unit :=
  match ks with
  | [] => Ok tt
  | key :: ks' =>
      match lookup key fs with
      | None =>
          Throw (TypeError ("missing field definition for index key "
                            ++ quoted key)%string)
      | Some _ => checkKeys fs ks'
      end
  end.

Definition checkIndex (m : t) (index : MaybeArray string) : result unit :=
  checkKeys (fields m) (makeArray index).

Fixpoint checkIndexes (m : t) (us : list (MaybeArray string)) : result unit :=
  match us with
  | [] => Ok tt
  | u :: us' => _ <- checkIndex m u ;; checkIndexes m us'
  end.

(** Whether the guard before the index check fires:
    [typeof this.primary === 'string' && !this.autoInc &&
     this.fields[this.primary]?.type === 'primary']. *)
Definition primary_mismatch (m : t) : bool :=
  match primary m with
  | One p =>
      negb (autoInc m)
      && match lookup p (fields m) with
         | Some f => String.eqb (Field.type f) "primary"
         | None => false
         end
  | Many _ => false
  end.

(** [extend(fields, config)]: the model after the call, and how the call
    completed.  The model is updated in place, so what was written before
    an exception stays written. *)
Definition extend (m : t) (fs : dict Field.source) (config : Config)
  : t * result unit :=
  let callback := c_callback config in
  let primary' := key_or (c_primary config) (primary m) in
  let autoInc' := bool_or (c_autoInc config) (autoInc m) in
  let unique' :=
    push_unique (unique m)
                (match c_unique config with Some u => u | None => [] end) in
  let foreign' :=
    fold_left (fun acc e => obj_set acc (fst e) (snd e))
              (match c_foreign config with Some f => f | None => [] end)
              (foreign m) in
  let migrations' :=
    match callback with
    | Some cb => if truthy cb then map_set (migrations m) cb (keys fs)
                 else migrations m
    | None => migrations m
    end in
  let deprecated :=
    match callback with Some cb => truthy cb | None => false end in
  let (fields', parsed) := extend_fields (fields m) deprecated fs in
  let m' := mk (name m) fields' migrations' autoInc' primary' unique'
               foreign' in
  match parsed with
  | Throw e => (m', Throw e)
  | Ok _ =>
      if primary_mismatch m' then
        (m', Throw (TypeError "primary type must be used with autoInc"))
      else
        (m', (_ <- checkIndex m' primary' ;; checkIndexes m' unique'))
  end.

(** [resolveValue(key, value)].  The getters are those of a date; on
    another value [value.getHours] is not a function. *)
Definition resolveValue (m : t) (key : string) (v : value) : result value :=
  if isNullable v then Ok v
  else
    match lookup key (fields m) with
    | Some f =>
        if String.eqb (Field.type f) "time" then
          match v with
          | VDate t =>
              Ok (VDate (setHours 0 (getHours t) (getMinutes t)
                                  (getSeconds t) (getMilliseconds t)))
          | VObj _ es =>
              if has_key "getHours" es then Throw Unsupported
              else Throw (TypeError "value.getHours is not a function")
          | _ => Throw (TypeError "value.getHours is not a function")
          end
        else Ok v
    | None => Ok v
    end.

(** The test that ends the descent of [format]:
    [!value || typeof value !== 'object' || isEvalExpr(value)]. *)
Definition is_leaf (v : value) : bool :=
  negb (truthy v) || negb (typeof_object v) || isEvalExpr v.

(** [fields.find(field => key.startsWith(field + '.'))] as a test. *)
Definition under_field (fs : list string) (key : string) : bool :=
  existsb (fun field => startsWith key (field ++ ".")%string) fs.

(** The body of the callback that [format] gives to [map], on the entry
    [(key0, v)]; [descend] is the recursive call on [v]. *)
Definition format_entry (m : t) (strict : bool) (prefix : string)
           (key0 : string) (v : value)
           (descend : string -> entries -> result entries)
           (res : entries) : result entries :=
  let fs := keys (fields m) in
  let key := (prefix ++ key0)%string in
  if string_in key fs then assign res key v
  else if is_leaf v then
    if under_field fs key then assign res key v
    else if strict then
      Throw (TypeError ("unknown field " ++ quoted key ++ " in model "
                        ++ name m)%string)
    else Ok res
  else descend (key ++ ".")%string res.

(** [Object.entries(source).map(callback)] on the members of an object
    and on the elements of an array. *)
Definition format_entries (m : t) (strict : bool) (prefix : string)
           (descend : value -> string -> entries -> result entries)
  : entries -> entries -> result entries :=
  fix go (es : entries) (res : entries) : result entries :=
    match es with
    | [] => Ok res
    | (k, v) :: es' =>
        res' <- format_entry m strict prefix k v (descend v) res ;;
        go es' res'
    end.

Definition format_items (m : t) (strict : bool) (prefix : string)
           (descend : value -> string -> entries -> result entries)
  : nat -> list value -> entries -> result entries :=
  fix go (i : nat) (xs : list value) (res : entries) : result entries :=
    match xs with
    | [] => Ok res
    | v :: xs' =>
        res' <- format_entry m strict prefix (nat_to_string i) v
                             (descend v) res ;;
        go (S i) xs' res'
    end.

(** [format(source, strict, prefix, result)]: the flat object [result]
    after the call. *)
Fixpoint format (m : t) (source : value) (strict : bool) (prefix : string)
         (res : entries) {struct source} : result entries :=
  match source with
  | VUndefined | VNull =>
      Throw (TypeError "Cannot convert undefined or null to object")
  | VObj _ es =>
      format_entries m strict prefix
                     (fun v p r => format m v strict p r) es res
  | VArr xs =>
      format_items m strict prefix
                   (fun v p r => format m v strict p r) 0%nat xs res
  | VStr s =>
      format_entries m strict prefix (fun _ _ r => Ok r)
                     (char_entries 0 s) res
  | _ => Ok res
  end.

(** The inner loop of [parse] with the final write: walk [segs] from
    [node], creating [{}] where a member is [null] or [undefined], then
    resolve the value ([rv]) and set [last] to it in the object reached.
    The result is [node] after the writes.  The objects on the way are
    updated in place; a value of the source that is stored in the result
    is stored as a copy. *)
Fixpoint set_path (node : value) (segs : list string) (last : string)
         (rv : result value) : result value :=
  match segs with
  | [] => v <- rv ;; set_prop node last v
  | segment :: segs' =>
      cur <- get_prop node segment ;;
      if isNullable cur then
        node1 <- set_prop node segment (obj []) ;;
        child <- set_path (obj []) segs' last rv ;;
        set_prop node1 segment child
      else
        child <- set_path cur segs' last rv ;;
        set_prop node segment child
  end.

(** [parse(source)]: the loop over the keys of [source], from the result
    so far. *)
Fixpoint parse_loop (m : t) (src : entries) (res : value) : result value :=
  match src with
  | [] => Ok res
  | (key, x) :: src' =>
      let segments := split dot key in
      res' <- set_path res (removelast segments) (last segments "")
                       (resolveValue m key x) ;;
      parse_loop m src' res'
  end.

Definition parse (m : t) (source : value) : result value :=
  parse_loop m (for_in_entries source) (obj []).

(** The seeding loop of [create]. *)
Fixpoint create_loop (pkeys : list string) (fs : dict Field.t)
         (res : entries) : result entries :=
  match fs with
  | [] => Ok res
  | (key, f) :: fs' =>
      if match Field.deprecated f with Some true => true | _ => false end
      then create_loop pkeys fs' res
      else if negb (string_in key pkeys)
              && negb (match Field.initial f with
                       | Some i => isNullable i
                       | None => true
                       end)
      then
        res' <- assign res key
                  (clone (match Field.initial f with
                          | Some i => i
                          | None => VUndefined
                          end)) ;;
        create_loop pkeys fs' res'
      else create_loop pkeys fs' res
  end.

(** [create(data)]; [data] is [None] when the argument is left out. *)
Definition create (m : t) (data : option value) : result value :=
  seeded <- create_loop (makeArray (primary m)) (fields m) [] ;;
  parse m (obj (spread seeded
                       (match data with
                        | Some d => for_in_entries d
                        | None => []
                        end))).
End Methods.

End Model.

(* ================================================================== *)
(** * The portable evaluator of queries (query.ts) *)
(* ================================================================== *)

Module Query.

(** Modelled from the spec: [isComparable] of [utils.ts], which is not
    under [src/].  The comparable values are the strings, the numbers, the
    booleans and the dates (Section 4.3: a bare comparable is [$eq], and
    dates compare by epoch milliseconds). *)
Definition isComparable (v : value) : bool :=
  match v with
  | VStr _ | VNum _ | VBool _ | VDate _ => true
  | _ => false
  end.

Definition number_eqb (a b : number) : bool :=
  match a, b with
  | Int x, Int y => Z.eqb x y
  | _, _ => false
  end.

(** ToNumber on a primitive. *)
Definition to_number `{Host} (v : value) : result number :=
  match v with
  | VUndefined => Ok NaN
  | VNull => Ok (Int 0)
  | VBool b => Ok (Int (if b then 1 else 0))
  | VNum n => Ok n
  | VStr s => Ok (string_to_number s)
  | VDate t => Ok (Int t)
  | _ => Throw Unsupported
  end.

(** ToInt32 of an integer. *)
Definition wrap32 (z : Z) : Z :=
  let m := z mod 4294967296 in
  if m <? 2147483648 then m else m - 4294967296.

Definition to_int32 `{Host} (v : value) : result Z :=
  n <- to_number v ;;
  ret (match n with Int z => wrap32 z | NaN => 0 end).

(** [a & b]. *)
Definition bit_and `{Host} (a b : value) : result Z :=
  x <- to_int32 a ;; y <- to_int32 b ;; ret (Z.land x y).

Section Evaluator.
Context `{Host} `{Core}.

(** [a === b]. *)
Definition strict_equal (a b : value) : bool :=
  match a, b with
  | VUndefined, VUndefined => true
  | VNull, VNull => true
  | VBool x, VBool y => Bool.eqb x y
  | VNum x, VNum y => number_eqb x y
  | VStr x, VStr y => String.eqb x y
  | _, _ => negb (is_primitive a) && negb (is_primitive b) && same_object a b
  end.

(** SameValueZero, the test of [Array.prototype.includes]: as [===],
    but NaN is equal to itself. *)
Definition same_value_zero (a b : value) : bool :=
  match a, b with
  | VNum NaN, VNum NaN => true
  | _, _ => strict_equal a b
  end.

(** [xs.includes(v)]. *)
Definition includes (xs : list value) (v : value) : bool :=
  existsb (fun x => same_value_zero x v) xs.

(** [v.valueOf()]. *)
Definition valueOf (v : value) : result value :=
  match v with
  | VUndefined | VNull =>
      Throw (TypeError "Cannot read properties of undefined or null")
  | VDate t => Ok (int t)
  | VObj _ es => if has_key "valueOf" es then Throw Unsupported else Ok v
  | _ => Ok v
  end.

(** [a < b] on two results of [valueOf]: [None] is the undefined outcome
    of a comparison with NaN. *)
Definition less_than (a b : value) : result (option bool) :=
  match a, b with
  | VStr x, VStr y => Ok (Some (String.ltb x y))
  | _, _ =>
      x <- to_number a ;;
      y <- to_number b ;;
      ret (match x, y with
           | Int p, Int q => Some (p <? q)
           | _, _ => None
           end)
  end.

Definition is_true (o : option bool) : bool :=
  match o with Some true => true | _ => false end.
Definition is_false (o : option bool) : bool :=
  match o with Some false => true | _ => false end.

(** The operators of [queryOperators] that do not call back into
    [executeFieldQuery], as functions of [(query, data)]. *)
Definition simpleOperator (key : string)
  : option (value -> value -> result bool) :=
  if String.eqb key "$exists" then
    Some (fun query data =>
            Ok (negb (strict_equal query (VBool (isNullable data)))))
  else if String.eqb key "$eq" then
    Some (fun query data =>
            d <- valueOf data ;; q <- valueOf query ;;
            ret (strict_equal d q))
  else if String.eqb key "$ne" then
    Some (fun query data =>
            d <- valueOf data ;; q <- valueOf query ;;
            ret (negb (strict_equal d q)))
  else if String.eqb key "$gt" then
    Some (fun query data =>
            d <- valueOf data ;; q <- valueOf query ;;
            r <- less_than q d ;; ret (is_true r))
  else if String.eqb key "$gte" then
    Some (fun query data =>
            d <- valueOf data ;; q <- valueOf query ;;
            r <- less_than d q ;; ret (is_false r))
  else if String.eqb key "$lt" then
    Some (fun query data =>
            d <- valueOf data ;; q <- valueOf query ;;
            r <- less_than d q ;; ret (is_true r))
  else if String.eqb key "$lte" then
    Some (fun query data =>
            d <- valueOf data ;; q <- valueOf query ;;
            r <- less_than q d ;; ret (is_false r))
  else if String.eqb key "$in" then
    Some (fun query data =>
            match query with
            | VArr xs => Ok (includes xs data)
            | VUndefined | VNull =>
                Throw (TypeError "Cannot read properties of undefined or null")
            | VStr _ => Throw Unsupported
            | VObj _ es =>
                if has_key "includes" es then Throw Unsupported
                else Throw (TypeError "query.includes is not a function")
            | _ => Throw (TypeError "query.includes is not a function")
            end)
  else if String.eqb key "$nin" then
    Some (fun query data =>
            match query with
            | VArr xs => Ok (negb (includes xs data))
            | VUndefined | VNull =>
                Throw (TypeError "Cannot read properties of undefined or null")
            | VStr _ => Throw Unsupported
            | VObj _ es =>
                if has_key "includes" es then Throw Unsupported
                else Throw (TypeError "query.includes is not a function")
            | _ => Throw (TypeError "query.includes is not a function")
            end)
  else if String.eqb key "$regex" then
    Some (fun query data =>
            r <- makeRegExp query ;;
            regexp_test (fst r) (snd r) data)
  else if String.eqb key "$regexFor" then
    Some (fun query data =>
            match data with
            | VStr pattern => regexp_test pattern "i" query
            | VRegExp pattern _ => regexp_test pattern "i" query
            | _ => Throw Unsupported
            end)
  else if String.eqb key "$bitsAllSet" then
    Some (fun query data =>
            r <- bit_and query data ;;
            ret (strict_equal (int r) query))
  else if String.eqb key "$bitsAllClear" then
    Some (fun query data => r <- bit_and query data ;; ret (Z.eqb r 0))
  else if String.eqb key "$bitsAnySet" then
    Some (fun query data =>
            r <- bit_and query data ;; ret (negb (Z.eqb r 0)))
  else if String.eqb key "$bitsAnyClear" then
    Some (fun query data =>
            r <- bit_and query data ;;
            ret (negb (strict_equal (int r) query)))
  else if String.eqb key "$size" then
    Some (fun query data =>
            match data with
            | VUndefined | VNull =>
                Throw (TypeError "Cannot read properties of undefined or null")
            | VArr xs =>
                Ok (strict_equal (int (Z.of_nat (List.length xs))) query)
            | VStr s =>
                Ok (strict_equal (int (Z.of_nat (String.length s))) query)
            | VObj _ es =>
                match lookup "length" es with
                | Some l => Ok (strict_equal l query)
                | None => Ok (strict_equal VUndefined query)
                end
            | VFunc _ => Throw Unsupported
            | _ => Ok (strict_equal VUndefined query)
            end)
  else None.

(** The failure of a call [query.reduce(...)] or [data.some(...)] on a
    value that is not an array. *)
Definition not_an_array {A} (v : value) (member : string) : result A :=
  match v with
  | VUndefined | VNull =>
      Throw (TypeError "Cannot read properties of undefined or null")
  | VObj _ es =>
      if has_key member es then Throw Unsupported
      else Throw (TypeError (member ++ " is not a function")%string)
  | _ => Throw (TypeError (member ++ " is not a function")%string)
  end.

(** [executeFieldQuery(query, data)].  The three local functions follow
    the reducers of [$or] and [$and], [data.some] of [$el], and the loop
    over the keys of a query object. *)
Fixpoint executeFieldQuery (query : value) (data : value) {struct query}
  : result bool :=
  let reduce_or :=
    fix reduce_or (qs : list value) (prev : bool) : result bool :=
      match qs with
      | [] => Ok prev
      | q :: qs' =>
          if prev then reduce_or qs' true
          else r <- executeFieldQuery q data ;; reduce_or qs' r
      end in
  let reduce_and :=
    fix reduce_and (qs : list value) (prev : bool) : result bool :=
      match qs with
      | [] => Ok prev
      | q :: qs' =>
          if prev then r <- executeFieldQuery q data ;; reduce_and qs' r
          else reduce_and qs' false
      end in
  match query with
  | VArr xs => Ok (includes xs data)
  | VRegExp source flags => regexp_test source flags data
  | VStr _ | VNum _ | VBool _ | VDate _ =>
      d <- valueOf data ;; q <- valueOf query ;; ret (strict_equal d q)
  | VUndefined | VNull => Ok (isNullable data)
  | VObj _ es =>
      (fix loop (es : entries) : result bool :=
         match es with
         | [] => Ok true
         | (key, q) :: es' =>
             r <- (if String.eqb key "$or" then
                     match q with
                     | VArr qs => reduce_or qs false
                     | _ => not_an_array q "reduce"
                     end
                   else if String.eqb key "$and" then
                     match q with
                     | VArr qs => reduce_and qs true
                     | _ => not_an_array q "reduce"
                     end
                   else if String.eqb key "$not" then
                     b <- executeFieldQuery q data ;; ret (negb b)
                   else if String.eqb key "$el" then
                     match data with
                     | VArr items =>
                         (fix some (items : list value) : result bool :=
                            match items with
                            | [] => Ok false
                            | item :: items' =>
                                b <- executeFieldQuery q item ;;
                                if b then Ok true else some items'
                            end) items
                     | _ => not_an_array data "some"
                     end
                   else
                     match simpleOperator key with
                     | Some op => op q data
                     | None =>
                         if inherited_key key then Throw Unsupported
                         else Ok true
                     end) ;;
             if r then loop es' else Ok false
         end) es
  | _ => Ok true
  end.

(** [getCell(row, key)]. *)
Definition getCell (row : value) (key : string) : result value :=
  fold_left (fun r k => r' <- r ;; get_prop r' k) (split dot key) (Ok row).

(** [try { return executeFieldQuery(value, getCell(data, key)) }
     catch { return false }]. *)
Definition fieldConjunct (data : value) (key : string) (v : value)
  : result bool :=
  match (cell <- getCell data key ;; executeFieldQuery v cell) with
  | Ok b => Ok b
  | Throw Unsupported => Throw Unsupported
  | Throw _ => Ok false
  end.

(** [{ ...env, [ref]: data, _: data }]. *)
Definition evalScope (env : value) (ref : string) (data : value) : value :=
  obj (obj_set (obj_set (spread [] (for_in_entries env)) ref data) "_" data).

(** [entries.every(callback)] where no entry is a logical combinator. *)
Fixpoint everyField (data : value) (es : entries) : result bool :=
  match es with
  | [] => Ok true
  | (key, v) :: es' =>
      b <- fieldConjunct data key v ;;
      if b then everyField data es' else Ok false
  end.

(** [executeQuery(data, query, ref, env)]. *)
Fixpoint executeQuery (data : value) (query : value) (ref : string)
         (env : value) {struct query} : result bool :=
  let reduce_and :=
    fix reduce_and (qs : list value) (prev : bool) : result bool :=
      match qs with
      | [] => Ok prev
      | q :: qs' =>
          if prev then r <- executeQuery data q ref env ;; reduce_and qs' r
          else reduce_and qs' false
      end in
  let reduce_or :=
    fix reduce_or (qs : list value) (prev : bool) : result bool :=
      match qs with
      | [] => Ok prev
      | q :: qs' =>
          if prev then reduce_or qs' true
          else r <- executeQuery data q ref env ;; reduce_or qs' r
      end in
  match query with
  | VObj _ es =>
      (fix every (es : entries) : result bool :=
         match es with
         | [] => Ok true
         | (key, v) :: es' =>
             r <- (if String.eqb key "$and" then
                     match v with
                     | VArr qs => reduce_and qs true
                     | _ => not_an_array v "reduce"
                     end
                   else if String.eqb key "$or" then
                     match v with
                     | VArr qs => reduce_or qs false
                     | _ => not_an_array v "reduce"
                     end
                   else if String.eqb key "$not" then
                     b <- executeQuery data v ref env ;; ret (negb b)
                   else if String.eqb key "$expr" then
                     x <- executeEval (evalScope env ref data) v ;;
                     ret (truthy x)
                   else fieldConjunct data key v) ;;
             if r then every es' else Ok false
         end) es
  | _ =>
      es <- object_entries query ;;
      everyField data es
  end.

(** The rows of a data set that a query selects. *)
Fixpoint selectRows (rows : list value) (query : value) (ref : string)
         (env : value) : result (list value) :=
  match rows with
  | [] => Ok []
  | row :: rows' =>
      b <- executeQuery row query ref env ;;
      rest <- selectRows rows' query ref env ;;
      ret (if b then row :: rest else rest)
  end.
End Evaluator.

End Query.

(* ================================================================== *)
(** * Types ([namespace Type], at the end of query.ts) *)
(* ================================================================== *)

Module Type_.

(** A type is an object that carries [true] under the symbol [kType];
    cosmokit [defineProperty(object, kType, true)]. *)
Definition make (es : entries) : value := VObj (Some (VBool true)) es.

Definition Boolean : value := make [("type", VStr "boolean")].
Definition Number : value := make [("type", VStr "double")].
Definition String : value := make [("type", VStr "string")].

(** An own data member of an object, [undefined] elsewhere or when
    missing. *)
Definition member (v : value) (k : string) : value :=
  match v with
  | VObj _ es => match lookup k es with Some x => x | None => VUndefined end
  | _ => VUndefined
  end.

(** [type?.type === s]. *)
Definition type_is (type : value) (s : string) : bool :=
  match member type "type" with
  | VStr x => String.eqb x s
  | _ => false
  end.

(** [value?.[kType]]. *)
Definition kType (v : value) : value :=
  match v with
  | VObj (Some t) _ => t
  | _ => VUndefined
  end.

(** [Type.isType]. *)
Definition isType (v : value) : bool :=
  match kType v with
  | VBool true => true
  | _ => false
  end.

(** [Type.Array(type)]. *)
Definition Array (type : value) : value :=
  make [("type", VStr "json"); ("inner", type); ("array", VBool true)].

Section Types.
Context `{Core}.

(** [Type.fromField]. *)
Definition fromField (field : value) : result value :=
  if isType field then Throw (TypeError "invalid field")
  else match field with
       | VStr s => Ok (make [("type", field)])
       | VUndefined | VNull =>
           Throw (TypeError "Cannot read properties of undefined or null")
       | _ =>
           if truthy (member field "type") then Ok (member field "type")
           else if truthy (kType (member field "expr"))
                then Ok (kType (member field "expr"))
                else Throw (TypeError "invalid field")
       end.

(** [Type.Object(obj)]. *)
Definition Object (o : value) : result value :=
  let es := match o with
            | VUndefined | VNull => []
            | _ => for_in_entries o
            end in
  match es with
  | [] => Ok (make [("type", VStr "json"); ("inner", VUndefined)])
  | _ =>
      inner <- fold_right
                 (fun e acc =>
                    rest <- acc ;;
                    t <- (if isType (snd e) then Ok (snd e)
                          else fromField (snd e)) ;;
                    ret ((fst e, t) :: rest))
                 (Ok []) es ;;
      ret (make [("type", VStr "json"); ("inner", obj inner)])
  end.

(** [Type.fromPrimitive]. *)
Fixpoint fromPrimitive (v : value) : result value :=
  match v with
  | VUndefined | VNull => fromField (VStr "expr")
  | VNum _ => Ok Number
  | VStr _ => Ok String
  | VBool _ => Ok Boolean
  | VDate _ => fromField (VStr "timestamp")
  | VArr [] => Ok (Array VUndefined)
  | VArr (x :: _) => t <- fromPrimitive x ;; ret (Array t)
  | VFunc _ => Throw (TypeError "invalid primitive")
  | _ => fromField (VStr "json")
  end.

(** [Type.fromTerm]. *)
Definition fromTerm (v : value) : result value :=
  if isEvalExpr v then
    if isNullable (kType v) then fromField (VStr "expr") else Ok (kType v)
  else fromPrimitive v.

(** [Type.isArray]. *)
Definition isArray (type : value) : bool :=
  type_is type "json" && truthy (member type "array").

(** The last case of [getInner]: the members of [type.inner] under
    the prefix [key + '.'], as an object type. *)
Definition innerUnder (inner : value) (key : string) : result value :=
  Object
    (obj (map (fun e => (slice_from (S (String.length key)) (fst e), snd e))
              (filter (fun e => startsWith (fst e) (key ++ ".")%string)
                      (for_in_entries inner)))).

(** [Type.getInner(type, key)] for a key that has no dot, or whose dots
    are not looked at because an earlier case applies. *)
Definition getInnerSegment (type : value) (key : option string)
  : result value :=
  let inner := member type "inner" in
  if negb (truthy inner) then Ok VUndefined
  else match key with
       | None => if isArray type then Ok inner else Ok VUndefined
       | Some k =>
           direct <- get_prop inner k ;;
           if truthy direct then Ok direct else innerUnder inner k
       end.

(** [Type.getInner(type, key)]. *)
Definition getInner (type : value) (key : option string) : result value :=
  let inner := member type "inner" in
  if negb (truthy inner) then Ok VUndefined
  else match key with
       | None => if isArray type then Ok inner else Ok VUndefined
       | Some k =>
           direct <- get_prop inner k ;;
           if truthy direct then Ok direct
           else if existsb (Ascii.eqb dot) (list_ascii_of_string k) then
             fold_left (fun t seg => t' <- t ;; getInnerSegment t' (Some seg))
                       (split dot k) (Ok type)
           else innerUnder inner k
       end.
End Types.

End Type_.

(* ================================================================== *)
(** * The Mongo lowering (builder.ts) *)
(* ================================================================== *)

Module Mongo.

(** What the embedding takes from code that is not under [src/]:
    - [newObjectId]: [new ObjectId(s)] of the mongodb driver;
    - [isFlat], [flatten], [unravel], [isAggrExpr] of [utils.ts] and
      [eval.ts]; [flatten value prefix ignore] gives the members of the
      flattened object;
    - [evalStatic key]: whether [Eval[key]] is defined ([eval.ts]);
    - [convert value type]: [Builder.dump], whose converters
      ([driver.types], [database.types], [Type.transform]) are not under
      [src/];
    - [createSubquery]: the transformer of a sub-selection, as the table,
      the pipeline, the evaluation key and the aggregate default of the
      builder that [Builder.select] returns. *)
Record Transformer : Type := mkTransformer {
  t_table : value;
  t_pipeline : value;
  t_evalKey : string;
  t_aggrDefault : value
}.

Class Deps : Type := {
  newObjectId : string -> result value;
  isFlat : value -> bool;
  flatten : value -> string -> (value -> bool) -> entries;
  unravel : value -> value;
  isAggrExpr : value -> bool;
  evalStatic : string -> bool;
  convert : value -> value -> result value;
  createSubquery : value -> option Transformer
}.

Definition is_object_id (v : value) : bool :=
  match v with VObjectId _ => true | _ => false end.

Definition is_regexp (v : value) : bool :=
  match v with VRegExp _ _ => true | _ => false end.

(** [for (const item of v)] and [v.some(...)] need an array. *)
Definition array_items (v : value) : result (list value) :=
  match v with
  | VArr xs => Ok xs
  | VUndefined | VNull =>
      Throw (TypeError "Cannot read properties of undefined or null")
  | VStr _ => Throw Unsupported
  | VObj _ _ => Throw Unsupported
  | _ => Throw (TypeError "value is not iterable")
  end.

Section Filters.
Context `{Host} `{Core} `{Deps}.

(** [createFieldFilter] over a given [transformFieldQuery]. *)
Definition createFieldFilterWith
           (transform : value -> string -> list value -> value
                        -> result (value * list value))
           (query : value) (key : string) (type : value) : result value :=
  r <- transform query key [] type ;;
  let (child, filters) := r in
  match child with
  | VBool false => Ok (VBool false)
  | _ =>
      let res :=
        match child with
        | VBool true => []
        | _ => obj_set [] key child
        end in
      let res :=
        match filters with
        | [] => res
        | _ => obj_set res "$and" (VArr filters)
        end in
      match res with
      | [] => Ok (VBool true)
      | _ => Ok (obj res)
      end
  end.

(** [transformFieldQuery(query, key, filters, type)]: what it returns
    ([false], [true], [null] or a filter) and [filters] after the call. *)
Fixpoint transformFieldQuery (query : value) (key : string)
         (filters : list value) (type : value) {struct query}
  : result (value * list value) :=
  if Query.isComparable query || is_object_id query then
    q <- (if Type_.type_is type "primary" then
            match query with
            | VStr s => newObjectId s
            | _ => Ok query
            end
          else Ok query) ;;
    ret (obj [("$eq", q)], filters)
  else
  match query with
  | VArr [] => Ok (VBool false, filters)
  | VArr _ => Ok (obj [("$in", query)], filters)
  | VRegExp _ _ => Ok (obj [("$regex", query)], filters)
  | VUndefined | VNull => Ok (VNull, filters)
  | VObj _ es =>
      (fix loop (es : entries) (res : entries) (filters : list value)
         : result (value * list value) :=
         match es with
         | [] =>
             match res with
             | [] => Ok (VBool true, filters)
             | _ => Ok (obj res, filters)
             end
         | (prop, q) :: es' =>
             if String.eqb prop "$and" then
               match q with
               | VArr items =>
                   (fix each (items : list value) (filters : list value)
                      : result (value * list value) :=
                      match items with
                      | [] => loop es' res filters
                      | item :: items' =>
                          child <- createFieldFilterWith
                                     transformFieldQuery item key type ;;
                          match child with
                          | VBool false => Ok (VBool false, filters)
                          | VBool true => each items' filters
                          | _ => each items' (filters ++ [child])
                          end
                      end) items filters
               | _ => _ <- array_items q ;; Throw Unsupported
               end
             else if String.eqb prop "$or" then
               match q with
               | VArr [] => Ok (VBool false, filters)
               | VArr items =>
                   always <-
                     (fix some (items : list value) (or : list value)
                        : result (bool * list value) :=
                        match items with
                        | [] => Ok (false, or)
                        | item :: items' =>
                            child <- createFieldFilterWith
                                       transformFieldQuery item key type ;;
                            match child with
                            | VBool true => Ok (true, or)
                            | VBool false => some items' or
                            | _ => some items' (or ++ [child])
                            end
                        end) items [] ;;
                   if fst always then loop es' res filters
                   else loop es' res
                             (filters ++ [obj [("$or", VArr (snd always))]])
               | VUndefined | VNull =>
                   Throw (TypeError
                            "Cannot read properties of undefined or null")
               | VStr s =>
                   if String.eqb s "" then Ok (VBool false, filters)
                   else Throw (TypeError "some is not a function")
               | VObj _ qs =>
                   if has_key "length" qs then Throw Unsupported
                   else Ok (VBool false, filters)
               | VFunc _ => Throw Unsupported
               | _ => Ok (VBool false, filters)
               end
             else if String.eqb prop "$not" then
               child <- createFieldFilterWith
                          transformFieldQuery q key type ;;
               match child with
               | VBool true => Ok (VBool false, filters)
               | VBool false => loop es' res filters
               | _ => loop es' res
                           (filters ++ [obj [("$nor", VArr [child])]])
               end
             else if String.eqb prop "$el" then
               r <- transformFieldQuery q key filters VUndefined ;;
               match fst r with
               | VBool false => Ok (VBool false, snd r)
               | VBool true => loop es' res (snd r)
               | child => r' <- assign res "$elemMatch" child ;;
                          loop es' r' (snd r)
               end
             else if String.eqb prop "$regex" then
               match q with
               | VStr _ => Ok (obj [("$regex", q)], filters)
               | _ => r <- makeRegExp q ;;
                      ret (obj [("$regex", VRegExp (fst r) (snd r))],
                           filters)
               end
             else if String.eqb prop "$regexFor" then
               match q with
               | VUndefined | VNull =>
                   Throw (TypeError
                            "Cannot read properties of undefined or null")
               | _ =>
                   let input :=
                     if isNullable (Type_.member q "input") then q
                     else Type_.member q "input" in
                   let flags := Type_.member q "flags" in
                   let m :=
                     [("input", input);
                      ("regex", VStr ("$" ++ key)%string)]
                     ++ (if truthy flags then [("options", flags)]
                         else []) in
                   loop es' res
                        (filters
                           ++ [obj [("$expr", obj [("$regexMatch", obj m)])]])
               end
             else if String.eqb prop "$exists" then
               if truthy q then Ok (obj [("$ne", VNull)], filters)
               else Ok (VNull, filters)
             else
               r' <- assign res prop q ;;
               loop es' r' filters
         end) es [] filters
  | _ => Ok (VBool true, filters)
  end.

(** [createFieldFilter]. *)
Definition createFieldFilter : value -> string -> value -> result value :=
  createFieldFilterWith transformFieldQuery.
End Filters.

(** ** The builder *)

(** The state of a [Builder], with the version of the server its driver
    talks to ([driver.version]). *)
Record Builder : Type := mkBuilder {
  counter : nat;
  table : value;
  walkedKeys : list string;
  pipeline : list value;
  lookups : list value;
  evalKey : option string;
  evalExpr : value;
  refTables : list string;
  refVirtualKeys : dict string;
  joinTables : dict string;
  aggrDefault : value;
  tables : list string;
  virtualKey : option string;
  recursivePrefix : string;
  version : Z
}.

(** [new Builder(driver, tables, virtualKey, recursivePrefix)]. *)
Definition new (version : Z) (tables : list string)
           (virtualKey : option string) (recursivePrefix : string) : Builder :=
  mkBuilder 0 VUndefined [] [] [] None VUndefined [] [] [] VUndefined
            tables virtualKey recursivePrefix version.

(** The state a lowering runs in: the builder, and the object given as
    [group] to [eval] (the [$group] stage under construction), if any. *)
Record State : Type := mkState {
  builder : Builder;
  group : entries
}.

(** A computation on the state that may throw. *)
Definition M (A : Type) : Type := State -> result (A * State).

Definition mret {A} (a : A) : M A := fun s => Ok (a, s).

Definition mbind {A B} (c : M A) (f : A -> M B) : M B :=
  fun s => match c s with
           | Ok (a, s') => f a s'
           | Throw e => Throw e
           end.

Definition mthrow {A} (e : error) : M A := fun _ => Throw e.

Definition lift {A} (r : result A) : M A :=
  fun s => match r with Ok a => Ok (a, s) | Throw e => Throw e end.

Definition get_builder : M Builder := fun s => Ok (builder s, s).

Definition update (f : Builder -> Builder) : M unit :=
  fun s => Ok (tt, mkState (f (builder s)) (group s)).

Definition set_group (key : string) (v : value) : M unit :=
  fun s => match assign (group s) key v with
           | Ok g => Ok (tt, mkState (builder s) g)
           | Throw e => Throw e
           end.

Notation "x <~ c ;; k" := (mbind c (fun x => k))
  (at level 61, c at next level, right associativity).

(** [xs.map(f)] in the monad, left to right. *)
Definition mapM {A B} (f : A -> M B) : list A -> M (list B) :=
  fix go (xs : list A) : M (list B) :=
    match xs with
    | [] => mret []
    | x :: xs' => y <~ f x ;; ys <~ go xs' ;; mret (y :: ys)
    end.

(** [mapValues(o, f)] in the monad. *)
Definition mapValuesM (f : value -> M value) : entries -> M entries :=
  fix go (es : entries) : M entries :=
    match es with
    | [] => mret []
    | (k, v) :: es' => y <~ f v ;; ys <~ go es' ;; mret ((k, y) :: ys)
    end.

Definition push_walked (k : string) (b : Builder) : Builder :=
  mkBuilder (counter b) (table b) (walkedKeys b ++ [k]) (pipeline b)
            (lookups b) (evalKey b) (evalExpr b) (refTables b)
            (refVirtualKeys b) (joinTables b) (aggrDefault b) (tables b)
            (virtualKey b) (recursivePrefix b) (version b).

Definition push_lookups (ls : list value) (b : Builder) : Builder :=
  mkBuilder (counter b) (table b) (walkedKeys b) (pipeline b)
            (lookups b ++ ls) (evalKey b) (evalExpr b) (refTables b)
            (refVirtualKeys b) (joinTables b) (aggrDefault b) (tables b)
            (virtualKey b) (recursivePrefix b) (version b).

Definition set_lookups (ls : list value) (b : Builder) : Builder :=
  mkBuilder (counter b) (table b) (walkedKeys b) (pipeline b)
            ls (evalKey b) (evalExpr b) (refTables b)
            (refVirtualKeys b) (joinTables b) (aggrDefault b) (tables b)
            (virtualKey b) (recursivePrefix b) (version b).

Definition push_pipeline (ls : list value) (b : Builder) : Builder :=
  mkBuilder (counter b) (table b) (walkedKeys b) (pipeline b ++ ls)
            (lookups b) (evalKey b) (evalExpr b) (refTables b)
            (refVirtualKeys b) (joinTables b) (aggrDefault b) (tables b)
            (virtualKey b) (recursivePrefix b) (version b).

Definition set_evalExpr (e : value) (b : Builder) : Builder :=
  mkBuilder (counter b) (table b) (walkedKeys b) (pipeline b)
            (lookups b) (evalKey b) e (refTables b)
            (refVirtualKeys b) (joinTables b) (aggrDefault b) (tables b)
            (virtualKey b) (recursivePrefix b) (version b).

Definition set_aggrDefault (v : value) (b : Builder) : Builder :=
  mkBuilder (counter b) (table b) (walkedKeys b) (pipeline b)
            (lookups b) (evalKey b) (evalExpr b) (refTables b)
            (refVirtualKeys b) (joinTables b) v (tables b)
            (virtualKey b) (recursivePrefix b) (version b).

Definition incr_counter (b : Builder) : Builder :=
  mkBuilder (S (counter b)) (table b) (walkedKeys b) (pipeline b)
            (lookups b) (evalKey b) (evalExpr b) (refTables b)
            (refVirtualKeys b) (joinTables b) (aggrDefault b) (tables b)
            (virtualKey b) (recursivePrefix b) (version b).

(** [createKey()]. *)
Definition createKey : M string :=
  _ <~ update incr_counter ;;
  b <~ get_builder ;;
  mret ("_temp_" ++ nat_to_string (counter b))%string.

(** [getActualKey(key, ref)]. *)
Definition getActualKey (b : Builder) (key : string) (ref : option string)
  : string :=
  let virtual :=
    match ref with
    | Some r => if String.eqb r "" then virtualKey b
                else lookup r (refVirtualKeys b)
    | None => virtualKey b
    end in
  match virtual with
  | Some v => if String.eqb key v then "_id" else key
  | None => key
  end.

Definition aggrKeys : list string :=
  ["$sum"; "$avg"; "$min"; "$max"; "$count"; "$length"; "$array"].

(** The function bodies that the lowering of the bitwise operators hands
    to the server as source text ([function (...) {...}.toString()]). *)
Inductive FunctionBody : Type :=
| AndNumber | AndBigInt
| OrNumber | OrBigInt
| NotNumber | NotBigInt
| XorNumber | XorBigInt.

(** The text of a function body, kept symbolic. *)
Definition body_text (f : FunctionBody) : value :=
  VStr (match f with
        | AndNumber => "function (...args) { return args.reduce((prev, curr) => prev & curr) }"
        | AndBigInt => "function (...args) { return args.reduce((prev, curr) => String(BigInt(prev ?? 0) & BigInt(curr ?? 0))) }"
        | OrNumber => "function (...args) { return args.reduce((prev, curr) => prev | curr) }"
        | OrBigInt => "function (...args) { return args.reduce((prev, curr) => String(BigInt(prev ?? 0) | BigInt(curr ?? 0))) }"
        | NotNumber => "function (arg) { return ~arg }"
        | NotBigInt => "function (arg) { return String(~BigInt(arg ?? 0)) }"
        | XorNumber => "function (...args) { return args.reduce((prev, curr) => prev ^ curr) }"
        | XorBigInt => "function (...args) { return args.reduce((prev, curr) => String(BigInt(prev ?? 0) ^ BigInt(curr ?? 0))) }"
        end).

(** [{ $function: { body, args, lang: 'js' } }]. *)
Definition function_call (f : FunctionBody) (args : list value) : value :=
  obj [("$function",
        obj [("body", body_text f); ("args", VArr args); ("lang", VStr "js")])].

(** The arguments of the arbitrary-precision variant:
    [{ $toString: arg }]. *)
Definition to_string_arg (v : value) : value := obj [("$toString", v)].

Definition to_long (v : value) : value := obj [("$toLong", v)].

Definition type_in (type : value) (l : list string) : bool :=
  match Type_.member type "type" with
  | VStr s => string_in s l
  | _ => false
  end.

(** The keys of [evalOperators]. *)
Definition evalOperatorKeys : list string :=
  ["$"; "$select"; "$if"; "$and"; "$or"; "$not"; "$xor"; "$object";
   "$regex"; "$length"; "$nin"; "$modulo"; "$log"; "$power"; "$random";
   "$literal"; "$number"; "$get"; "$exec"].

Section Eval.
Context `{Host} `{Core} `{Deps}.

(** [dump(value, type)]: nothing to do without a type. *)
Definition dump (v : value) (type : value) : result value :=
  if negb (truthy type) then Ok v else convert v type.

(** The operator [$]: a reference to a column. *)
Definition evalRef (arg : value) : M value :=
  match arg with
  | VStr a =>
      b <~ get_builder ;;
      _ <~ update (push_walked (getActualKey b a None)) ;;
      mret (VStr (recursivePrefix b ++ getActualKey b a None)%string)
  | VArr (VStr a0 :: VStr a1 :: _) =>
      b <~ get_builder ;;
      let segs := split dot a1 in
      let joinRoot := hd "" segs in
      let rest := join "." (tl segs) in
      let joined := (a0 ++ "." ++ joinRoot)%string in
      if string_in joined (tables b) then
        mret (VStr (recursivePrefix b ++ rest)%string)
      else match lookup joined (joinTables b) with
           | Some t => mret (VStr ("$$" ++ t ++ "." ++ rest)%string)
           | None =>
               if string_in a0 (tables b) then
                 _ <~ update (push_walked (getActualKey b a1 None)) ;;
                 mret (VStr (recursivePrefix b
                             ++ getActualKey b a1 None)%string)
               else if string_in a0 (refTables b) then
                 mret (VStr ("$$" ++ a0 ++ "."
                             ++ getActualKey b a1 (Some a0))%string)
               else mthrow (Error "$ not transformed")
           end
  | _ => mthrow Unsupported
  end.

(** The operator [$exec]: a sub-selection becomes a lookup. *)
Definition evalExec (arg : value) : M value :=
  match createSubquery arg with
  | None => mthrow (Error "Selection cannot be executed")
  | Some transformer =>
      name <~ createKey ;;
      b <~ get_builder ;;
      let first :=
        match Type_.member arg "args" with
        | VArr (a :: _) => a
        | _ => VUndefined
        end in
      let root := match tables b with t :: _ => t | [] => "undefined" end in
      let lookup_stage :=
        obj [("$lookup",
              obj [("from", t_table transformer);
                   ("as", VStr name);
                   ("let", obj [(root, VStr "$$ROOT")]);
                   ("pipeline", t_pipeline transformer)])] in
      let projected :=
        if negb (isAggrExpr first) then
          obj [("$getField",
                obj [("input",
                      obj [("$ifNull",
                            VArr [obj [("$arrayElemAt",
                                        VArr [VStr ("$" ++ name)%string;
                                              int 0])];
                                  obj [(t_evalKey transformer,
                                        t_aggrDefault transformer)]])]);
                     ("field", VStr (t_evalKey transformer))])]
        else
          obj [("$map",
                obj [("input", VStr ("$" ++ name)%string);
                     ("as", VStr "el");
                     ("in", VStr ("$$el." ++ t_evalKey transformer)%string)])]
      in
      let set_stage := obj [("$set", obj [(name, projected)])] in
      _ <~ update (push_lookups [lookup_stage; set_stage]) ;;
      mret (VStr ("$" ++ name)%string)
  end.

(** The operator [$number] on the lowered argument. *)
Definition numberOf (v : value) : value :=
  obj [("$ifNull",
        VArr [obj [("$switch",
                    obj [("branches",
                          VArr [obj [("case",
                                      obj [("$eq",
                                            VArr [obj [("$type", v)];
                                                  VStr "date"])]);
                                     ("then",
                                      obj [("$floor",
                                            obj [("$divide",
                                                  VArr [obj [("$toLong", v)];
                                                        int 1000])])])]]);
                         ("default", obj [("$toDouble", v)])])];
              int 0])].

(** The logical and bitwise operators, on the type of the expression
    under evaluation and the lowered arguments. *)
Definition lowerAnd (b : Builder) (type : value) (args : list value)
  : value :=
  if type_in type Field.boolean then obj [("$and", VArr args)]
  else if 7 <=? version b then obj [("$bitAnd", VArr args)]
  else if type_in type Field.number then function_call AndNumber args
  else to_long (function_call AndBigInt (map to_string_arg args)).

Definition lowerOr (b : Builder) (type : value) (args : list value)
  : value :=
  if type_in type Field.boolean then obj [("$or", VArr args)]
  else if 7 <=? version b then obj [("$bitOr", VArr args)]
  else if type_in type Field.number then function_call OrNumber args
  else to_long (function_call OrBigInt (map to_string_arg args)).

Definition lowerNot (b : Builder) (type : value) (arg : value) : value :=
  if type_in type Field.boolean then obj [("$not", arg)]
  else if 7 <=? version b then obj [("$bitNot", arg)]
  else if type_in type Field.number then function_call NotNumber [arg]
  else to_long (function_call NotBigInt [to_string_arg arg]).

(** [xs.reduce((prev, curr) => ({ $ne: [prev, curr] }))], without an
    initial value. *)
Definition reduceNe (xs : list value) : result value :=
  match xs with
  | [] => Throw (TypeError "Reduce of empty array with no initial value")
  | x :: xs' =>
      Ok (fold_left (fun prev curr => obj [("$ne", VArr [prev; curr])])
                    xs' x)
  end.

Definition lowerXor (b : Builder) (type : value) (args : list value)
  : result value :=
  if type_in type Field.boolean then reduceNe args
  else if 7 <=? version b then Ok (obj [("$bitXor", VArr args)])
  else if type_in type Field.number then Ok (function_call XorNumber args)
  else Ok (to_long (function_call XorBigInt (map to_string_arg args))).

(** [Type.fromTerm(this.evalExpr, Type.Boolean)]; [fromTerm] takes one
    argument. *)
Definition exprType : M value :=
  b <~ get_builder ;; lift (Type_.fromTerm (evalExpr b)).

(** [arg.map(val => this.eval(val, group))] on an operand. *)
Definition mapArg (ev : value -> M value) (arg : value) : M (list value) :=
  match arg with
  | VArr xs => mapM ev xs
  | _ => _ <~ lift (array_items arg) ;; mthrow Unsupported
  end.

(** [transformAggr(expr)] after the recursive call: strings are column
    names, objects are unravelled. *)
Definition finishAggr (e : value) : value :=
  if typeof_object e then unravel e else e.

(** What [eval] does with the first aggregate operator it finds, given
    the key [type], the fresh [key] and the transformed operand. *)
Definition aggregate (type key : string) (v : value) : M value :=
  _ <~ update (set_aggrDefault (int 0)) ;;
  if String.eqb type "$count" then
    _ <~ set_group key (obj [("$addToSet", v)]) ;;
    mret (obj [("$size", VStr ("$" ++ key)%string)])
  else if String.eqb type "$length" then
    _ <~ set_group key (obj [("$push", v)]) ;;
    mret (obj [("$size", VStr ("$" ++ key)%string)])
  else if String.eqb type "$array" then
    _ <~ update (set_aggrDefault (VArr [])) ;;
    _ <~ set_group key (obj [("$push", v)]) ;;
    mret (VStr ("$" ++ key)%string)
  else
    _ <~ set_group key (obj [(type, v)]) ;;
    mret (VStr ("$" ++ key)%string).

(** [transformAggr(expr)] over a given [transformEvalExpr]. *)
Definition transformAggrWith (transform : value -> bool -> M value)
           (e : value) : M value :=
  match e with
  | VNum _ | VBool _ | VDate _ => mret e
  | VStr s =>
      b <~ get_builder ;;
      _ <~ update (push_walked s) ;;
      mret (VStr (recursivePrefix b ++ s)%string)
  | _ => e' <~ transform e false ;; mret (finishAggr e')
  end.

(** [eval(expr, group)] over a given [transformEvalExpr]; [g] tells
    whether a [group] is given. *)
Definition evalWith (transform : value -> bool -> M value)
           (e : value) (g : bool) : M value :=
  if Query.isComparable e || isNullable e || is_object_id e then mret e
  else if g then
    match e with
    | VObj _ members =>
        (fix types (ts : list string) : M value :=
           match ts with
           | [] => transform e g
           | type :: ts' =>
               (fix find (ms : entries) : M value :=
                  match ms with
                  | [] => types ts'
                  | (k, operand) :: ms' =>
                      if String.eqb type k then
                        if truthy operand then
                          key <~ createKey ;;
                          v <~ transformAggrWith transform operand ;;
                          aggregate type key v
                        else types ts'
                      else find ms'
                  end) members
           end) aggrKeys
    | _ => transform e g
    end
  else transform e g.

(** [transformEvalExpr(expr, group)].  The local function [ev] is
    [eval], and [operator key arg] is [this.evalOperators[key](arg,
    group)]. *)
Fixpoint transformEvalExpr (expr : value) (g : bool) {struct expr}
  : M value :=
  let ev := evalWith transformEvalExpr in
  let operator (key : string) (arg : value) : M value :=
    if String.eqb key "$" then evalRef arg
    else if String.eqb key "$select" then
      xs <~ mapArg (fun x => ev x g) arg ;; mret (VArr xs)
    else if String.eqb key "$if" then
      xs <~ mapArg (fun x => ev x g) arg ;; mret (obj [("$cond", VArr xs)])
    else if String.eqb key "$and" then
      type <~ exprType ;;
      b <~ get_builder ;;
      xs <~ mapArg (fun x => ev x g) arg ;;
      mret (lowerAnd b type xs)
    else if String.eqb key "$or" then
      type <~ exprType ;;
      b <~ get_builder ;;
      xs <~ mapArg (fun x => ev x g) arg ;;
      mret (lowerOr b type xs)
    else if String.eqb key "$not" then
      type <~ exprType ;;
      b <~ get_builder ;;
      x <~ ev arg g ;;
      mret (lowerNot b type x)
    else if String.eqb key "$xor" then
      type <~ exprType ;;
      b <~ get_builder ;;
      xs <~ mapArg (fun x => ev x g) arg ;;
      lift (lowerXor b type xs)
    else if String.eqb key "$object" then
      match arg with
      | VObj _ members =>
          ms <~ mapValuesM (fun x => transformEvalExpr x false) members ;;
          mret (obj ms)
      | VArr xs =>
          ys <~ mapM (fun x => transformEvalExpr x false) xs ;;
          mret (obj (index_entries 0 ys))
      | VUndefined | VNull =>
          mthrow (TypeError "Cannot convert undefined or null to object")
      | VStr _ => mthrow Unsupported
      | _ => mret (obj [])
      end
    else if String.eqb key "$regex" then
      match arg with
      | VArr xs =>
          match xs with
          | [] =>
              mret (obj [("$regexMatch",
                          obj [("input", VUndefined);
                               ("regex", VUndefined)])])
          | [v] =>
              i <~ ev v g ;;
              mret (obj [("$regexMatch",
                          obj [("input", i); ("regex", VUndefined)])])
          | v :: r :: rest =>
              i <~ ev v g ;;
              r' <~ ev r g ;;
              let flags := match rest with f :: _ => f | [] => VUndefined end
              in
              mret (obj [("$regexMatch",
                          obj ([("input", i); ("regex", r')]
                               ++ (if truthy flags then [("options", flags)]
                                   else [])))])
          end
      | _ => _ <~ lift (array_items arg) ;; mthrow Unsupported
      end
    else if String.eqb key "$length" then
      x <~ ev arg g ;; mret (obj [("$size", x)])
    else if String.eqb key "$nin" then
      xs <~ mapArg (fun x => ev x g) arg ;;
      mret (obj [("$not", obj [("$in", VArr xs)])])
    else if String.eqb key "$modulo" then
      xs <~ mapArg (fun x => ev x g) arg ;; mret (obj [("$mod", VArr xs)])
    else if String.eqb key "$log" then
      match arg with
      | VArr xs =>
          match xs with
          | [] => mret (obj [("$ln", VUndefined)])
          | [l] => l' <~ ev l g ;; mret (obj [("$ln", l')])
          | l :: r :: _ =>
              if isNullable r then
                l' <~ ev l g ;; mret (obj [("$ln", l')])
              else
                l' <~ ev l g ;;
                r' <~ ev r g ;;
                mret (obj [("$log", VArr [l'; r'])])
          end
      | _ => _ <~ lift (array_items arg) ;; mthrow Unsupported
      end
    else if String.eqb key "$power" then
      xs <~ mapArg (fun x => ev x g) arg ;; mret (obj [("$pow", VArr xs)])
    else if String.eqb key "$random" then
      mret (obj [("$rand", obj [])])
    else if String.eqb key "$literal" then
      match arg with
      | VArr xs =>
          let v := match xs with v :: _ => v | [] => VUndefined end in
          let type := match xs with _ :: t :: _ => t | _ => VUndefined end in
          ty <~ lift (if truthy type then Type_.fromField type
                      else Ok VUndefined) ;;
          d <~ lift (dump v ty) ;;
          mret (obj [("$literal", d)])
      | _ => _ <~ lift (array_items arg) ;; mthrow Unsupported
      end
    else if String.eqb key "$number" then
      x <~ ev arg g ;; mret (numberOf x)
    else if String.eqb key "$get" then
      match arg with
      | VArr xs =>
          match xs with
          | [] =>
              mret (obj [("$arrayElemAt", VArr [VUndefined; VUndefined])])
          | [x] =>
              x' <~ ev x g ;;
              mret (obj [("$arrayElemAt", VArr [x'; VUndefined])])
          | x :: k :: _ =>
              match k with
              | VStr path =>
                  x' <~ ev x g ;;
                  mret (fold_left
                          (fun res seg =>
                             obj [("$getField",
                                   obj [("input", res);
                                        ("field", VStr seg)])])
                          (split dot path) x')
              | _ =>
                  x' <~ ev x g ;;
                  k' <~ ev k g ;;
                  mret (obj [("$arrayElemAt", VArr [x'; k'])])
              end
          end
      | _ => _ <~ lift (array_items arg) ;; mthrow Unsupported
      end
    else evalExec arg in
  match expr with
  | VUndefined | VNull =>
      mthrow (TypeError "Cannot convert undefined or null to object")
  | VObj _ [] | VArr [] => mret (obj [("$literal", expr)])
  | VObj _ members =>
      (fix loop (ms : entries) : M value :=
         match ms with
         | [] => mret expr
         | (key, arg) :: ms' =>
             if string_in key evalOperatorKeys then
               _ <~ update (set_evalExpr expr) ;;
               operator key arg
             else if startsWith key "$" && evalStatic (slice_from 1 key) then
               r <~ mapValuesM
                      (fun v =>
                         match v with
                         | VArr xs =>
                             ys <~ mapM (fun x => ev x g) xs ;; mret (VArr ys)
                         | _ => ev v g
                         end) members ;;
               mret (obj r)
             else loop ms'
         end) members
  | VArr xs => ys <~ mapM (fun x => ev x g) xs ;; mret (VArr ys)
  | VStr s => if String.eqb s "" then mret (obj [("$literal", expr)])
              else mret expr
  | _ => mret (obj [("$literal", expr)])
  end.

(** [eval(expr, group)]. *)
Definition eval : value -> bool -> M value := evalWith transformEvalExpr.

(** [transformAggr(expr)]. *)
Definition transformAggr : value -> M value :=
  transformAggrWith transformEvalExpr.

(** [flushLookups()]. *)
Definition flushLookups : M (list value) :=
  b <~ get_builder ;;
  _ <~ update (set_lookups []) ;;
  mret (lookups b).

(** [(filter.$and ||= []).push(...additional)]. *)
Definition push_and (filter : entries) (additional : list value)
  : result entries :=
  match lookup "$and" filter with
  | Some (VArr xs) => Ok (obj_set filter "$and" (VArr (xs ++ additional)))
  | Some x =>
      if truthy x then Throw Unsupported
      else Ok (obj_set filter "$and" (VArr additional))
  | None => Ok (obj_set filter "$and" (VArr additional))
  end.

(** The loop over the flattened field query in [query]: [None] when the
    method returns [undefined]. *)
Fixpoint queryFields (fieldType : string -> value) (b : Builder)
         (flat : entries) (filter : entries) (additional : list value)
  : result (option (entries * list value)) :=
  match flat with
  | [] => Ok (Some (filter, additional))
  | (key, v) :: flat' =>
      let actualKey := getActualKey b key None in
      r <- transformFieldQuery v actualKey additional (fieldType key) ;;
      match fst r with
      | VBool false => Ok None
      | VBool true => queryFields fieldType b flat' filter (snd r)
      | q => filter' <- assign filter actualKey q ;;
             queryFields fieldType b flat' filter' (snd r)
      end
  end.

(** [query(sel, query)]: the filter, or [undefined] when no row can
    match.  [fieldType key] is [sel.model.fields[key]?.type]. *)
Fixpoint query (fieldType : string -> value) (q : value) {struct q}
  : M value :=
  match q with
  | VObj _ members =>
      (fix loop (ms : entries) (filter : entries) (additional : list value)
         : M value :=
         match ms with
         | [] =>
             match additional with
             | [] => mret (obj filter)
             | _ => f <~ lift (push_and filter additional) ;; mret (obj f)
             end
         | (key, v) :: ms' =>
             if String.eqb key "$and" || String.eqb key "$or" then
               match v with
               | VArr [] =>
                   if String.eqb key "$or" then mret VUndefined
                   else loop ms' filter additional
               | VArr qs =>
                   fs <~ mapM (fun x => query fieldType x) qs ;;
                   filter' <~ lift (assign filter key (VArr fs)) ;;
                   loop ms' filter' additional
               | VUndefined | VNull =>
                   mthrow (TypeError
                             "Cannot read properties of undefined or null")
               | VStr s =>
                   if String.eqb s "" then
                     if String.eqb key "$or" then mret VUndefined
                     else loop ms' filter additional
                   else mthrow (TypeError "value.map is not a function")
               | VObj _ vs =>
                   if has_key "length" vs then mthrow Unsupported
                   else if String.eqb key "$or" then mret VUndefined
                   else loop ms' filter additional
               | VFunc _ => mthrow Unsupported
               | _ =>
                   if String.eqb key "$or" then mret VUndefined
                   else loop ms' filter additional
               end
             else if String.eqb key "$not" then
               f <~ query fieldType v ;;
               if truthy f then
                 filter' <~ lift (assign filter "$nor" (VArr [f])) ;;
                 loop ms' filter' additional
               else loop ms' filter additional
             else if String.eqb key "$expr" then
               e <~ eval v false ;;
               loop ms' filter (additional ++ [obj [("$expr", e)]])
             else
               let ignore := fun x => isFlat x || is_object_id x in
               let flat :=
                 if ignore v then [(key, v)]
                 else flatten v (key ++ ".")%string ignore in
               b <~ get_builder ;;
               r <~ lift (queryFields fieldType b flat filter additional) ;;
               match r with
               | None => mret VUndefined
               | Some (filter', additional') =>
                   loop ms' filter' additional'
               end
         end) members [] []
  | VArr xs =>
      (* the keys of an array are its indices: field queries only *)
      (fix loop (i : nat) (xs : list value) (filter : entries)
            (additional : list value) : M value :=
         match xs with
         | [] =>
             match additional with
             | [] => mret (obj filter)
             | _ => f <~ lift (push_and filter additional) ;; mret (obj f)
             end
         | v :: xs' =>
             let key := nat_to_string i in
             let ignore := fun x => isFlat x || is_object_id x in
             let flat :=
               if ignore v then [(key, v)]
               else flatten v (key ++ ".")%string ignore in
             b <~ get_builder ;;
             r <~ lift (queryFields fieldType b flat filter additional) ;;
             match r with
             | None => mret VUndefined
             | Some (filter', additional') => loop (S i) xs' filter' additional'
             end
         end) 0%nat xs [] []
  | VStr s => if String.eqb s "" then mret (obj []) else mthrow Unsupported
  | _ => mret (obj [])
  end.

(** The step [// where] of [select]: [false] when [select] returns
    [undefined], so that the selection is not run at all; otherwise a
    [$match] stage is pushed when the filter has a member. *)
Definition selectWhere (fieldType : string -> value) (q : value) : M bool :=
  filter <~ query fieldType q ;;
  if negb (truthy filter) then mret false
  else
    match filter with
    | VObj _ [] => mret true
    | _ =>
        ls <~ flushLookups ;;
        _ <~ update (push_pipeline (ls ++ [obj [("$match", filter)]])) ;;
        mret true
    end.

(** [toUpdateExpr(value, type, root)]. *)
Fixpoint toUpdateExpr (v : value) (type : value) (root : bool) {struct v}
  : M value :=
  if isNullable v then mret v
  else if isEvalExpr v then
    if root then eval v false else lift (dump v type)
  else if (Type_.type_is type "string" || negb (truthy type))
          && match v with VStr s => startsWith s "$" | _ => false end then
    mret (obj [("$literal", v)])
  else if (Type_.type_is type "json" || negb (truthy type))
          && typeof_object v
          && match v with
             | VObj _ [] | VArr [] => true
             | VObj _ _ | VArr _ => false
             | _ => true
             end then
    mret (obj [("$literal", v)])
  else if negb (truthy type) then lift (dump v type)
  else
    match v with
    | VArr xs =>
        if Type_.isArray type then
          ys <~ mapM (fun x => toUpdateExpr x (Type_.member type "inner")
                                            false) xs ;;
          mret (VArr ys)
        else if truthy (Type_.member type "inner") then
          ys <~ (fix each (i : nat) (xs : list value) : M entries :=
                   match xs with
                   | [] => mret []
                   | x :: xs' =>
                       t <~ lift (Type_.getInner
                                    type (Some (nat_to_string i))) ;;
                       y <~ toUpdateExpr x t false ;;
                       ys <~ each (S i) xs' ;;
                       mret ((nat_to_string i, y) :: ys)
                   end) 0%nat xs ;;
          mret (obj ys)
        else lift (dump v type)
    | VObj _ members =>
        if truthy (Type_.member type "inner") then
          ys <~ (fix each (ms : entries) : M entries :=
                   match ms with
                   | [] => mret []
                   | (k, x) :: ms' =>
                       t <~ lift (Type_.getInner type (Some k)) ;;
                       y <~ toUpdateExpr x t false ;;
                       ys <~ each ms' ;;
                       mret ((k, y) :: ys)
                   end) members ;;
          mret (obj ys)
        else lift (dump v type)
    | VStr _ =>
        if truthy (Type_.member type "inner") then mthrow Unsupported
        else lift (dump v type)
    | _ =>
        if truthy (Type_.member type "inner") then mret (obj [])
        else lift (dump v type)
    end.
End Eval.


(** ** The function bodies, run *)

Section Bodies.
Context `{Host}.

(** [args.reduce(f)] without an initial value. *)
Definition reduce1 (f : value -> value -> result value) (args : list value)
  : result value :=
  match args with
  | [] => Throw (TypeError "Reduce of empty array with no initial value")
  | x :: xs => fold_left (fun acc curr => prev <- acc ;; f prev curr) xs (Ok x)
  end.

Definition bit_or (a b : value) : result Z :=
  x <- Query.to_int32 a ;; y <- Query.to_int32 b ;; ret (Z.lor x y).

Definition bit_xor (a b : value) : result Z :=
  x <- Query.to_int32 a ;; y <- Query.to_int32 b ;; ret (Z.lxor x y).

(** [BigInt(v ?? 0)] on a decimal numeral or an integer. *)
Definition toBigInt (v : value) : result Z :=
  match v with
  | VUndefined | VNull => Ok 0
  | VNum (Int z) => Ok z
  | VNum NaN => Throw (Error "RangeError: not an integer")
  | VBool b => Ok (if b then 1 else 0)
  | VStr s =>
      match string_to_Z s with
      | Some z => Ok z
      | None => Throw Unsupported
      end
  | _ => Throw Unsupported
  end.

(** [String(BigInt(prev ?? 0) op BigInt(curr ?? 0))]. *)
Definition bigint_op (op : Z -> Z -> Z) (prev curr : value) : result value :=
  x <- toBigInt prev ;; y <- toBigInt curr ;;
  ret (VStr (Z_to_string (op x y))).

(** What a function body returns on its arguments. *)
Definition run (f : FunctionBody) (args : list value) : result value :=
  match f with
  | AndNumber =>
      reduce1 (fun p c => r <- Query.bit_and p c ;; ret (int r)) args
  | OrNumber => reduce1 (fun p c => r <- bit_or p c ;; ret (int r)) args
  | XorNumber => reduce1 (fun p c => r <- bit_xor p c ;; ret (int r)) args
  | AndBigInt => reduce1 (bigint_op Z.land) args
  | OrBigInt => reduce1 (bigint_op Z.lor) args
  | XorBigInt => reduce1 (bigint_op Z.lxor) args
  | NotNumber =>
      x <- Query.to_int32 (hd VUndefined args) ;; ret (int (Z.lnot x))
  | NotBigInt =>
      x <- toBigInt (hd VUndefined args) ;;
      ret (VStr (Z_to_string (Z.lnot x)))
  end.
End Bodies.

End Mongo.

(* ================================================================== *)
(** * The server side of the lowered [$and] *)
(* ================================================================== *)

Module Server.

Import Mongo.





Section Aggregation.
Context `{Host}.

End Aggregation.

End Server.

(* ================================================================== *)
(** * The vocabulary of the specification *)
(* ================================================================== *)

Module Spec.

(** ** Field shorthands (Section 4.2) *)

(** A type name: one or more word characters. *)
Definition word (s : string) : Prop :=
  s <> "" /\
  forall c, In c (list_ascii_of_string s) -> Field.is_word c = true.

(** An argument list: one or more characters, none a line terminator. *)
Definition arguments (s : string) : Prop :=
  s <> "" /\
  forall c, In c (list_ascii_of_string s) ->
            Field.is_line_terminator c = false.

(** The grammar [TYPE | TYPE(args)] of a shorthand, with the type name
    and the text between the parentheses.  [TYPE(arg)] and
    [TYPE(precision,scale)] are its second form: the text is cut at the
    commas afterwards. *)
Inductive grammar : string -> string -> option string -> Prop :=
| bare ty : word ty -> grammar ty ty None
| applied ty args :
    word ty -> arguments args ->
    grammar (ty ++ "(" ++ args ++ ")")%string ty (Some args).


(** ** Paths that cannot be traversed *)

(** [walk row segs]: the members read one after the other from [row]. *)
Definition walk (row : value) (segs : list string) : result value :=
  fold_left (fun r k => r' <- r ;; get_prop r' k) segs (Ok row).

(** A dotted key cannot be traversed in a row when some segment before
    the last is missing or null: what precedes a segment of the key leads to
    [undefined] or [null]. *)
Definition untraversable (row : value) (key : string) : Prop :=
  exists before segment after x,
    split dot key = before ++ segment :: after
    /\ walk row before = Ok x
    /\ isNullable x = true.

(** The keys of a query that are combinators, not fields. *)
Definition logical (key : string) : bool :=
  string_in key ["$and"; "$or"; "$not"; "$expr"].

(** ** The rows of a Mongo selection *)

(** Modelled from the spec: the driver ([index.ts]) is not under [src/].
    It runs the pipeline of the builder that [select] returns and returns
    no row when [select] returns [undefined]; a selection to whose pipeline
    the query adds no stage returns every row.  [continued] is what
    [selectWhere] returns and [stages] what it added to the pipeline; the
    meaning of a [$match] stage is the server's and is left out. *)
Definition selectedRows (continued : bool) (stages : list value)
           (rows : list value) : option (list value) :=
  if negb continued then Some []
  else match stages with
       | [] => Some rows
       | _ => None
       end.

(** ** Bitwise conjunction (Sections 4.4 and 8) *)

(** A signed 32-bit integer. *)
Definition in_int32 (z : Z) : Prop := - 2147483648 <= z < 2147483648.



(** ** Empty values (Section 6) *)

(** An empty object or an empty array. *)
Definition empty (v : value) : Prop :=
  (exists kt, v = VObj kt []) \/ v = VArr [].

(** ** Restriction to the declared fields (Sections 4.2 and 8) *)

Definition has_dot (k : string) : bool :=
  existsb (Ascii.eqb dot) (list_ascii_of_string k).

(** A key of a nested record: no dot in it, not an array index, and not
    the name of a member that every object inherits. *)
Definition plain_key (k : string) : bool :=
  negb (has_dot k)
  && match array_index k with Some _ => false | None => true end
  && negb (inherited_key k).


Section Restriction.
Context `{Host} `{Core}.

(** Whether [key] is a declared field of the model. *)
Definition declared (m : Model.t) (key : string) : bool :=
  string_in key (keys (Model.fields m)).

(** Whether the member [x] at [key] belongs to the restriction as it is:
    a declared field, or a leaf below a declared field. *)
Definition kept (m : Model.t) (key : string) (x : value) : bool :=
  declared m key
  || Model.is_leaf x && Model.under_field (keys (Model.fields m)) key.

(** The members of a record that remain when it is restricted to the
    declared fields, the nesting kept: a member that is kept keeps its
    value, as [resolveValue] gives it; another leaf is dropped; another
    object is restricted in turn, and dropped when nothing of it
    remains. *)
Definition restrict_entries (m : Model.t) (prefix : string)
           (inside : value -> string -> result entries)
  : entries -> result entries :=
  fix go (es : entries) : result entries :=
    match es with
    | [] => Ok []
    | (k, x) :: es' =>
        let key := (prefix ++ k)%string in
        this <- (if kept m key x then
                   v <- Model.resolveValue m key x ;; ret [(k, v)]
                 else if Model.is_leaf x then Ok []
                 else
                   sub <- inside x (key ++ ".")%string ;;
                   ret (match sub with
                        | [] => []
                        | _ => [(k, obj sub)]
                        end)) ;;
        rest <- go es' ;;
        ret (this ++ rest)
    end.

Fixpoint restrict (m : Model.t) (v : value) (prefix : string) {struct v}
  : result entries :=
  match v with
  | VObj _ es => restrict_entries m prefix (restrict m) es
  | _ => Ok []
  end.

(** The restriction in the words of the specification: the members at
    declared fields (and the leaves below one) with the values they have
    in the record, the nesting kept. *)
Definition select_entries (m : Model.t) (prefix : string)
           (inside : value -> string -> entries) : entries -> entries :=
  fix go (es : entries) : entries :=
    match es with
    | [] => []
    | (k, x) :: es' =>
        let key := (prefix ++ k)%string in
        (if kept m key x then [(k, x)]
         else if Model.is_leaf x then []
         else match inside x (key ++ ".")%string with
              | [] => []
              | sub => [(k, obj sub)]
              end)
        ++ go es'
    end.

Fixpoint restricted (m : Model.t) (v : value) (prefix : string) {struct v}
  : entries :=
  match v with
  | VObj _ es => select_entries m prefix (restricted m) es
  | _ => []
  end.



(** The object with the single member [v] at the end of a path. *)
Fixpoint nest (segs : list string) (last : string) (v : value) : value :=
  match segs with
  | [] => obj [(last, v)]
  | s :: segs' => obj [(s, nest segs' last v)]
  end.

End Restriction.

(** ** Seeding (Sections 4.2 and 8) *)

(** [seeds pkeys fs k v]: among the declared fields [fs], [k] is one that
    is not deprecated, is not part of the primary key [pkeys] and has a
    non-null initial value, of which [v] is the deep copy. *)
Definition seeds (pkeys : list string) (fs : dict Field.t) (k : string)
           (v : value) : Prop :=
  exists f i,
    lookup k fs = Some f
    /\ Field.deprecated f <> Some true
    /\ ~ In k pkeys
    /\ Field.initial f = Some i
    /\ isNullable i = false
    /\ v = clone i.

End Spec.

(* ================================================================== *)
(** * A concrete environment *)
(* ================================================================== *)

Module Sample.

Import Mongo.

(** ToNumber on the decimal numerals and the empty string. *)
Definition decimal (s : string) : number :=
  if String.eqb s "" then Int 0
  else match string_to_Z s with
       | Some z => Int z
       | None => NaN
       end.

(** A host one hour east of Greenwich in which no two objects are the
    same and no regular expression is run. *)
Definition host : Host :=
  {| string_to_number := decimal;
     tza := 3600000;
     same_object := fun _ _ => false;
     regexp_test := fun _ _ _ => Throw Unsupported |}.

(** Evaluation expressions are the objects with a key that starts with a
    dollar sign. *)
Definition core : Core :=
  {| isEvalExpr :=
       fun v => match v with
                | VObj _ es => existsb (fun e => startsWith (fst e) "$") es
                | _ => false
                end;
     executeEval := fun _ _ => Throw Unsupported;
     makeRegExp :=
       fun v => match v with
                | VRegExp s f => Ok (s, f)
                | VStr s => Ok (s, "")
                | _ => Throw Unsupported
                end |}.

Definition deps : Deps :=
  {| newObjectId := fun s => Ok (VObjectId s);
     isFlat := fun _ => true;
     flatten := fun _ _ _ => [];
     unravel := fun v => v;
     isAggrExpr := fun _ => false;
     evalStatic := fun _ => false;
     convert := fun v _ => Ok v;
     createSubquery := fun _ => None |}.

(** A model with a time of day, a json column and a nested field. *)
Definition events : Model.t :=
  fst (@Model.extend host (Model.new "events")
         [("id", Field.Shorthand "unsigned");
          ("at", Field.Shorthand "time");
          ("meta", Field.Shorthand "json");
          ("a.b", Field.Shorthand "integer")]
         Model.no_config).





End Sample.

(* ================================================================== *)
(** * The trace of [format], for the proofs *)
(* ================================================================== *)

Module Trace.

Import Spec.

(** The prefix that [format] has built when it is at the path [segs]:
    each segment followed by a dot. *)
Fixpoint prefix_of (segs : list string) : string :=
  match segs with
  | [] => ""
  | s :: segs' => (s ++ "." ++ prefix_of segs')%string
  end.




Section Walk.
Context `{Host} `{Core}.




End Walk.

End Trace.

(* ================================================================== *)
(** * The reducers and the operator table of the evaluator *)
(* ================================================================== *)

Module Operators.

(** [qs.reduce((prev, q) => prev || f(q), prev0)], the reducer of [$or]
    in [queryOperators] and in [executeQuery]: [f] is not called once
    [prev] is true. *)
Definition reduceOr (f : value -> result bool)
  : list value -> bool -> result bool :=
  fix go (qs : list value) (prev : bool) : result bool :=
    match qs with
    | [] => Ok prev
    | q :: qs' => if prev then go qs' true else r <- f q ;; go qs' r
    end.

(** [qs.reduce((prev, q) => prev && f(q), prev0)], the reducer of
    [$and]: [f] is not called once [prev] is false. *)
Definition reduceAnd (f : value -> result bool)
  : list value -> bool -> result bool :=
  fix go (qs : list value) (prev : bool) : result bool :=
    match qs with
    | [] => Ok prev
    | q :: qs' => if prev then r <- f q ;; go qs' r else go qs' false
    end.


(** [items.some(f)], the test of [$el]: [f] is not called after an item
    that satisfies it. *)
Definition someOf (f : value -> result bool) : list value -> result bool :=
  fix go (items : list value) : result bool :=
    match items with
    | [] => Ok false
    | item :: items' => b <- f item ;; if b then Ok true else go items'
    end.

(** One list of filters continues another: nothing is dropped or
    changed, conditions are only added at the end. *)
Definition grows (f f' : list value) : Prop := exists extra, f' = f ++ extra.

(** The member of a row at a key, [undefined] when the row has none. *)
Definition cell (es : entries) (k : string) : value :=
  match lookup k es with
  | Some x => x
  | None => VUndefined
  end.

End Operators.

(* ================================================================== *)
(** * Folds of the bitwise operators *)
(* ================================================================== *)

Module Bits.

(** [zs.reduce(op)] on the integers of a list that is not empty. *)
Definition reduceZ (op : Z -> Z -> Z) (zs : list Z) : Z :=
  fold_left op (tl zs) (hd 0 zs).

(** The decimal numeral of an integer, as a value. *)
Definition numeral (z : Z) : value := VStr (Z_to_string z).

End Bits.

(* ================================================================== *)
(** * The seed of a created row *)
(* ================================================================== *)

Module Seed.

(** What the loop of [create] assigns at a key: the deep copy of the
    initial value of the field there, when the field is not deprecated,
    is not part of the primary key and has an initial value that is not
    [null] or [undefined]. *)
Definition seeded (m : Model.t) (k : string) : option value :=
  match lookup k (Model.fields m) with
  | Some f =>
      if match Field.deprecated f with Some true => true | _ => false end
      then None
      else if string_in k (makeArray (Model.primary m)) then None
      else match Field.initial f with
           | Some i => if isNullable i then None else Some (clone i)
           | None => None
           end
  | None => None
  end.

End Seed.

(* ================================================================== *)
(** * A second sample model *)
(* ================================================================== *)

Module Rows.

(** A unique index on [name]. *)
Definition named : Model.Config :=
  Model.mkConfig None None None (Some [One "name"]) None.

Definition columns : dict Field.source :=
  [("id", Field.Shorthand "unsigned");
   ("name", Field.Shorthand "string(32)");
   ("tags", Field.Shorthand "list")].

(** A model of users, with flat field names and no time of day. *)
Definition users : Model.t :=
  fst (@Model.extend Sample.host (Model.new "user") columns named).

End Rows.

(* ================================================================== *)
(** * Properties *)
(* ================================================================== *)

(** ** Property lists *)

Section DictFacts.
Variable A : Type.
Implicit Types (es : dict A) (k : string) (v : A).

Lemma lookup_None_keys es k : lookup k es = None <-> ~ In k (keys es).
Proof.
  induction es as [|[k' v'] es IH]; simpl.
  - tauto.
  - destruct (String.eqb_spec k k') as [->|Hne].
    + split; [discriminate|]. intros Hn. exfalso. apply Hn. now left.
    + rewrite IH. split.
      * intros Hn [Heq|Hin]; [congruence|tauto].
      * tauto.
Qed.

Lemma lookup_Some_keys es k v : lookup k es = Some v -> In k (keys es).
Proof.
  intros Hl. destruct (in_dec string_dec k (keys es)) as [Hin|Hn]; auto.
  apply lookup_None_keys in Hn. congruence.
Qed.

Lemma lookup_app es es' k :
  lookup k (es ++ es') =
  match lookup k es with Some v => Some v | None => lookup k es' end.
Proof.
  induction es as [|[k' v'] es IH]; simpl; auto.
  destruct (String.eqb k k'); auto.
Qed.

Lemma lookup_replace es k k' v :
  lookup k (replace k' v es) =
  if String.eqb k k' then
    match lookup k' es with Some _ => Some v | None => None end
  else lookup k es.
Proof.
  induction es as [|[k0 v0] es IH]; simpl.
  - now destruct (String.eqb k k').
  - destruct (String.eqb_spec k' k0) as [->|Hne]; simpl.
    + destruct (String.eqb_spec k k0); auto.
    + rewrite IH. destruct (String.eqb_spec k k') as [->|Hne'].
      * apply String.eqb_neq in Hne. now rewrite Hne.
      * reflexivity.
Qed.

Lemma lookup_insert_index es i k k' v :
  lookup k' es = None ->
  lookup k (insert_index i k' v es) =
  if String.eqb k k' then Some v else lookup k es.
Proof.
  induction es as [|[k0 v0] es IH]; simpl; intros Hn.
  - now destruct (String.eqb k k').
  - destruct (String.eqb_spec k' k0) as [->|Hne]; [discriminate|].
    destruct (array_index k0) as [j|].
    + destruct (j <? i); simpl.
      * rewrite IH by assumption.
        destruct (String.eqb_spec k k') as [->|Hne'].
        -- apply String.eqb_neq in Hne. now rewrite Hne.
        -- reflexivity.
      * now destruct (String.eqb k k').
    + simpl. now destruct (String.eqb k k').
Qed.

(** Reading after a write. *)
Lemma lookup_obj_set es k k' v :
  lookup k (obj_set es k' v) = if String.eqb k k' then Some v else lookup k es.
Proof.
  unfold obj_set, has_key.
  destruct (lookup k' es) as [x|] eqn:Hl.
  - rewrite lookup_replace, Hl. reflexivity.
  - destruct (array_index k') as [i|].
    + now apply lookup_insert_index.
    + rewrite lookup_app. simpl.
      destruct (String.eqb_spec k k') as [->|Hne].
      * now rewrite Hl.
      * now destruct (lookup k es).
Qed.

Lemma keys_obj_set es k k' v :
  In k (keys (obj_set es k' v)) <-> k = k' \/ In k (keys es).
Proof.
  destruct (in_dec string_dec k (keys (obj_set es k' v))) as [Hin|Hn].
  - split; [|auto]. intros _.
    destruct (String.eqb_spec k k') as [->|Hne]; [now left|right].
    destruct (in_dec string_dec k (keys es)) as [?|Hn]; auto.
    apply lookup_None_keys in Hn.
    assert (lookup k (obj_set es k' v) = None) as Hl.
    { rewrite lookup_obj_set. apply String.eqb_neq in Hne. now rewrite Hne. }
    apply lookup_None_keys in Hl. tauto.
  - split; [tauto|]. intros Hor. exfalso.
    apply lookup_None_keys in Hn. rewrite lookup_obj_set in Hn.
    destruct Hor as [->|Hin].
    + rewrite String.eqb_refl in Hn. discriminate.
    + destruct (String.eqb k k'); [discriminate|].
      apply lookup_None_keys in Hn. tauto.
Qed.

End DictFacts.

(** ** Field shorthands *)

Section FieldShorthand.
Import Field.
Import Spec.

Lemma span_word_spec s w rest :
  span_word s = (w, rest) ->
  s = (w ++ rest)%string
  /\ (forall c, In c (list_ascii_of_string w) -> is_word c = true)
  /\ match rest with
     | EmptyString => True
     | String c _ => is_word c = false
     end.
Proof.
  revert w rest. induction s as [|c s IH]; simpl; intros w rest E.
  - inversion E; subst. simpl. repeat split; tauto.
  - destruct (is_word c) eqn:Hc.
    + destruct (span_word s) as [w' r'] eqn:Es. inversion E; subst.
      destruct (IH _ _ eq_refl) as (-> & Hw & Hr).
      simpl. repeat split; auto.
      intros c' [<-|Hin]; auto.
    + inversion E; subst. simpl. repeat split; auto; tauto.
Qed.

Lemma span_word_app w rest :
  (forall c, In c (list_ascii_of_string w) -> is_word c = true) ->
  match rest with
  | EmptyString => True
  | String c _ => is_word c = false
  end ->
  span_word (w ++ rest) = (w, rest).
Proof.
  induction w as [|c w IH]; simpl; intros Hw Hr.
  - destruct rest; simpl; auto. now rewrite Hr.
  - rewrite (Hw c) by auto. rewrite IH; auto.
Qed.

Lemma group_body_spec s b :
  group_body s = Some b ->
  s = (b ++ ")")%string
  /\ forall c, In c (list_ascii_of_string b) -> is_line_terminator c = false.
Proof.
  revert b. induction s as [|c s IH]; simpl; intros b E; [discriminate|].
  destruct s as [|c' s'].
  - destruct (Ascii.eqb_spec c ")"%char); [|discriminate].
    inversion E; subst. simpl. split; [reflexivity|tauto].
  - destruct (is_line_terminator c) eqn:Hc; [discriminate|].
    destruct (group_body (String c' s')) as [b'|] eqn:Eb; [|discriminate].
    inversion E; subst.
    destruct (IH _ eq_refl) as (Hs & Hb).
    simpl. rewrite <- Hs. split; [reflexivity|].
    intros x [<-|Hin]; auto.
Qed.

Lemma group_body_app b :
  (forall c, In c (list_ascii_of_string b) -> is_line_terminator c = false) ->
  group_body (b ++ ")") = Some b.
Proof.
  induction b as [|c b IH]; simpl; intros Hb; [reflexivity|].
  rewrite (Hb c) by auto. rewrite IH by auto.
  destruct b; reflexivity.
Qed.

Lemma eqb_empty_false s : s <> "" -> String.eqb s "" = false.
Proof. intros Hs. now apply String.eqb_neq. Qed.

(** The regular expression matches the grammar, with the same
    captures. *)
Lemma regexp_exec_grammar s ty args :
  regexp_exec s = Some (ty, args) <-> grammar s ty args.
Proof.
  unfold regexp_exec. split.
  - destruct (span_word s) as [w rest] eqn:Es.
    destruct (span_word_spec _ Es) as (-> & Hw & Hr).
    destruct (String.eqb_spec w ""); [discriminate|].
    destruct rest as [|c body].
    + intros E; inversion E; subst.
      replace (ty ++ "")%string with ty.
      * constructor. split; assumption.
      * clear. induction ty; simpl; congruence.
    + destruct (Ascii.eqb_spec c "("%char); [subst c|discriminate].
      destruct (group_body body) as [b|] eqn:Eb; [|discriminate].
      destruct (String.eqb_spec b ""); [discriminate|].
      intros E; inversion E; subst.
      destruct (group_body_spec _ Eb) as (-> & Hb).
      apply (applied (ty := ty) (args := b)); split; assumption.
  - intros G. destruct G as [ty [Hne Hw]|ty a [Hne Hw] [Hne' Ha]].
    + replace ty with (ty ++ "")%string at 1
        by (clear; induction ty; simpl; congruence).
      rewrite span_word_app by (simpl; auto).
      now rewrite eqb_empty_false.
    + rewrite span_word_app; [|assumption|reflexivity].
      rewrite eqb_empty_false by assumption.
      simpl. rewrite group_body_app by assumption.
      now rewrite eqb_empty_false.
Qed.
Lemma grammar_functional s ty args ty' args' :
  grammar s ty args -> grammar s ty' args' -> ty = ty' /\ args = args'.
Proof.
  intros G G'. apply regexp_exec_grammar in G, G'.
  rewrite G in G'. now inversion G'.
Qed.








End FieldShorthand.

(** ** Time of day *)

Section TimeOfDay.
Context `{Host}.

Lemma div_mod_eq a b q r :
  0 <= r < b -> a = b * q + r -> a / b = q /\ a mod b = r.
Proof.
  intros Hr Ha. split.
  - symmetry. apply Z.div_unique with (r := r); auto.
  - symmetry. apply Z.mod_unique with (q := q); auto.
Qed.

(** The time of day that [MakeTime] rebuilds from the parts of [l], placed
    on day [d], has the parts of [l] and the day [d]. *)
Lemma time_of_day_parts (d l : Z) :
  let x := MakeDate d (MakeTime (HourFromTime l) (MinFromTime l)
                                (SecFromTime l) (msFromTime l)) in
  Day x = d
  /\ HourFromTime x = HourFromTime l
  /\ MinFromTime x = MinFromTime l
  /\ SecFromTime x = SecFromTime l
  /\ msFromTime x = msFromTime l.
Proof.
  unfold MakeDate, MakeTime, Day, HourFromTime, MinFromTime, SecFromTime,
    msFromTime, msPerDay, msPerHour, msPerMinute, msPerSecond.
  set (h := (l / 3600000) mod 24).
  set (m := (l / 60000) mod 60).
  set (s := (l / 1000) mod 60).
  set (ms := l mod 1000).
  assert (0 <= h < 24) by (apply Z.mod_pos_bound; lia).
  assert (0 <= m < 60) by (apply Z.mod_pos_bound; lia).
  assert (0 <= s < 60) by (apply Z.mod_pos_bound; lia).
  assert (0 <= ms < 1000) by (apply Z.mod_pos_bound; lia).
  cbv zeta.
  set (x := d * 86400000 + (h * 3600000 + m * 60000 + s * 1000 + ms)).
  destruct (@div_mod_eq x 86400000 d (h * 3600000 + m * 60000 + s * 1000 + ms))
    as [Hd _]; [lia|unfold x; lia|].
  destruct (@div_mod_eq x 3600000 (d * 24 + h) (m * 60000 + s * 1000 + ms))
    as [Hh _]; [lia|unfold x; lia|].
  destruct (@div_mod_eq x 60000 (d * 1440 + h * 60 + m) (s * 1000 + ms))
    as [Hm _]; [lia|unfold x; lia|].
  destruct (@div_mod_eq x 1000 (d * 86400 + h * 3600 + m * 60 + s) ms)
    as [Hs Hms]; [lia|unfold x; lia|].
  rewrite Hd, Hh, Hm, Hs, Hms.
  repeat split.
  - apply (@div_mod_eq (d * 24 + h) 24 d h); lia.
  - apply (@div_mod_eq (d * 1440 + h * 60 + m) 60 (d * 24 + h) m); lia.
  - apply (@div_mod_eq (d * 86400 + h * 3600 + m * 60 + s) 60
                       (d * 1440 + h * 60 + m) s); lia.
Qed.

(** C8. On a field of type [time], [resolveValue] turns a date into the
    date whose local day is that of [new Date(0)] and whose hours, minutes,
    seconds and milliseconds are those of the value; [null], [undefined]
    and the values of other fields are returned as they are. *)
Theorem resolveValue_time (m : Model.t) (key : string) (v : value) :
  (forall f t,
      lookup key (Model.fields m) = Some f -> Field.type f = "time" ->
      v = VDate t ->
      exists t',
        Model.resolveValue m key v = Ok (VDate t')
        /\ Day (LocalTime t') = Day (LocalTime 0)
        /\ getHours t' = getHours t
        /\ getMinutes t' = getMinutes t
        /\ getSeconds t' = getSeconds t
        /\ getMilliseconds t' = getMilliseconds t)
  /\ (isNullable v = true -> Model.resolveValue m key v = Ok v)
  /\ ((forall f, lookup key (Model.fields m) = Some f ->
                 Field.type f <> "time") ->
      Model.resolveValue m key v = Ok v).
Proof.
  split; [|split].
  - intros f t Hf Ht ->. unfold Model.resolveValue. simpl isNullable.
    rewrite Hf, Ht. simpl String.eqb.
    eexists. split; [reflexivity|].
    assert (forall x, LocalTime (UTC x) = x) as HLU
        by (intros; unfold LocalTime, UTC; lia).
    unfold getHours, getMinutes, getSeconds, getMilliseconds, setHours.
    rewrite !HLU.
    apply (time_of_day_parts (Day (LocalTime 0)) (LocalTime t)).
  - intros Hn. unfold Model.resolveValue. now rewrite Hn.
  - intros Hno. unfold Model.resolveValue.
    destruct (isNullable v); [reflexivity|].
    destruct (lookup key (Model.fields m)) as [f|] eqn:Hf; [|reflexivity].
    specialize (Hno f eq_refl). apply String.eqb_neq in Hno.
    now rewrite Hno.
Qed.

End TimeOfDay.

(** ** Registration *)

Section Registration.
Context `{Host}.
Import Model.





End Registration.

(** ** Creation *)

Section Creation.
Context `{Host} `{Core}.
Import Model.
Import Spec.

Lemma string_in_In k l : string_in k l = true <-> In k l.
Proof.
  induction l as [|x l IH]; simpl.
  - split; [discriminate|tauto].
  - rewrite orb_true_iff, IH. split.
    + intros [Heq|Hin]; [left; symmetry; now apply String.eqb_eq|now right].
    + intros [<-|Hin]; [left; apply String.eqb_refl|now right].
Qed.

Lemma string_in_not_In k l : string_in k l = false <-> ~ In k l.
Proof.
  rewrite <- string_in_In. destruct (string_in k l); split; congruence.
Qed.

Lemma assign_ok es k v :
  k <> "__proto__" -> assign es k v = Ok (obj_set es k v).
Proof.
  intros Hk. unfold assign. apply String.eqb_neq in Hk. now rewrite Hk.
Qed.

(** The seeding loop, from any object whose keys are not declared
    again. *)
Lemma create_loop_spec pkeys fs : forall acc,
  NoDup (keys fs) ->
  ~ In "__proto__" (keys fs) ->
  (forall k, In k (keys acc) -> ~ In k (keys fs)) ->
  exists seed,
    create_loop pkeys fs acc = Ok seed
    /\ forall k v,
        lookup k seed = Some v <->
        lookup k acc = Some v \/ seeds pkeys fs k v.
Proof.
  induction fs as [|[key f] fs IH]; intros acc Hnd Hproto Hdisj.
  - exists acc. split; [reflexivity|]. intros k v. split; [now left|].
    intros [Hl|(f & i & Hf & _)]; [assumption|discriminate].
  - simpl in Hnd, Hproto. inversion Hnd as [|? ? Hkey Hnd']; subst.
    assert (forall k v, seeds pkeys ((key, f) :: fs) k v <->
                        (k = key /\ seeds pkeys [(key, f)] k v)
                        \/ (k <> key /\ seeds pkeys fs k v)) as Hsplit.
    { intros k v. unfold seeds. simpl.
      destruct (String.eqb_spec k key) as [->|Hne].
      - split.
        + intros (f0 & i & Hf & Hrest). left. split; [reflexivity|].
          now exists f0, i.
        + intros [[_ Hs]|[Hne _]]; [exact Hs|congruence].
      - split.
        + intros Hs. right. now split.
        + intros [[Heq _]|[_ Hs]]; [congruence|exact Hs]. }
    assert (forall k v, seeds pkeys fs k v -> k <> key) as Hfresh.
    { intros k v (f0 & i & Hf & _) ->. apply lookup_Some_keys in Hf. tauto. }
    simpl create_loop.
    destruct (match Field.deprecated f with Some true => true | _ => false end)
      eqn:Hdep.
    + destruct (IH acc) as (seed & Hseed & Hspec); auto.
      { intros k Hk Hin. apply (Hdisj k Hk). now right. }
      exists seed. split; [exact Hseed|]. intros k v.
      rewrite Hspec, Hsplit. split.
      * intros [Hl|Hs]; [now left|]. right. right. split; eauto.
      * intros [Hl|[[-> (f0 & i & Hf & Hd & _)]|[_ Hs]]]; auto.
        exfalso. simpl in Hf. rewrite String.eqb_refl in Hf.
        inversion Hf; subst. destruct (Field.deprecated f0) as [[]|]; congruence.
    + destruct (negb (string_in key pkeys)
                && negb (match Field.initial f with
                         | Some i => isNullable i
                         | None => true
                         end)) eqn:Hc.
      * apply andb_prop in Hc. destruct Hc as [Hpk Hinit].
        apply negb_true_iff in Hpk, Hinit. apply string_in_not_In in Hpk.
        destruct (Field.initial f) as [i|] eqn:Hi; [|discriminate].
        rewrite assign_ok by tauto. simpl bind.
        destruct (IH (obj_set acc key (clone i))) as (seed & Hseed & Hspec);
          auto.
        { intros k Hk Hin. apply keys_obj_set in Hk.
          destruct Hk as [->|Hk]; [tauto|]. apply (Hdisj k Hk). now right. }
        exists seed. split; [exact Hseed|]. intros k v.
        rewrite Hspec, Hsplit, lookup_obj_set.
        destruct (String.eqb_spec k key) as [->|Hne].
        -- split.
           ++ intros [Hv|Hs]; [|exfalso; eapply Hfresh; eauto].
              inversion Hv; subst. right. left. split; [reflexivity|].
              exists f, i. simpl. rewrite String.eqb_refl.
              repeat split; auto.
              destruct (Field.deprecated f) as [[]|]; congruence.
           ++ intros [Hl|[[_ (f0 & i0 & Hf & _ & _ & Hi0 & _ & ->)]|[Hne _]]].
              ** exfalso. apply lookup_Some_keys in Hl.
                 apply (Hdisj key Hl). now left.
              ** simpl in Hf. rewrite String.eqb_refl in Hf.
                 inversion Hf; subst. rewrite Hi in Hi0. inversion Hi0.
                 now left.
              ** congruence.
        -- split.
           ++ intros [Hl|Hs]; [now left|]. right. right. now split.
           ++ intros [Hl|[[Heq _]|[_ Hs]]]; auto. congruence.
      * destruct (IH acc) as (seed & Hseed & Hspec); auto.
        { intros k Hk Hin. apply (Hdisj k Hk). now right. }
        exists seed. split; [exact Hseed|]. intros k v.
        rewrite Hspec, Hsplit. split.
        -- intros [Hl|Hs]; [now left|]. right. right. split; eauto.
        -- intros [Hl|[[-> (f0 & i & Hf & _ & Hpk & Hi & Hn & _)]|[_ Hs]]];
             auto.
           exfalso. simpl in Hf. rewrite String.eqb_refl in Hf.
           inversion Hf; subst. rewrite Hi, Hn in Hc.
           apply string_in_not_In in Hpk. rewrite Hpk in Hc. discriminate.
Qed.


End Creation.

(** ** The portable evaluator *)

Section EvaluatorFacts.
Context `{Host} `{Core}.
Import Query.
Import Spec.

Lemma same_value_zero_primitive x v :
  is_primitive v = true -> (same_value_zero x v = true <-> x = v).
Proof.
  intros Hv. destruct v; try discriminate; destruct x; simpl;
    try solve [split; [discriminate|congruence]]; try solve [tauto];
    repeat match goal with
           | n : number |- _ => destruct n; simpl
           end;
    try solve [split; [discriminate|congruence]]; try solve [tauto].
  - rewrite Bool.eqb_true_iff. split; congruence.
  - rewrite Z.eqb_eq. split; congruence.
  - rewrite String.eqb_eq. split; congruence.
Qed.

Lemma includes_exists xs v :
  includes xs v = true <-> exists x, In x xs /\ same_value_zero x v = true.
Proof. unfold includes. apply existsb_exists. Qed.

Lemma includes_primitive xs v :
  is_primitive v = true -> (includes xs v = true <-> In v xs).
Proof.
  intros Hv. rewrite includes_exists. split.
  - intros (x & Hin & Hx). apply same_value_zero_primitive in Hx; auto.
    now subst.
  - intros Hin. exists v. split; auto.
    now apply same_value_zero_primitive.
Qed.

Lemma executeFieldQuery_in xs v :
  executeFieldQuery (obj [("$in", VArr xs)]) v = Ok (includes xs v).
Proof. simpl. now destruct (includes xs v). Qed.

Lemma executeFieldQuery_nin xs v :
  executeFieldQuery (obj [("$nin", VArr xs)]) v = Ok (negb (includes xs v)).
Proof. simpl. now destruct (includes xs v). Qed.

End EvaluatorFacts.

Section QueryFacts.
Context `{Host} `{Core}.
Import Query.
Import Spec.

(** One step of [every]: the first entry is evaluated, and the rest only
    when it holds. *)
Lemma executeQuery_cons data kt key v ref env :
  exists c : result bool,
    (logical key = false -> c = fieldConjunct data key v)
    /\ forall es,
        executeQuery data (VObj kt ((key, v) :: es)) ref env
        = (r <- c ;; if r then executeQuery data (VObj kt es) ref env
                     else Ok false).
Proof.
  eexists. split; [|intros es; reflexivity].
  unfold logical. simpl.
  destruct (String.eqb key "$and"); [discriminate|].
  destruct (String.eqb key "$or"); [discriminate|].
  destruct (String.eqb key "$not"); [discriminate|].
  destruct (String.eqb key "$expr"); [discriminate|].
  reflexivity.
Qed.

Lemma executeQuery_app data kt before es ref env :
  executeQuery data (VObj kt before) ref env = Ok true ->
  executeQuery data (VObj kt (before ++ es)) ref env
  = executeQuery data (VObj kt es) ref env.
Proof.
  induction before as [|[key v] before IH]; intros Hb; [reflexivity|].
  rewrite <- app_comm_cons.
  destruct (executeQuery_cons data kt key v ref env) as (c & _ & E).
  rewrite E in Hb. rewrite E.
  destruct c as [[]|e]; simpl in *; try discriminate.
  now apply IH.
Qed.

Lemma walk_throw segs e :
  fold_left (fun r k => r' <- r ;; get_prop r' k) segs (Throw e) = Throw e.
Proof. induction segs; simpl; auto. Qed.

Lemma getCell_untraversable row key :
  untraversable row key ->
  getCell row key
  = Throw (TypeError "Cannot read properties of undefined or null").
Proof.
  intros (before & segment & after & x & Hs & Hw & Hx).
  unfold getCell. rewrite Hs, fold_left_app. unfold walk in Hw. rewrite Hw.
  simpl. destruct x; try discriminate; simpl; apply walk_throw.
Qed.

(** C10. A field query whose dotted key cannot be traversed in the row
    (a segment before the last is missing or null) is a conjunct that
    evaluates to [false]: [executeQuery] returns [false], and raises
    nothing, on every query in which the conjuncts before it hold. *)
Theorem executeQuery_untraversable
        (data : value) (key : string) (v : value) (kt : option value)
        (before rest : entries) (ref : string) (env : value) :
  untraversable data key ->
  logical key = false ->
  executeQuery data (VObj kt before) ref env = Ok true ->
  fieldConjunct data key v = Ok false
  /\ executeQuery data (VObj kt (before ++ (key, v) :: rest)) ref env
     = Ok false.
Proof.
  intros Hu Hl Hb.
  assert (fieldConjunct data key v = Ok false) as Hc.
  { unfold fieldConjunct. now rewrite (getCell_untraversable Hu). }
  split; [exact Hc|].
  rewrite executeQuery_app by assumption.
  destruct (executeQuery_cons data kt key v ref env) as (c & Hf & E).
  rewrite E, (Hf Hl), Hc. reflexivity.
Qed.

Lemma selectRows_false rows q ref env :
  (forall row, executeQuery row q ref env = Ok false) ->
  selectRows rows q ref env = Ok [].
Proof.
  intros Hq. induction rows as [|row rows IH]; simpl; [reflexivity|].
  now rewrite Hq, IH.
Qed.

Lemma selectRows_true rows q ref env :
  (forall row, executeQuery row q ref env = Ok true) ->
  selectRows rows q ref env = Ok rows.
Proof.
  intros Hq. induction rows as [|row rows IH]; simpl; [reflexivity|].
  now rewrite Hq, IH.
Qed.

End QueryFacts.

(** ** Arithmetic on 32 bits *)

Section Int32.
Import Query.
Import Spec.

Lemma wrap32_small z : in_int32 z -> wrap32 z = z.
Proof.
  unfold in_int32, wrap32. intros Hz.
  destruct (Z_lt_le_dec z 0) as [Hneg|Hpos].
  - assert (z mod 4294967296 = z + 4294967296) as ->.
    { symmetry. apply Z.mod_unique with (q := -1); lia. }
    destruct (Z.ltb_spec (z + 4294967296) 2147483648); lia.
  - rewrite Z.mod_small by lia.
    destruct (Z.ltb_spec z 2147483648); lia.
Qed.

Lemma land_le_l a b : 0 <= a -> Z.land a b <= a.
Proof.
  intros Ha.
  assert (a - Z.land a b = Z.ldiff a (Z.land a b)) as E.
  { apply Z.sub_nocarry_ldiff. apply Z.bits_inj'. intros n Hn.
    rewrite Z.ldiff_spec, Z.land_spec, Z.bits_0.
    destruct (Z.testbit a n), (Z.testbit b n); reflexivity. }
  assert (0 <= Z.ldiff a (Z.land a b)) by (apply Z.ldiff_nonneg; lia).
  lia.
Qed.

Lemma lor_lt_pow2 x y n :
  0 <= x < 2 ^ n -> 0 <= y < 2 ^ n -> 0 < n -> Z.lor x y < 2 ^ n.
Proof.
  intros Hx Hy Hn.
  assert (0 <= Z.lor x y) as Hnn by (apply Z.lor_nonneg; lia).
  destruct (Z.eq_dec (Z.lor x y) 0) as [->|Hne]; [lia|].
  apply Z.log2_lt_pow2; [lia|].
  rewrite Z.log2_lor by lia.
  apply Z.max_lub_lt.
  - destruct (Z.eq_dec x 0) as [->|?]; [simpl; lia|].
    apply Z.log2_lt_pow2; lia.
  - destruct (Z.eq_dec y 0) as [->|?]; [simpl; lia|].
    apply Z.log2_lt_pow2; lia.
Qed.

(** The signed 32-bit integers are closed under bitwise AND. *)
Lemma land_in_int32 a b : in_int32 a -> in_int32 b -> in_int32 (Z.land a b).
Proof.
  unfold in_int32. intros Ha Hb.
  destruct (Z_lt_le_dec a 0) as [Han|Hap].
  - destruct (Z_lt_le_dec b 0) as [Hbn|Hbp].
    + assert (Z.land a b < 0) by (apply Z.land_neg; lia).
      assert (Z.lnot (Z.land a b) < 2 ^ 31).
      { rewrite Z.lnot_land. apply lor_lt_pow2;
          rewrite ?Zbitwise.Z.lnot_eq_pred_opp; lia. }
      rewrite Zbitwise.Z.lnot_eq_pred_opp in *. lia.
    + assert (0 <= Z.land a b) by (apply Z.land_nonneg; lia).
      pose proof (@land_le_l b a Hbp) as Hle. rewrite Z.land_comm in Hle. lia.
  - assert (0 <= Z.land a b) by (apply Z.land_nonneg; lia).
    pose proof (@land_le_l a b Hap). lia.
Qed.

End Int32.

(** ** The lowered conjunction on the server *)

Section ServerFacts.
Context `{Host}.
Import Mongo.
Import Server.
Import Spec.


Lemma numeral_round_trip z : string_to_Z (Z_to_string z) = Some z.
Proof.
  unfold string_to_Z, Z_to_string.
  rewrite NilZero.isi.
  - now rewrite DecimalZ.of_to.
  - destruct z; simpl; try discriminate.
    intros E. inversion E as [E']. now apply DecimalPos.Unsigned.to_uint_nonnil in E'.
  - destruct z; simpl; try discriminate.
    intros E. inversion E as [E']. now apply DecimalPos.Unsigned.to_uint_nonnil in E'.
Qed.











End ServerFacts.

(** ** The lowering of expressions *)

Section LoweringFacts.
Import Mongo.
Import Server.
Import Spec.
Context `{Host} `{Core} `{Deps}.




(** C9. An empty object (or array) is lowered to an explicit
    [{ $literal: ... }]: by [transformEvalExpr] and [eval] wherever it
    occurs in an expression, and by [toUpdateExpr] when the slot is
    json-typed or untyped, at the root of the update and as a member of a
    json value with typed members. *)
Theorem empty_object_literal (v : value) :
  empty v ->
  isEvalExpr v = false ->
  (forall g s, transformEvalExpr v g s = Ok (obj [("$literal", v)], s))
  /\ (forall g s, eval v g s = Ok (obj [("$literal", v)], s))
  /\ (forall type root s,
         Type_.type_is type "json" = true \/ truthy type = false ->
         toUpdateExpr v type root s = Ok (obj [("$literal", v)], s))
  /\ (forall kt k type inner root s,
         isEvalExpr (VObj kt [(k, v)]) = false ->
         truthy type = true ->
         truthy (Type_.member type "inner") = true ->
         Type_.getInner type (Some k) = Ok inner ->
         Type_.type_is inner "json" = true \/ truthy inner = false ->
         toUpdateExpr (VObj kt [(k, v)]) type root s
         = Ok (obj [(k, obj [("$literal", v)])], s)).
Proof.
  intros Hv He.
  assert (forall type root s,
             Type_.type_is type "json" = true \/ truthy type = false ->
             toUpdateExpr v type root s = Ok (obj [("$literal", v)], s))
    as Hupdate.
  { intros type root s Ht.
    destruct Hv as [[kt ->]| ->]; simpl; rewrite He;
      rewrite andb_false_r;
      (destruct Ht as [-> | ->]; [|rewrite orb_true_r]); reflexivity. }
  split; [|split; [|split]].
  - intros g s. destruct Hv as [[kt ->]| ->]; reflexivity.
  - intros g s. destruct Hv as [[kt ->]| ->]; destruct g; reflexivity.
  - exact Hupdate.
  - intros kt k type inner root s He' Ht Hi Hg Hinner.
    simpl. rewrite He', Ht, Hi. rewrite !andb_false_r. simpl.
    unfold mbind, lift. rewrite Hg.
    rewrite (Hupdate inner false s Hinner). reflexivity.
Qed.

(** [transformFieldQuery] on arrays and on [$in] and [$nin]: an empty
    array can match nothing; the other queries go to the server as they
    are. *)
Lemma transformFieldQuery_membership key filters type x xs :
  transformFieldQuery (VArr []) key filters type = Ok (VBool false, filters)
  /\ transformFieldQuery (VArr (x :: xs)) key filters type
     = Ok (obj [("$in", VArr (x :: xs))], filters)
  /\ transformFieldQuery (obj [("$in", VArr xs)]) key filters type
     = Ok (obj [("$in", VArr xs)], filters)
  /\ transformFieldQuery (obj [("$nin", VArr xs)]) key filters type
     = Ok (obj [("$nin", VArr xs)], filters).
Proof. repeat split; reflexivity. Qed.

Lemma query_empty_or fieldType s :
  query fieldType (obj [("$or", VArr [])]) s = Ok (VUndefined, s).
Proof. reflexivity. Qed.

Lemma query_empty_and fieldType s :
  query fieldType (obj [("$and", VArr [])]) s = Ok (obj [], s).
Proof. reflexivity. Qed.

Lemma selectWhere_empty_or fieldType s :
  selectWhere fieldType (obj [("$or", VArr [])]) s = Ok (false, s).
Proof. reflexivity. Qed.

Lemma selectWhere_empty_and fieldType s :
  selectWhere fieldType (obj [("$and", VArr [])]) s = Ok (true, s).
Proof. reflexivity. Qed.

End LoweringFacts.

(** ** Empty combinators and membership *)

Section Combinators.
Import Mongo.
Import Spec.
Context `{Host} `{Core} `{Deps}.

(** C4. The top-level query [{ $or: [] }] selects no row and
    [{ $and: [] }] selects every row.  In the portable evaluator the first
    is [false] and the second [true] on every row.  In the Mongo compiler
    the first compiles to [undefined], so that [select] gives up before it
    adds a stage and the selection returns no row, and the second compiles
    to the empty filter, for which [select] adds no [$match] stage and the
    selection returns every row. *)
Theorem empty_or_and (rows : list value) (ref : string) (env : value)
        (fieldType : string -> value) (s : State) :
  (forall row,
      Query.executeQuery row (obj [("$or", VArr [])]) ref env = Ok false)
  /\ (forall row,
         Query.executeQuery row (obj [("$and", VArr [])]) ref env = Ok true)
  /\ Query.selectRows rows (obj [("$or", VArr [])]) ref env = Ok []
  /\ Query.selectRows rows (obj [("$and", VArr [])]) ref env = Ok rows
  /\ query fieldType (obj [("$or", VArr [])]) s = Ok (VUndefined, s)
  /\ selectWhere fieldType (obj [("$or", VArr [])]) s = Ok (false, s)
  /\ selectedRows false [] rows = Some []
  /\ query fieldType (obj [("$and", VArr [])]) s = Ok (obj [], s)
  /\ selectWhere fieldType (obj [("$and", VArr [])]) s = Ok (true, s)
  /\ selectedRows true [] rows = Some rows.
Proof.
  repeat split.
  - apply selectRows_false. reflexivity.
  - apply selectRows_true. reflexivity.
Qed.

(** C5. [$in] matches a datum exactly when the array has a member equal
    to it, and [$nin] exactly when it has none; equality is that of
    [Array.prototype.includes], which on primitive data is membership in
    the list.  With the empty array [$in] matches nothing and [$nin]
    everything.  The Mongo compiler turns the empty array shorthand into
    [false] (no row), and hands the other forms to the server. *)
Theorem in_nin_membership (xs : list value) (v : value) :
  Query.executeFieldQuery (obj [("$in", VArr xs)]) v
  = Ok (Query.includes xs v)
  /\ Query.executeFieldQuery (obj [("$nin", VArr xs)]) v
     = Ok (negb (Query.includes xs v))
  /\ Query.executeFieldQuery (VArr xs) v = Ok (Query.includes xs v)
  /\ (Query.includes xs v = true <->
      exists x, In x xs /\ Query.same_value_zero x v = true)
  /\ (is_primitive v = true -> (Query.includes xs v = true <-> In v xs))
  /\ Query.executeFieldQuery (obj [("$in", VArr [])]) v = Ok false
  /\ Query.executeFieldQuery (obj [("$nin", VArr [])]) v = Ok true
  /\ (forall key filters type,
         transformFieldQuery (VArr []) key filters type
         = Ok (VBool false, filters))
  /\ (forall key type, createFieldFilter (VArr []) key type = Ok (VBool false))
  /\ (forall key filters type x,
         transformFieldQuery (VArr (x :: xs)) key filters type
         = Ok (obj [("$in", VArr (x :: xs))], filters))
  /\ (forall key filters type,
         transformFieldQuery (obj [("$in", VArr xs)]) key filters type
         = Ok (obj [("$in", VArr xs)], filters))
  /\ (forall key filters type,
         transformFieldQuery (obj [("$nin", VArr xs)]) key filters type
         = Ok (obj [("$nin", VArr xs)], filters)).
Proof.
  split; [apply executeFieldQuery_in|].
  split; [apply executeFieldQuery_nin|].
  split; [reflexivity|].
  split; [apply includes_exists|].
  split; [apply includes_primitive|].
  repeat split.
Qed.

End Combinators.

(** ** The statements at concrete inputs *)

Section Instances.
Import Mongo.
Import Spec.




(** C8 at a date on the second day of 1970, one hour east of Greenwich. *)
Lemma resolveValue_time_witness :
  exists t',
    @Model.resolveValue Sample.host Sample.events "at" (VDate 90000000)
    = Ok (VDate t')
    /\ Day (@LocalTime Sample.host t') = Day (@LocalTime Sample.host 0)
    /\ @getHours Sample.host t' = @getHours Sample.host 90000000
    /\ @getMinutes Sample.host t' = @getMinutes Sample.host 90000000
    /\ @getSeconds Sample.host t' = @getSeconds Sample.host 90000000
    /\ @getMilliseconds Sample.host t' = @getMilliseconds Sample.host 90000000.
Proof.
  destruct (@resolveValue_time Sample.host Sample.events "at"
                               (VDate 90000000)) as (Ht & _).
  apply (Ht {| Field.type := "time"; Field.length := None;
               Field.nullable := None; Field.initial := None;
               Field.precision := None; Field.scale := None;
               Field.expr := None; Field.legacy := None;
               Field.deprecated := Some false |} 90000000); reflexivity.
Defined.




(** C10 at the row [{ x: 1, a: null }] and the key [a.b.c]. *)
Lemma executeQuery_untraversable_witness :
  @Query.fieldConjunct Sample.host Sample.core
    (obj [("x", int 1); ("a", VNull)]) "a.b.c" (int 1) = Ok false
  /\ @Query.executeQuery Sample.host Sample.core
       (obj [("x", int 1); ("a", VNull)])
       (VObj None ([("x", int 1)] ++ ("a.b.c", int 1) :: [("x", int 2)]))
       "t" (obj [])
     = Ok false.
Proof.
  apply (@executeQuery_untraversable Sample.host Sample.core).
  - exists ["a"], "b", ["c"], VNull. repeat split; reflexivity.
  - reflexivity.
  - reflexivity.
Defined.

(** C9 at the empty object. *)
Lemma empty_object_literal_witness :
  (forall g s,
      @eval Sample.core Sample.deps (obj []) g s
      = Ok (obj [("$literal", obj [])], s))
  /\ (forall root s,
         @toUpdateExpr Sample.core Sample.deps (obj []) VUndefined root s
         = Ok (obj [("$literal", obj [])], s)).
Proof.
  destruct (@empty_object_literal Sample.core Sample.deps (obj []))
    as (_ & He & Hu & _).
  - left. now exists None.
  - reflexivity.
  - split; [exact He|]. intros root s. apply Hu. now right.
Defined.



End Instances.

(** ** Dotted keys *)

Section DottedKeys.
Import Spec.
Import Trace.

Lemma value_size_ind (P : value -> Prop) :
  (forall v, (forall x, (size x < size v)%nat -> P x) -> P v) ->
  forall v, P v.
Proof.
  intros Hstep v.
  assert (forall n x, (size x < n)%nat -> P x) as Hn.
  { induction n as [|n IH]; intros x Hx; [lia|].
    apply Hstep. intros y Hy. apply IH. lia. }
  apply (Hn (S (size v))). lia.
Qed.

Lemma size_member kt (es : entries) k x :
  In (k, x) es -> (size x < size (VObj kt es))%nat.
Proof.
  intros Hin. simpl.
  assert (size x <= fold_right (fun e n => size (snd e) + n) 0 es)%nat.
  { induction es as [|[k' x'] es IH]; simpl in *; [tauto|].
    destruct Hin as [E|Hin]; [inversion E; subst; lia|].
    specialize (IH Hin). lia. }
  lia.
Qed.



Lemma append_nil_r (a : string) : (a ++ "")%string = a.
Proof. induction a as [|x a IH]; simpl; congruence. Qed.

Lemma split_nonempty c s : split c s <> [].
Proof.
  induction s as [|x s IH]; simpl; [discriminate|].
  destruct (Ascii.eqb x c); [discriminate|].
  destruct (split c s); [congruence|discriminate].
Qed.

Lemma split_plain k : has_dot k = false -> split dot k = [k].
Proof.
  unfold has_dot. induction k as [|c k IH]; intros Hk; [reflexivity|].
  cbn [list_ascii_of_string existsb] in Hk.
  apply orb_false_iff in Hk. destruct Hk as [Hc Hk].
  cbn [split]. rewrite Ascii.eqb_sym, Hc, IH by assumption. reflexivity.
Qed.

Lemma split_app_dot k rest :
  has_dot k = false ->
  split dot (k ++ String dot rest) = k :: split dot rest.
Proof.
  unfold has_dot. induction k as [|c k IH]; intros Hk.
  - cbn [append split]. now rewrite Ascii.eqb_refl.
  - cbn [list_ascii_of_string existsb] in Hk.
    apply orb_false_iff in Hk. destruct Hk as [Hc Hk].
    cbn [append split]. rewrite Ascii.eqb_sym, Hc, IH by assumption.
    reflexivity.
Qed.



Lemma digits_no_dot s acc n :
  digits_value acc s = Some n -> has_dot s = false.
Proof.
  unfold has_dot. revert acc.
  induction s as [|c s IH]; intros acc E; [reflexivity|].
  cbn [digits_value] in E. cbn [list_ascii_of_string existsb].
  destruct (is_digit c) eqn:Hc; [|discriminate].
  rewrite (IH _ E), orb_false_r.
  destruct (Ascii.eqb_spec dot c) as [<-|]; [discriminate|reflexivity].
Qed.

Lemma has_dot_not_index key : has_dot key = true -> array_index key = None.
Proof.
  intros Hd. unfold array_index. destruct key as [|c rest]; [reflexivity|].
  destruct (Ascii.eqb_spec c "0"%char) as [->|Hc].
  - destruct rest; [discriminate|reflexivity].
  - destruct (digits_value 0 (String c rest)) as [n|] eqn:E; [|reflexivity].
    apply digits_no_dot in E. congruence.
Qed.

Lemma has_dot_app a b : has_dot (a ++ b) = has_dot a || has_dot b.
Proof.
  unfold has_dot. induction a as [|c a IH]; [reflexivity|].
  cbn [append list_ascii_of_string existsb]. now rewrite IH, orb_assoc.
Qed.

Lemma has_dot_prefix_of s segs : has_dot (prefix_of (s :: segs)) = true.
Proof.
  cbn [prefix_of]. rewrite !has_dot_app.
  replace (has_dot ".") with true by reflexivity.
  now rewrite orb_true_r.
Qed.

(** A key that [format] builds from plain segments can be assigned as a
    new member at the end of an object. *)
Lemma built_key_appends segs k :
  plain_key k = true ->
  array_index (prefix_of segs ++ k) = None
  /\ (prefix_of segs ++ k)%string <> "__proto__".
Proof.
  intros Hk. unfold plain_key in Hk.
  apply andb_prop in Hk. destruct Hk as [Hk Hinh].
  apply andb_prop in Hk. destruct Hk as [Hdot Hidx].
  destruct segs as [|s segs].
  - simpl. split.
    + now destruct (array_index k).
    + intros ->. discriminate.
  - assert (has_dot (prefix_of (s :: segs) ++ k) = true) as Hd.
    { now rewrite has_dot_app, has_dot_prefix_of. }
    split; [now apply has_dot_not_index|].
    intros E. rewrite E in Hd. discriminate.
Qed.

End DottedKeys.

(** ** The assignments of [format] on a plain record *)

Section FormatTrace.
Import Spec.
Import Trace.
Context `{Host} `{Core}.


Lemma plain_key_no_dot k : plain_key k = true -> has_dot k = false.
Proof.
  unfold plain_key. intros Hk.
  apply andb_prop in Hk. destruct Hk as [Hk _].
  apply andb_prop in Hk. destruct Hk as [Hk _].
  now apply negb_true_iff.
Qed.



Lemma obj_set_new {A} (es : dict A) k v :
  lookup k es = None -> array_index k = None ->
  obj_set es k v = es ++ [(k, v)].
Proof. intros Hl Hi. unfold obj_set, has_key. now rewrite Hl, Hi. Qed.




End FormatTrace.

(* ------------------------------------------------------------------ *)
(** ** [parse] on the assignments of [format] *)
(* ------------------------------------------------------------------ *)

Section ParseTrace.
Import Spec.
Import Trace.
Context `{Host} `{Core}.








Lemma plain_key_own k :
  plain_key k = true ->
  array_index k = None /\ inherited_key k = false /\ k <> "__proto__".
Proof.
  intros Hk. destruct (@built_key_appends [] k Hk) as (Hidx & Hproto).
  unfold plain_key in Hk.
  apply andb_prop in Hk. destruct Hk as [_ Hinh].
  apply negb_true_iff in Hinh. auto.
Qed.




(** Without a field of type [time] the values that are kept are those of
    the record: the restriction is the one of the specification. *)
Lemma restrict_restricted m :
  (forall k f, lookup k (Model.fields m) = Some f ->
               Field.type f <> "time") ->
  forall v p, restrict m v p = Ok (restricted m v p).
Proof.
  intros Htime.
  assert (forall key x, Model.resolveValue m key x = Ok x) as Hrv.
  { intros key x. unfold Model.resolveValue.
    destruct (isNullable x); [reflexivity|].
    destruct (lookup key (Model.fields m)) as [f|] eqn:Hf; [|reflexivity].
    apply Htime in Hf. apply String.eqb_neq in Hf. now rewrite Hf. }
  induction v as [v IHv] using value_size_ind. intros p.
  destruct v as [| | | | | | | | | xs|kt es]; try reflexivity.
  cbn [restrict restricted].
  assert (forall es', incl es' es ->
             restrict_entries m p (restrict m) es'
             = Ok (select_entries m p (restricted m) es')) as Hgen.
  { induction es' as [|[k x] es' IH]; intros Hincl; [reflexivity|].
    cbn [restrict_entries select_entries].
    rewrite IH by (intros e He; apply Hincl; now right).
    destruct (kept m (p ++ k) x).
    - rewrite Hrv. reflexivity.
    - destruct (Model.is_leaf x); [reflexivity|].
      rewrite IHv by (apply (size_member kt es k x); apply Hincl; now left).
      cbn [bind ret].
      now destruct (restricted m x ((p ++ k) ++ ".")). }
  apply Hgen, incl_refl.
Qed.

End ParseTrace.

(* ------------------------------------------------------------------ *)
(** ** The round trip at the sample model *)
(* ------------------------------------------------------------------ *)

Section RoundTrip.
Import Spec.



End RoundTrip.

(* ================================================================== *)
(** * Further properties of the model *)
(* ================================================================== *)

(** ** [format]: strictness, the keys of the result, flat rows *)

Section FormatFacts.
Import Spec.
Context `{Core}.

Lemma size_item (xs : list value) x :
  In x xs -> (size x < size (VArr xs))%nat.
Proof.
  intros Hin. simpl.
  assert (size x <= fold_right (fun y n => size y + n) 0 xs)%nat.
  { induction xs as [|y xs IH]; simpl in *; [tauto|].
    destruct Hin as [->|Hin]; [lia|]. specialize (IH Hin). lia. }
  lia.
Qed.

Lemma format_entry_relax m p k x
      (d1 d2 : string -> entries -> result entries) res F :
  (forall p' r F', d1 p' r = Ok F' -> d2 p' r = Ok F') ->
  Model.format_entry m true p k x d1 res = Ok F ->
  Model.format_entry m false p k x d2 res = Ok F.
Proof.
  intros Hd. unfold Model.format_entry.
  destruct (string_in (p ++ k) (keys (Model.fields m))); [auto|].
  destruct (Model.is_leaf x); [|apply Hd].
  destruct (Model.under_field (keys (Model.fields m)) (p ++ k));
    [auto|discriminate].
Qed.

Lemma format_entries_relax m p
      (D1 D2 : value -> string -> entries -> result entries) :
  forall es res F,
    (forall k x, In (k, x) es ->
                 forall p' r F', D1 x p' r = Ok F' -> D2 x p' r = Ok F') ->
    Model.format_entries m true p D1 es res = Ok F ->
    Model.format_entries m false p D2 es res = Ok F.
Proof.
  induction es as [|[k x] es IH]; intros res F HD; cbn [Model.format_entries];
    [auto|].
  destruct (Model.format_entry m true p k x (D1 x) res) as [r|e] eqn:E;
    cbn [bind]; [|discriminate].
  intros Hrest.
  rewrite (@format_entry_relax m p k x (D1 x) (D2 x) res r);
    [|apply (HD k x); now left|assumption].
  cbn [bind]. apply IH; [|assumption].
  intros k' x' Hin. apply (HD k' x'). now right.
Qed.

Lemma format_items_relax m p
      (D1 D2 : value -> string -> entries -> result entries) :
  forall xs i res F,
    (forall x, In x xs ->
               forall p' r F', D1 x p' r = Ok F' -> D2 x p' r = Ok F') ->
    Model.format_items m true p D1 i xs res = Ok F ->
    Model.format_items m false p D2 i xs res = Ok F.
Proof.
  induction xs as [|x xs IH]; intros i res F HD; cbn [Model.format_items];
    [auto|].
  destruct (Model.format_entry m true p (nat_to_string i) x (D1 x) res)
    as [r|e] eqn:E; cbn [bind]; [|discriminate].
  intros Hrest.
  rewrite (@format_entry_relax m p (nat_to_string i) x (D1 x) (D2 x) res r);
    [|apply (HD x); now left|assumption].
  cbn [bind]. apply IH; [|assumption].
  intros x' Hin. apply (HD x'). now right.
Qed.

(** X1. Strictness only adds failures: whenever the strict [format]
    returns a result, the lenient one returns the same result, on every
    source value, prefix and starting object. *)
Theorem format_strict_refines (m : Model.t) :
  forall (v : value) (p : string) (res F : entries),
    Model.format m v true p res = Ok F ->
    Model.format m v false p res = Ok F.
Proof.
  induction v as [v IHv] using value_size_ind. intros p res F.
  destruct v as [| | | | s | | | | | xs|kt es]; cbn [Model.format]; auto.
  - apply format_entries_relax. auto.
  - apply format_items_relax. intros x Hin p' r F'.
    apply IHv. now apply size_item.
  - apply format_entries_relax. intros k x Hin p' r F'.
    apply IHv. eapply size_member; eassumption.
Qed.

(** What [format] keeps true of its result: any property that holds of
    the starting object and survives the assignment of a key that is
    declared or lies under a declared field. *)
Lemma format_invariant m (Q : entries -> Prop) :
  (forall res key x,
      Q res ->
      declared m key = true
      \/ Model.under_field (keys (Model.fields m)) key = true ->
      Q (obj_set res key x)) ->
  forall v strict p res F,
    Q res -> Model.format m v strict p res = Ok F -> Q F.
Proof.
  intros HQ.
  assert (forall strict p k x (d : string -> entries -> result entries) res F,
             (forall p' r F', Q r -> d p' r = Ok F' -> Q F') ->
             Q res ->
             Model.format_entry m strict p k x d res = Ok F -> Q F) as Hentry.
  { intros strict p k x d res F Hd Hres. unfold Model.format_entry, assign.
    destruct (string_in (p ++ k) (keys (Model.fields m))) eqn:Hdecl.
    - destruct (String.eqb (p ++ k) "__proto__"); [discriminate|].
      intros E. inversion E. apply HQ; auto.
    - destruct (Model.is_leaf x); [|now apply Hd].
      destruct (Model.under_field (keys (Model.fields m)) (p ++ k)) eqn:Hu.
      + destruct (String.eqb (p ++ k) "__proto__"); [discriminate|].
        intros E. inversion E. apply HQ; auto.
      + destruct strict; [discriminate|]. intros E. inversion E; subst; assumption. }
  assert (forall strict p (D : value -> string -> entries -> result entries)
                 es res F,
             (forall k x, In (k, x) es ->
                          forall p' r F', Q r -> D x p' r = Ok F' -> Q F') ->
             Q res ->
             Model.format_entries m strict p D es res = Ok F -> Q F)
    as Hentries.
  { intros strict p D. induction es as [|[k x] es IH]; intros res F HD Hres;
      cbn [Model.format_entries].
    - intros E. inversion E; subst; assumption.
    - destruct (Model.format_entry m strict p k x (D x) res) as [r|e] eqn:E;
        cbn [bind]; [|discriminate].
      apply IH.
      + intros k' x' Hin. apply (HD k' x'). now right.
      + eapply Hentry; [|exact Hres|exact E]. apply (HD k x). now left. }
  assert (forall strict p (D : value -> string -> entries -> result entries)
                 xs i res F,
             (forall x, In x xs ->
                        forall p' r F', Q r -> D x p' r = Ok F' -> Q F') ->
             Q res ->
             Model.format_items m strict p D i xs res = Ok F -> Q F)
    as Hitems.
  { intros strict p D. induction xs as [|x xs IH]; intros i res F HD Hres;
      cbn [Model.format_items].
    - intros E. inversion E; subst; assumption.
    - destruct (Model.format_entry m strict p (nat_to_string i) x (D x) res)
        as [r|e] eqn:E; cbn [bind]; [|discriminate].
      apply IH.
      + intros x' Hin. apply (HD x'). now right.
      + eapply Hentry; [|exact Hres|exact E]. apply (HD x). now left. }
  induction v as [v IHv] using value_size_ind. intros strict p res F Hres.
  destruct v as [| | | | s | | | | | xs|kt es]; cbn [Model.format];
    try discriminate; try (intros E; inversion E; subst; assumption).
  - apply Hentries; [|assumption]. intros k x _ p' r F' Hr E.
    inversion E; subst; assumption.
  - apply Hitems; [|assumption]. intros x Hin p' r F'.
    apply IHv. now apply size_item.
  - apply Hentries; [|assumption]. intros k x Hin p' r F'.
    apply IHv. eapply size_member; eassumption.
Qed.

(** X2. Whatever the source and the mode, a key that [format] adds to
    the object it is given is a declared field or a key under a declared
    field ([field.] followed by a path). *)
Theorem format_keys_declared (m : Model.t) (v : value) (strict : bool)
        (p : string) (res F : entries) (k : string) :
  Model.format m v strict p res = Ok F ->
  In k (keys F) ->
  In k (keys res)
  \/ declared m k = true
  \/ Model.under_field (keys (Model.fields m)) k = true.
Proof.
  intros Hf. revert k.
  apply (@format_invariant m
           (fun F => forall k, In k (keys F) ->
                               In k (keys res)
                               \/ declared m k = true
                               \/ Model.under_field (keys (Model.fields m)) k
                                  = true))
    with (v := v) (strict := strict) (p := p) (res := res); auto.
  intros res' key x Hres Hkey k Hk.
  apply keys_obj_set in Hk. destruct Hk as [->|Hk]; [tauto|auto].
Qed.

(** X3. A row whose keys are all declared fields (a row as a table
    stores it) is returned as it is, in either mode, whatever its
    values. *)
Theorem format_declared_row (m : Model.t) (strict : bool) (es : entries) :
  NoDup (keys es) ->
  (forall k, In k (keys es) ->
             declared m k = true /\ array_index k = None
             /\ k <> "__proto__") ->
  Model.format m (obj es) strict "" [] = Ok es.
Proof.
  intros Hnd Hes. unfold obj. cbn [Model.format].
  assert (forall es' acc,
             NoDup (keys es') ->
             (forall k, In k (keys es') ->
                        declared m k = true /\ array_index k = None
                        /\ k <> "__proto__" /\ ~ In k (keys acc)) ->
             Model.format_entries m strict ""
               (fun v p r => Model.format m v strict p r) es' acc
             = Ok (acc ++ es')) as Hgen.
  { induction es' as [|[k x] es' IH]; intros acc Hnd' Hes';
      cbn [Model.format_entries].
    - now rewrite app_nil_r.
    - destruct (Hes' k) as (Hd & Hi & Hp & Hn); [now left|].
      inversion Hnd' as [|? ? Hfresh Hnd'']; subst.
      unfold Model.format_entry. cbn [append].
      unfold declared in Hd. rewrite Hd.
      rewrite assign_ok by assumption. cbn [bind].
      rewrite obj_set_new; [|now apply lookup_None_keys|assumption].
      rewrite IH; [now rewrite <- app_assoc|assumption|].
      intros k' Hk'. destruct (Hes' k') as (Hd' & Hi' & Hp' & Hn');
        [now right|].
      repeat split; auto.
      unfold keys. rewrite map_app. intros Hin.
      apply in_app_or in Hin. destruct Hin as [Hin|[<-|[]]]; [tauto|].
      tauto. }
  apply Hgen; [assumption|].
  intros k Hk. destruct (Hes k Hk) as (? & ? & ?). repeat split; auto.
Qed.

End FormatFacts.

(** ** [parse]: one dotted key, and a path through a member *)

Section ParseFacts.
Import Spec.
Context `{Host} `{Core}.

Lemma obj_set_first {A} k (v : A) : obj_set [] k v = [(k, v)].
Proof. unfold obj_set, has_key. simpl. now destruct (array_index k). Qed.

Lemma obj_set_only {A} k (v v' : A) : obj_set [(k, v)] k v' = [(k, v')].
Proof. unfold obj_set, has_key. simpl. now rewrite String.eqb_refl. Qed.

Lemma own_not_proto s :
  inherited_key s = false -> String.eqb s "__proto__" = false.
Proof.
  intros Hs. apply String.eqb_neq. intros ->. discriminate.
Qed.

(** Writing at a path from the empty object builds the nest. *)
Lemma set_path_fresh segs l v :
  Forall (fun s => inherited_key s = false) segs ->
  inherited_key l = false ->
  Model.set_path (obj []) segs l (Ok v) = Ok (nest segs l v).
Proof.
  intros Hsegs Hl. induction Hsegs as [|s segs Hs _ IH];
    cbn [Model.set_path nest bind].
  - unfold obj, set_prop. rewrite (own_not_proto l Hl).
    now rewrite obj_set_first.
  - unfold obj at 1, get_prop. cbn [lookup]. rewrite Hs.
    cbn [bind isNullable]. unfold obj at 1, set_prop.
    rewrite (own_not_proto s Hs). cbn [bind]. rewrite IH. cbn [bind].
    rewrite obj_set_first, obj_set_only. reflexivity.
Qed.

(** Reading the nest back along its path. *)
Lemma walk_nest segs l v :
  fold_left (fun r k => r' <- r ;; get_prop r' k) (segs ++ [l])
            (Ok (nest segs l v))
  = Ok v.
Proof.
  induction segs as [|s segs IH]; cbn [List.app fold_left nest bind].
  - unfold obj, get_prop. cbn [lookup]. now rewrite String.eqb_refl.
  - unfold obj at 1, get_prop at 2. cbn [lookup]. rewrite String.eqb_refl.
    exact IH.
Qed.

(** X4. [parse] on an object with one key builds the nest of objects
    that the segments of the key describe, with the resolved value at the
    end; [getCell] with the same key reads that value back. *)
Theorem parse_then_getCell (m : Model.t) (key : string) (v v' : value) :
  Forall (fun s => inherited_key s = false) (split dot key) ->
  Model.resolveValue m key v = Ok v' ->
  Model.parse m (obj [(key, v)])
  = Ok (nest (removelast (split dot key)) (last (split dot key) "") v')
  /\ (r <- Model.parse m (obj [(key, v)]) ;; Query.getCell r key) = Ok v'.
Proof.
  intros Hown Hrv.
  pose proof (@app_removelast_last _ (split dot key) ""
                                   (@split_nonempty dot key)) as Hsplit.
  assert (Model.parse m (obj [(key, v)])
          = Ok (nest (removelast (split dot key))
                     (last (split dot key) "") v')) as Hparse.
  { unfold Model.parse. cbn [for_in_entries obj Model.parse_loop].
    rewrite Hrv. fold (obj []).
    rewrite Hsplit in Hown. apply Forall_app in Hown.
    destruct Hown as [Hsegs Hlast]. inversion Hlast; subst.
    rewrite set_path_fresh by assumption. reflexivity. }
  split; [exact Hparse|].
  rewrite Hparse. cbn [bind]. unfold Query.getCell.
  rewrite Hsplit at 1. apply walk_nest.
Qed.

(** X5. A dotted key whose first segment names a member that [parse]
    has already set: when the member is [null] or [undefined] it is
    replaced by the object that the path needs; when it is another
    primitive the write fails with a TypeError. *)
Theorem parse_path_through_member
        (m : Model.t) (a b : string) (v w w' : value) :
  has_dot a = false -> has_dot b = false ->
  inherited_key a = false -> inherited_key b = false ->
  is_primitive v = true ->
  Model.resolveValue m a v = Ok v ->
  Model.resolveValue m (a ++ "." ++ b) w = Ok w' ->
  Model.parse m (obj [(a, v); ((a ++ "." ++ b)%string, w)])
  = if isNullable v then Ok (obj [(a, obj [(b, w')])])
    else Throw (TypeError "Cannot create property on a primitive").
Proof.
  intros Ha Hb Hia Hib Hv Hra Hrb.
  unfold Model.parse. cbn [for_in_entries obj Model.parse_loop].
  rewrite Hra, Hrb.
  change ("." ++ b)%string with (String dot b).
  rewrite (split_plain a Ha), (split_app_dot a b Ha), (split_plain b Hb).
  cbn [removelast last Model.set_path]. cbn [bind].
  unfold obj, set_prop at 1. rewrite (own_not_proto a Hia). cbn [bind].
  rewrite obj_set_first.
  unfold get_prop. cbn [lookup]. rewrite String.eqb_refl. cbn [bind].
  destruct v; try discriminate; cbn [isNullable];
    repeat (cbn [bind set_prop];
            rewrite ?(own_not_proto a Hia), ?(own_not_proto b Hib),
              ?obj_set_first, ?obj_set_only);
    reflexivity.
Qed.

End ParseFacts.

(** ** [resolveValue] and [extend] *)

Section ModelFacts.
Context `{Host}.

(** X6. [resolveValue] is idempotent: a value it returns is returned as
    it is when it is resolved again under the same key.  On a field of
    type [time] the date it builds is already on the first day. *)
Theorem resolveValue_idempotent (m : Model.t) (key : string) (v v' : value) :
  Model.resolveValue m key v = Ok v' ->
  Model.resolveValue m key v' = Ok v'.
Proof.
  unfold Model.resolveValue.
  destruct (isNullable v) eqn:Hn.
  - intros E. inversion E; subst. now rewrite Hn.
  - destruct (lookup key (Model.fields m)) as [f|] eqn:Hf.
    + destruct (String.eqb (Field.type f) "time") eqn:Ht.
      * destruct v; try discriminate.
        -- intros E. inversion E; subst. cbn [isNullable].
           f_equal. f_equal.
           assert (forall x, LocalTime (UTC x) = x) as HLU
               by (intros; unfold LocalTime, UTC; lia).
           unfold getHours, getMinutes, getSeconds, getMilliseconds, setHours.
           rewrite !HLU.
           destruct (time_of_day_parts (Day (LocalTime 0)) (LocalTime t))
             as (_ & -> & -> & -> & ->).
           reflexivity.
        -- destruct (has_key "getHours" es); discriminate.
      * intros E. inversion E; subst. now rewrite Hn.
    + intros E. inversion E; subst. now rewrite Hn.
Qed.








Lemma unique_includes_app us k u :
  Model.unique_includes us k = true ->
  Model.unique_includes (us ++ [u]) k = true.
Proof.
  unfold Model.unique_includes. destruct k as [s|l]; [|discriminate].
  rewrite existsb_app. now intros ->.
Qed.

Lemma push_unique_keeps ks : forall us k,
  Model.unique_includes us k = true ->
  Model.unique_includes (Model.push_unique us ks) k = true.
Proof.
  unfold Model.push_unique.
  induction ks as [|k0 ks IH]; intros us k Hk; cbn [fold_left]; [exact Hk|].
  apply IH. destruct (Model.unique_includes us k0); [exact Hk|].
  now apply unique_includes_app.
Qed.

Lemma push_unique_includes ks : forall us s,
  In (One s) ks ->
  Model.unique_includes (Model.push_unique us ks) (One s) = true.
Proof.
  induction ks as [|k0 ks IH]; intros us s Hin; [destruct Hin|].
  destruct (in_dec (fun a b : MaybeArray string =>
                      ltac:(decide equality; try apply string_dec;
                            apply (list_eq_dec string_dec)))
                   (One s) ks) as [Hks|Hks].
  - unfold Model.push_unique. cbn [fold_left]. now apply IH.
  - destruct Hin as [->|Hin]; [|contradiction].
    unfold Model.push_unique. cbn [fold_left].
    apply push_unique_keeps.
    destruct (Model.unique_includes us (One s)) eqn:E; [exact E|].
    unfold Model.unique_includes. rewrite existsb_app. cbn [existsb].
    now rewrite String.eqb_refl, orb_true_r.
Qed.

Lemma push_unique_present ks : forall us,
  (forall k, In k ks -> Model.unique_includes us k = true) ->
  Model.push_unique us ks = us.
Proof.
  unfold Model.push_unique.
  induction ks as [|k0 ks IH]; intros us Hks; cbn [fold_left]; [reflexivity|].
  rewrite (Hks k0) by (now left). apply IH. intros k Hk. apply Hks. now right.
Qed.

Lemma extend_unique m fs config :
  Model.unique (fst (Model.extend m fs config))
  = Model.push_unique (Model.unique m)
      (match Model.c_unique config with Some u => u | None => [] end).
Proof.
  unfold Model.extend.
  destruct (Model.extend_fields (Model.fields m) _ fs) as [fields' parsed].
  destruct parsed as [[]|e]; [|reflexivity].
  match goal with
  | |- context [Model.primary_mismatch ?M] =>
      destruct (Model.primary_mismatch M)
  end; reflexivity.
Qed.

(** X9. Declaring the same single-key unique indexes again changes
    nothing: after an [extend] that gives the indexes [us], each a single
    key, a second [extend] that gives them again leaves the list of unique
    indexes as it was, whatever else the two calls give. *)
Theorem extend_unique_idempotent
        (m : Model.t) (fs fs2 : dict Field.source)
        (config config2 : Model.Config) (us : list (MaybeArray string)) :
  Model.c_unique config = Some us ->
  Model.c_unique config2 = Some us ->
  Forall (fun u => exists s, u = One s) us ->
  Model.unique (fst (Model.extend (fst (Model.extend m fs config))
                                  fs2 config2))
  = Model.unique (fst (Model.extend m fs config)).
Proof.
  intros Hc Hc2 Hus. rewrite !extend_unique, Hc, Hc2.
  apply push_unique_present. intros k Hk.
  rewrite Forall_forall in Hus. destruct (Hus k Hk) as (s & ->).
  now apply push_unique_includes.
Qed.

End ModelFacts.

(* ================================================================== *)
(** * Further properties of the evaluator *)
(* ================================================================== *)

Section ReducerFacts.
Import Operators.

Lemma reduceOr_true f qs : reduceOr f qs true = Ok true.
Proof. induction qs as [|q qs IH]; cbn [reduceOr]; auto. Qed.

Lemma reduceAnd_false f qs : reduceAnd f qs false = Ok false.
Proof. induction qs as [|q qs IH]; cbn [reduceAnd]; auto. Qed.

Lemma reduceOr_all f qs bs :
  mapR f qs = Ok bs ->
  forall prev, reduceOr f qs prev = Ok (prev || existsb (fun b => b) bs).
Proof.
  revert bs. induction qs as [|q qs IH]; intros bs; cbn [mapR reduceOr].
  - intros E prev. inversion E. cbn. now rewrite orb_false_r.
  - destruct (f q) as [b|e]; cbn [bind]; [|discriminate].
    destruct (mapR f qs) as [bs'|e]; cbn [bind ret]; [|discriminate].
    intros E prev. inversion E; subst. cbn [existsb].
    destruct prev; [apply reduceOr_true|].
    rewrite (IH bs' eq_refl). reflexivity.
Qed.

Lemma reduceAnd_all f qs bs :
  mapR f qs = Ok bs ->
  forall prev, reduceAnd f qs prev = Ok (prev && forallb (fun b => b) bs).
Proof.
  revert bs. induction qs as [|q qs IH]; intros bs; cbn [mapR reduceAnd].
  - intros E prev. inversion E. cbn. now rewrite andb_true_r.
  - destruct (f q) as [b|e]; cbn [bind]; [|discriminate].
    destruct (mapR f qs) as [bs'|e]; cbn [bind ret]; [|discriminate].
    intros E prev. inversion E; subst. cbn [forallb].
    destruct prev; [|apply reduceAnd_false].
    rewrite (IH bs' eq_refl). reflexivity.
Qed.

Lemma reduceOr_app f qs1 qs2 prev :
  reduceOr f (qs1 ++ qs2) prev
  = (r <- reduceOr f qs1 prev ;; reduceOr f qs2 r).
Proof.
  revert prev. induction qs1 as [|q qs1 IH]; intros prev; [reflexivity|].
  rewrite <- app_comm_cons. cbn [reduceOr]. destruct prev; [apply IH|].
  destruct (f q); cbn [bind]; auto.
Qed.

Lemma reduceAnd_app f qs1 qs2 prev :
  reduceAnd f (qs1 ++ qs2) prev
  = (r <- reduceAnd f qs1 prev ;; reduceAnd f qs2 r).
Proof.
  revert prev. induction qs1 as [|q qs1 IH]; intros prev; [reflexivity|].
  rewrite <- app_comm_cons. cbn [reduceAnd]. destruct prev; [|apply IH].
  destruct (f q); cbn [bind]; auto.
Qed.

Lemma reduceAnd_ext f g qs prev :
  (forall q, f q = g q) -> reduceAnd f qs prev = reduceAnd g qs prev.
Proof.
  intros Hfg. revert prev. induction qs as [|q qs IH]; intros prev;
    cbn [reduceAnd]; [reflexivity|].
  destruct prev; [|apply IH]. rewrite Hfg.
  destruct (g q); cbn [bind]; auto.
Qed.

Lemma reduceOr_ext f g qs prev :
  (forall q, f q = g q) -> reduceOr f qs prev = reduceOr g qs prev.
Proof.
  intros Hfg. revert prev. induction qs as [|q qs IH]; intros prev;
    cbn [reduceOr]; [reflexivity|].
  destruct prev; [apply IH|]. rewrite Hfg.
  destruct (g q); cbn [bind]; auto.
Qed.

Lemma reduceAnd_map f (h : value -> value) qs prev :
  reduceAnd f (map h qs) prev = reduceAnd (fun q => f (h q)) qs prev.
Proof.
  revert prev. induction qs as [|q qs IH]; intros prev;
    cbn [map reduceAnd]; [reflexivity|].
  destruct prev; [|apply IH].
  destruct (f (h q)); cbn [bind]; auto.
Qed.

Lemma reduceOr_map f (h : value -> value) qs prev :
  reduceOr f (map h qs) prev = reduceOr (fun q => f (h q)) qs prev.
Proof.
  revert prev. induction qs as [|q qs IH]; intros prev;
    cbn [map reduceOr]; [reflexivity|].
  destruct prev; [apply IH|].
  destruct (f (h q)); cbn [bind]; auto.
Qed.

(** The negation of a disjunction is the conjunction of the negations,
    operand by operand and with the same operands evaluated. *)
Lemma reduce_de_morgan_or f qs prev :
  (b <- reduceOr f qs prev ;; ret (negb b))
  = reduceAnd (fun q => b <- f q ;; ret (negb b)) qs (negb prev).
Proof.
  revert prev. induction qs as [|q qs IH]; intros prev;
    cbn [reduceOr reduceAnd]; [reflexivity|].
  destruct prev; cbn [negb]; [apply (IH true)|].
  destruct (f q) as [b|e]; cbn [bind ret]; [|reflexivity].
  apply IH.
Qed.

Lemma reduce_de_morgan_and f qs prev :
  (b <- reduceAnd f qs prev ;; ret (negb b))
  = reduceOr (fun q => b <- f q ;; ret (negb b)) qs (negb prev).
Proof.
  revert prev. induction qs as [|q qs IH]; intros prev;
    cbn [reduceOr reduceAnd]; [reflexivity|].
  destruct prev; cbn [negb]; [|apply (IH false)].
  destruct (f q) as [b|e]; cbn [bind ret]; [|reflexivity].
  apply IH.
Qed.

End ReducerFacts.

Section FieldQueryFacts.
Import Query.
Import Operators.
Context `{Host} `{Core}.

Lemma result_bool_eta (c : result bool) :
  (r <- c ;; if r then Ok true else Ok false) = c.
Proof. destruct c as [[]|e]; reflexivity. Qed.

Lemma field_or_unfold kt qs es d :
  executeFieldQuery (VObj kt (("$or", VArr qs) :: es)) d
  = (r <- reduceOr (fun q => executeFieldQuery q d) qs false ;;
     if r then executeFieldQuery (VObj kt es) d else Ok false).
Proof. reflexivity. Qed.

Lemma field_and_unfold kt qs es d :
  executeFieldQuery (VObj kt (("$and", VArr qs) :: es)) d
  = (r <- reduceAnd (fun q => executeFieldQuery q d) qs true ;;
     if r then executeFieldQuery (VObj kt es) d else Ok false).
Proof. reflexivity. Qed.

Lemma field_not_unfold kt q es d :
  executeFieldQuery (VObj kt (("$not", q) :: es)) d
  = (r <- (b <- executeFieldQuery q d ;; ret (negb b)) ;;
     if r then executeFieldQuery (VObj kt es) d else Ok false).
Proof. reflexivity. Qed.

Lemma field_nil kt d : executeFieldQuery (VObj kt []) d = Ok true.
Proof. reflexivity. Qed.

Lemma field_cons kt key q d :
  exists c : result bool,
    forall es,
      executeFieldQuery (VObj kt ((key, q) :: es)) d
      = (r <- c ;; if r then executeFieldQuery (VObj kt es) d else Ok false).
Proof. eexists. intros es. reflexivity. Qed.

(** X10. The operators of one field query are a conjunction, evaluated
    from left to right up to the first that fails: a query object whose
    members are those of two objects, one after the other, holds when the
    first holds and then the second does. *)
Theorem field_query_conjunction
        (kt : option value) (es1 es2 : entries) (d : value) :
  executeFieldQuery (VObj kt (es1 ++ es2)) d
  = (b <- executeFieldQuery (VObj kt es1) d ;;
     if b then executeFieldQuery (VObj kt es2) d else Ok false).
Proof.
  induction es1 as [|[key q] es1 IH].
  - rewrite field_nil. reflexivity.
  - rewrite <- app_comm_cons.
    destruct (field_cons kt key q d) as (c & E). rewrite !E, IH.
    destruct c as [[]|e]; reflexivity.
Qed.

(** X12. With operands that all evaluate, [$or] holds exactly when one
    of them does and [$and] exactly when all of them do. *)
Theorem field_or_and_semantics (qs : list value) (bs : list bool) (d : value) :
  mapR (fun q => executeFieldQuery q d) qs = Ok bs ->
  executeFieldQuery (obj [("$or", VArr qs)]) d
  = Ok (existsb (fun b => b) bs)
  /\ executeFieldQuery (obj [("$and", VArr qs)]) d
     = Ok (forallb (fun b => b) bs).
Proof.
  intros Hbs. unfold obj.
  rewrite field_or_unfold, field_and_unfold, field_nil.
  rewrite (reduceOr_all _ _ Hbs), (reduceAnd_all _ _ Hbs). cbn.
  split; [now destruct (existsb _ bs)|now destruct (forallb _ bs)].
Qed.

(** X13. De Morgan, with errors and all: the negation of [$or] is the
    [$and] of the negated operands, and the negation of [$and] the [$or]
    of the negated operands; the two queries of each pair evaluate the
    same operands and give the same outcome on every datum. *)
Theorem field_de_morgan (qs : list value) (d : value) :
  executeFieldQuery (obj [("$not", obj [("$or", VArr qs)])]) d
  = executeFieldQuery
      (obj [("$and", VArr (map (fun q => obj [("$not", q)]) qs))]) d
  /\ executeFieldQuery (obj [("$not", obj [("$and", VArr qs)])]) d
     = executeFieldQuery
         (obj [("$or", VArr (map (fun q => obj [("$not", q)]) qs))]) d.
Proof.
  assert (forall q, executeFieldQuery (VObj None [("$not", q)]) d
                    = (b <- executeFieldQuery q d ;; ret (negb b))) as Hnot.
  { intros q. rewrite field_not_unfold, field_nil.
    destruct (executeFieldQuery q d) as [[]|e]; reflexivity. }
  unfold obj. split.
  - rewrite Hnot, field_or_unfold, field_and_unfold, !field_nil.
    rewrite !result_bool_eta, reduceAnd_map.
    rewrite (reduceAnd_ext _ _ _ _ Hnot).
    apply (reduce_de_morgan_or _ qs false).
  - rewrite Hnot, field_or_unfold, field_and_unfold, !field_nil.
    rewrite !result_bool_eta, reduceOr_map.
    rewrite (reduceOr_ext _ _ _ _ Hnot).
    apply (reduce_de_morgan_and _ qs true).
Qed.

End FieldQueryFacts.

Section OperatorFacts.
Import Query.
Import Operators.
Import Spec.
Context `{Host} `{Core}.



(** X16. The four bit tests on 32-bit integers: [$bitsAllSet] holds
    when every bit of the mask is set in the datum, [$bitsAllClear] when
    no bit of the mask is, and [$bitsAnyClear] and [$bitsAnySet] are their
    negations. *)
Theorem bit_tests (q d : Z) :
  in_int32 q -> in_int32 d ->
  exists allSet allClear : bool,
    executeFieldQuery (obj [("$bitsAllSet", int q)]) (int d) = Ok allSet
    /\ executeFieldQuery (obj [("$bitsAllClear", int q)]) (int d)
       = Ok allClear
    /\ executeFieldQuery (obj [("$bitsAnyClear", int q)]) (int d)
       = Ok (negb allSet)
    /\ executeFieldQuery (obj [("$bitsAnySet", int q)]) (int d)
       = Ok (negb allClear)
    /\ (allSet = true <->
        forall i, 0 <= i -> Z.testbit q i = true -> Z.testbit d i = true)
    /\ (allClear = true <->
        forall i, 0 <= i -> Z.testbit q i && Z.testbit d i = false).
Proof.
  intros Hq Hd.
  exists (Z.eqb (Z.land q d) q), (Z.eqb (Z.land q d) 0).
  unfold obj, int. cbn [executeFieldQuery]. cbn.
  unfold bit_and, to_int32. cbn [to_number bind ret].
  rewrite !wrap32_small by assumption. cbn [bind ret strict_equal number_eqb].
  repeat split;
    try (now destruct (Z.eqb (Z.land q d) q));
    try (now destruct (Z.eqb (Z.land q d) 0)).
  - intros E i Hi Hqi. apply Z.eqb_eq in E.
    rewrite <- E, Z.land_spec in Hqi. apply andb_prop in Hqi. tauto.
  - intros Hbits. apply Z.eqb_eq. apply Z.bits_inj'. intros i Hi.
    rewrite Z.land_spec. destruct (Z.testbit q i) eqn:Hqi; [|reflexivity].
    now rewrite (Hbits i Hi Hqi).
  - intros E i Hi. apply Z.eqb_eq in E.
    rewrite <- Z.land_spec, E. apply Z.bits_0.
  - intros Hbits. apply Z.eqb_eq. apply Z.bits_inj'. intros i Hi.
    rewrite Z.land_spec, Z.bits_0. now apply Hbits.
Qed.

(** X18. The comparison operators on integers and on dates read as
    "the datum compared with the operand": [{$gt: q}] holds of [d] when
    [q < d], and so on; dates compare by their time values. *)
Theorem comparison_operators (date : bool) (q d : Z) :
  let v := fun z => if date then VDate z else int z in
  executeFieldQuery (obj [("$eq", v q)]) (v d) = Ok (d =? q)
  /\ executeFieldQuery (obj [("$ne", v q)]) (v d) = Ok (negb (d =? q))
  /\ executeFieldQuery (obj [("$gt", v q)]) (v d) = Ok (q <? d)
  /\ executeFieldQuery (obj [("$gte", v q)]) (v d) = Ok (q <=? d)
  /\ executeFieldQuery (obj [("$lt", v q)]) (v d) = Ok (d <? q)
  /\ executeFieldQuery (obj [("$lte", v q)]) (v d) = Ok (d <=? q).
Proof.
  cbv zeta. unfold obj, int.
  destruct date; cbn [executeFieldQuery]; cbn;
    rewrite !Z.leb_antisym;
    destruct (d =? q), (q <? d), (d <? q); repeat split; reflexivity.
Qed.

End OperatorFacts.

Section TopLevelFacts.
Import Query.
Import Operators.
Import Spec.
Context `{Host} `{Core}.

Lemma query_or_unfold data kt qs es ref env :
  executeQuery data (VObj kt (("$or", VArr qs) :: es)) ref env
  = (r <- reduceOr (fun q => executeQuery data q ref env) qs false ;;
     if r then executeQuery data (VObj kt es) ref env else Ok false).
Proof. reflexivity. Qed.

Lemma query_and_unfold data kt qs es ref env :
  executeQuery data (VObj kt (("$and", VArr qs) :: es)) ref env
  = (r <- reduceAnd (fun q => executeQuery data q ref env) qs true ;;
     if r then executeQuery data (VObj kt es) ref env else Ok false).
Proof. reflexivity. Qed.

Lemma query_nil data kt ref env :
  executeQuery data (VObj kt []) ref env = Ok true.
Proof. reflexivity. Qed.

(** X14. At the top level, with sub-queries that all evaluate, [$or]
    selects a row exactly when one sub-query does and [$and] exactly when
    all do.  Evaluation stops at the sub-query that decides: after
    sub-queries that fail, one that holds makes [$or] hold whatever
    follows, even what would raise; and dually for [$and]. *)
Theorem query_or_and_semantics
        (data : value) (ref : string) (env : value)
        (qs : list value) (bs : list bool) (q : value) (rest : list value) :
  mapR (fun x => executeQuery data x ref env) qs = Ok bs ->
  (executeQuery data (obj [("$or", VArr qs)]) ref env
   = Ok (existsb (fun b => b) bs)
   /\ executeQuery data (obj [("$and", VArr qs)]) ref env
      = Ok (forallb (fun b => b) bs))
  /\ (existsb (fun b => b) bs = false ->
      executeQuery data q ref env = Ok true ->
      executeQuery data (obj [("$or", VArr (qs ++ q :: rest))]) ref env
      = Ok true)
  /\ (forallb (fun b => b) bs = true ->
      executeQuery data q ref env = Ok false ->
      executeQuery data (obj [("$and", VArr (qs ++ q :: rest))]) ref env
      = Ok false).
Proof.
  intros Hbs. unfold obj.
  rewrite !query_or_unfold, !query_and_unfold, !query_nil.
  rewrite reduceOr_app, reduceAnd_app.
  rewrite (reduceOr_all _ _ Hbs), (reduceAnd_all _ _ Hbs). cbn [orb andb bind].
  split; [split|split].
  - now destruct (existsb _ bs).
  - now destruct (forallb _ bs).
  - intros -> Hq. cbn [reduceOr]. rewrite Hq. cbn [bind].
    now rewrite reduceOr_true.
  - intros -> Hq. cbn [reduceAnd]. rewrite Hq. cbn [bind].
    now rewrite reduceAnd_false.
Qed.

Lemma split_append_dot a b :
  split dot (a ++ String dot b) = split dot a ++ split dot b.
Proof.
  induction a as [|c a IH]; cbn [append split].
  - now rewrite Ascii.eqb_refl.
  - rewrite IH. destruct (Ascii.eqb c dot); [reflexivity|].
    destruct (split dot a) as [|x xs] eqn:E; [|reflexivity].
    exfalso. now apply (@split_nonempty dot a).
Qed.

(** X17. [getCell] follows a dotted key segment by segment: reading
    [a.b] is reading [a] and then reading [b] in what was found. *)
Theorem getCell_dotted (row : value) (a b : string) :
  getCell row (a ++ "." ++ b)
  = (r <- getCell row a ;; getCell r b).
Proof.
  unfold getCell. change ("." ++ b)%string with (String dot b).
  rewrite split_append_dot, fold_left_app.
  destruct (fold_left _ (split dot a) (Ok row)) as [r|e]; cbn [bind];
    [reflexivity|apply walk_throw].
Qed.

Lemma getCell_member kt es k :
  has_dot k = false -> inherited_key k = false ->
  getCell (VObj kt es) k = Ok (cell es k).
Proof.
  intros Hd Hi. unfold getCell, cell. rewrite (split_plain k Hd).
  cbn [fold_left bind get_prop]. rewrite Hi.
  now destruct (lookup k es).
Qed.

Lemma query_field_unfold data kt k v ref env :
  logical k = false ->
  executeQuery data (VObj kt [(k, v)]) ref env
  = (r <- fieldConjunct data k v ;; if r then Ok true else Ok false).
Proof.
  intros Hl. destruct (executeQuery_cons data kt k v ref env) as (c & Hc & E).
  rewrite E, (Hc Hl). reflexivity.
Qed.

(** X15. A field that is [null] or missing in the row: the query value
    [null] and [$exists: false] select the row, [$exists: true] does not,
    and no comparable query value selects it, the TypeError of reading
    the value of [null] being caught. *)
Theorem query_null_field
        (kt : option value) (es : entries) (k : string)
        (ref : string) (env : value) :
  has_dot k = false -> inherited_key k = false -> logical k = false ->
  isNullable (cell es k) = true ->
  executeQuery (VObj kt es) (obj [(k, VNull)]) ref env = Ok true
  /\ executeQuery (VObj kt es) (obj [(k, obj [("$exists", VBool false)])])
                  ref env = Ok true
  /\ executeQuery (VObj kt es) (obj [(k, obj [("$exists", VBool true)])])
                  ref env = Ok false
  /\ forall q, isComparable q = true ->
               executeQuery (VObj kt es) (obj [(k, q)]) ref env = Ok false.
Proof.
  intros Hd Hi Hl Hn. unfold obj.
  rewrite !(query_field_unfold _ _ _ _ _ _ Hl).
  unfold fieldConjunct. rewrite (getCell_member kt es k Hd Hi). cbn [bind].
  repeat split.
  - cbn. now rewrite Hn.
  - cbn. now rewrite Hn.
  - cbn. now rewrite Hn.
  - intros q Hq. rewrite (query_field_unfold _ _ _ _ _ _ Hl).
    unfold fieldConjunct. rewrite (getCell_member kt es k Hd Hi). cbn [bind].
    destruct (cell es k); try discriminate;
      destruct q; try discriminate; reflexivity.
Qed.

End TopLevelFacts.

(* ================================================================== *)
(** * Further properties of the types *)
(* ================================================================== *)

Section TypeFacts.
Context `{Core}.

Lemma fromField_string s :
  Type_.fromField (VStr s) = Ok (Type_.make [("type", VStr s)]).
Proof. reflexivity. Qed.


Lemma fromPrimitive_truthy x t :
  Type_.fromPrimitive x = Ok t -> truthy t = true.
Proof.
  destruct x as [| | | | | | | | | xs|kt es]; cbn [Type_.fromPrimitive];
    try discriminate; try (intros E; inversion E; reflexivity).
  destruct xs as [|y ys]; [intros E; inversion E; reflexivity|].
  destruct (Type_.fromPrimitive y); cbn [bind ret]; [|discriminate].
  intros E. inversion E. reflexivity.
Qed.

(** X20. The type inferred for an array that is not empty is an array
    type whose inner type, as [getInner] gives it without a key, is the
    type inferred for the first element. *)
Theorem fromPrimitive_array (x : value) (xs : list value) (T : value) :
  Type_.fromPrimitive (VArr (x :: xs)) = Ok T ->
  Type_.isArray T = true
  /\ exists t, Type_.fromPrimitive x = Ok t
               /\ Type_.getInner T None = Ok t.
Proof.
  cbn [Type_.fromPrimitive].
  destruct (Type_.fromPrimitive x) as [t|e] eqn:Ht; cbn [bind ret];
    [|discriminate].
  intros E. inversion E; subst. split; [reflexivity|].
  exists t. split; [reflexivity|].
  unfold Type_.getInner, Type_.Array, Type_.make, Type_.member.
  cbn [lookup String.eqb Ascii.eqb Bool.eqb].
  rewrite (fromPrimitive_truthy x Ht). reflexivity.
Qed.

Lemma fromField_truthy x t :
  Type_.fromField x = Ok t -> truthy t = true.
Proof.
  unfold Type_.fromField. destruct (Type_.isType x); [discriminate|].
  destruct x; try discriminate;
    try (intros E; inversion E; reflexivity);
    try (destruct (truthy (Type_.member _ "type")) eqn:E1;
         [intros E; inversion E; subst; exact E1|];
         destruct (truthy (Type_.kType (Type_.member _ "expr"))) eqn:E2;
         [intros E; inversion E; subst; exact E2|discriminate]).
Qed.

Lemma isType_truthy x : Type_.isType x = true -> truthy x = true.
Proof. destruct x; try discriminate. reflexivity. Qed.

(** X21. The object type built by [Type.Object] from the members [es]
    gives back, through [getInner] at a key of [es], the member there when
    it is a type, and otherwise the type that [fromField] makes of it. *)
Theorem Object_getInner (es : entries) (T : value) (k : string) (x : value) :
  Type_.Object (obj es) = Ok T ->
  lookup k es = Some x ->
  exists t,
    Type_.getInner T (Some k) = Ok t
    /\ (if Type_.isType x then t = x else Type_.fromField x = Ok t).
Proof.
  intros HT Hk. unfold Type_.Object in HT.
  cbn [obj for_in_entries] in HT.
  assert (forall es inner,
             fold_right
               (fun e acc =>
                  rest <- acc ;;
                  t <- (if Type_.isType (snd e) then Ok (snd e)
                        else Type_.fromField (snd e)) ;;
                  ret ((fst e, t) :: rest))
               (Ok []) es = Ok inner ->
             lookup k es = Some x ->
             exists t, lookup k inner = Some t /\ truthy t = true
                       /\ (if Type_.isType x then t = x
                           else Type_.fromField x = Ok t)) as Hgen.
  { clear. induction es as [|[k' x'] es IH]; intros inner; cbn [fold_right];
      [discriminate|].
    destruct (fold_right _ (Ok []) es) as [rest|e]; cbn [bind]; [|discriminate].
    cbn [fst snd lookup].
    destruct (String.eqb k k') eqn:Hkk.
    - intros E Hx. inversion Hx; subst x'.
      destruct (Type_.isType x) eqn:Hty; cbn [bind ret] in E.
      + inversion E; subst. cbn [lookup]. rewrite Hkk.
        exists x. auto using isType_truthy.
      + destruct (Type_.fromField x) as [t|e] eqn:Hf; cbn [bind ret] in E;
          [|discriminate].
        inversion E; subst. cbn [lookup]. rewrite Hkk.
        exists t. eauto using fromField_truthy.
    - intros E Hx.
      destruct (if Type_.isType x' then Ok x' else Type_.fromField x')
        as [t'|e]; cbn [bind ret] in E; [|discriminate].
      inversion E; subst. cbn [lookup]. rewrite Hkk.
      now apply IH. }
  destruct es as [|e0 es0]; [discriminate|]. cbv beta iota in HT.
  match type of HT with
  | context [fold_right ?f ?a ?l] =>
      destruct (fold_right f a l) as [inner|e] eqn:Hin
  end; cbn [bind ret] in HT; [|discriminate].
  destruct (Hgen (e0 :: es0) inner Hin Hk) as (t & Hl & Htruthy & Hspec).
  exists t. split; [|exact Hspec].
  inversion HT; subst T.
  unfold Type_.getInner, Type_.make, Type_.member.
  cbn [lookup String.eqb Ascii.eqb Bool.eqb negb truthy obj].
  unfold get_prop, obj. rewrite Hl. cbn [bind]. now rewrite Htruthy.
Qed.

End TypeFacts.

(* ================================================================== *)
(** * Further properties of the Mongo lowering *)
(* ================================================================== *)

Section FilterFacts.
Import Mongo.
Context `{Host} `{Core} `{Deps}.

Lemma obj_set_keys_nonempty {A} (es : dict A) k v : obj_set es k v <> [].
Proof.
  intros E. assert (In k (keys (obj_set es k v))) as Hin
      by (apply keys_obj_set; now left).
  rewrite E in Hin. destruct Hin.
Qed.

(** X22. [createFieldFilter] returns [false], [true], or a filter with
    at least one member, and the members of that filter are the condition
    on the key and the list [$and] of the conditions set aside: it never
    returns the empty filter. *)
Theorem createFieldFilter_shape
        (query : value) (key : string) (type : value) (r : value) :
  createFieldFilter query key type = Ok r ->
  r = VBool false \/ r = VBool true
  \/ exists es, r = obj es /\ es <> []
                /\ forall k, In k (keys es) -> k = key \/ k = "$and".
Proof.
  unfold createFieldFilter, createFieldFilterWith.
  destruct (transformFieldQuery query key [] type) as [[child filters]|e];
    cbn [bind]; [|discriminate].
  set (res0 := match child with VBool true => [] | _ => obj_set [] key child end).
  assert (forall k, In k (keys res0) -> k = key) as Hres0.
  { intros k. unfold res0. destruct child as [| |[]| | | | | | | |];
      rewrite ?obj_set_first; cbn; intuition. }
  set (res1 := match filters with
               | [] => res0
               | _ => obj_set res0 "$and" (VArr filters)
               end).
  assert (forall k, In k (keys res1) -> k = key \/ k = "$and") as Hres1.
  { intros k. unfold res1. destruct filters; [auto|].
    intros Hk. apply keys_obj_set in Hk. destruct Hk; auto. }
  assert (match res1 with [] => Ok (VBool true) | _ => Ok (obj res1) end
          = Ok r ->
          r = VBool true
          \/ exists es, r = obj es /\ es <> []
                        /\ forall k, In k (keys es) -> k = key \/ k = "$and")
    as Hend.
  { destruct res1 as [|e1 res1'] eqn:E; intros Hr; inversion Hr; subst;
      [now left|right].
    exists (e1 :: res1'). repeat split; [discriminate|exact Hres1]. }
  destruct child as [| |[]| | | | | | | |]; intros Hr;
    try (right; now apply Hend).
  inversion Hr. now left.
Qed.

End FilterFacts.

Section BuilderFacts.
Import Mongo.

Lemma to_uint_nonnil n : Nat.to_uint n <> Nil.
Proof.
  intros E. assert (n = 0%nat) as ->
      by (rewrite <- (DecimalNat.Unsigned.of_to n), E; reflexivity).
  discriminate.
Qed.

Lemma nat_to_string_inj n n' :
  nat_to_string n = nat_to_string n' -> n = n'.
Proof.
  unfold nat_to_string. intros E.
  apply (f_equal NilZero.uint_of_string) in E.
  rewrite !NilZero.usu in E by apply to_uint_nonnil. inversion E.
  now apply DecimalNat.Unsigned.to_uint_inj.
Qed.

(** X23. [createKey] never gives the same key twice: it always returns
    normally, advances the counter by one, and the keys of two builders
    whose counters differ are different; so the key of a later call is
    none of the earlier ones. *)
Theorem createKey_fresh (s : State) :
  exists k s',
    createKey s = Ok (k, s')
    /\ counter (builder s') = S (counter (builder s))
    /\ forall t k' t',
        createKey t = Ok (k', t') ->
        (counter (builder s) < counter (builder t))%nat ->
        String.eqb k k' = false.
Proof.
  unfold createKey, mbind, update, get_builder, mret. cbn.
  eexists. eexists. split; [reflexivity|]. split; [reflexivity|].
  intros t k' t' E Hlt. inversion E; subst. apply String.eqb_neq.
  intros Heq. inversion Heq as [Hn]. apply nat_to_string_inj in Hn. lia.
Qed.

End BuilderFacts.

Section BodyFacts.
Import Mongo.
Import Spec.
Import Bits.
Context `{Host}.

Lemma int32_shiftr z :
  in_int32 z <-> Z.shiftr z 31 = 0 \/ Z.shiftr z 31 = -1.
Proof.
  unfold in_int32. rewrite Z.shiftr_div_pow2 by lia.
  change (2 ^ 31) with 2147483648.
  pose proof (Z.div_mod z 2147483648 ltac:(lia)) as Hz.
  pose proof (Z.mod_pos_bound z 2147483648 ltac:(lia)) as Hr.
  lia.
Qed.

Lemma lor_in_int32 a b : in_int32 a -> in_int32 b -> in_int32 (Z.lor a b).
Proof.
  rewrite !int32_shiftr, Z.shiftr_lor.
  intros [-> | ->] [-> | ->]; cbn; auto.
Qed.

Lemma lxor_in_int32 a b : in_int32 a -> in_int32 b -> in_int32 (Z.lxor a b).
Proof.
  rewrite !int32_shiftr, Z.shiftr_lxor.
  intros [-> | ->] [-> | ->]; cbn; auto.
Qed.

Lemma number_fold (op : Z -> Z -> Z) (f : value -> value -> result Z) :
  (forall x y, in_int32 x -> in_int32 y -> f (int x) (int y) = Ok (op x y)) ->
  (forall x y, in_int32 x -> in_int32 y -> in_int32 (op x y)) ->
  forall zs z,
    in_int32 z -> Forall in_int32 zs ->
    fold_left (fun acc curr =>
                 prev <- acc ;; (r <- f prev curr ;; ret (int r)))
              (map int zs) (Ok (int z))
    = Ok (int (fold_left op zs z)).
Proof.
  intros Hf Hop. induction zs as [|y zs IH]; intros z Hz Hzs;
    cbn [map fold_left]; [reflexivity|].
  inversion Hzs; subst. cbn [bind]. rewrite Hf by assumption. cbn [bind ret].
  apply IH; auto.
Qed.

Lemma bigint_fold (op : Z -> Z -> Z) :
  forall zs z,
    fold_left (fun acc curr => prev <- acc ;; bigint_op op prev curr)
              (map numeral zs) (Ok (numeral z))
    = Ok (numeral (fold_left op zs z)).
Proof.
  assert (forall a b, bigint_op op (numeral a) (numeral b)
                      = Ok (numeral (op a b))) as Hstep.
  { intros a b. unfold bigint_op, numeral, toBigInt.
    now rewrite !numeral_round_trip. }
  induction zs as [|y zs IH]; intros z; cbn [map fold_left];
    [reflexivity|].
  cbn [bind]. rewrite Hstep. apply IH.
Qed.

(** X24. The function bodies that the lowering sends to an old server
    compute the bitwise operation: on 32-bit integers the body for
    numbers returns the AND, OR or XOR of all its arguments and the
    complement of its argument, and the body for big integers returns the
    decimal numeral of the same integer when it is given the numerals of
    the arguments. *)
Theorem function_bodies_agree (zs : list Z) (z : Z) :
  zs <> [] -> Forall in_int32 zs -> in_int32 z ->
  (run AndNumber (map int zs) = Ok (int (reduceZ Z.land zs))
   /\ run AndBigInt (map numeral zs) = Ok (numeral (reduceZ Z.land zs)))
  /\ (run OrNumber (map int zs) = Ok (int (reduceZ Z.lor zs))
      /\ run OrBigInt (map numeral zs) = Ok (numeral (reduceZ Z.lor zs)))
  /\ (run XorNumber (map int zs) = Ok (int (reduceZ Z.lxor zs))
      /\ run XorBigInt (map numeral zs) = Ok (numeral (reduceZ Z.lxor zs)))
  /\ (run NotNumber [int z] = Ok (int (Z.lnot z))
      /\ run NotBigInt [numeral z] = Ok (numeral (Z.lnot z))).
Proof.
  intros Hne Hzs Hz. destruct zs as [|z0 zs]; [congruence|].
  inversion Hzs; subst.
  unfold reduceZ, run, reduce1. cbn [map hd tl].
  assert (forall x, in_int32 x -> Query.to_int32 (int x) = Ok x) as Hint.
  { intros x Hx. unfold Query.to_int32. cbn [Query.to_number int bind ret].
    now rewrite wrap32_small. }
  repeat split.
  - apply number_fold; auto using land_in_int32.
    intros x y Hx Hy. unfold Query.bit_and. now rewrite !Hint.
  - apply bigint_fold.
  - apply number_fold; auto using lor_in_int32.
    intros x y Hx Hy. unfold bit_or. now rewrite !Hint.
  - apply bigint_fold.
  - apply number_fold; auto using lxor_in_int32.
    intros x y Hx Hy. unfold bit_xor. now rewrite !Hint.
  - apply bigint_fold.
  - now rewrite Hint.
  - unfold numeral, toBigInt. now rewrite numeral_round_trip.
Qed.

End BodyFacts.

Section UpdateFacts.
Import Mongo.
Context `{Host} `{Core} `{Deps}.

(** X25. A string that starts with a dollar sign never reaches the
    server as a field path: in a slot that is untyped or of type [string],
    [toUpdateExpr] wraps it in [$literal], at the root of an update and as
    a member of an object with typed members, and leaves the builder as it
    is.  A string that does not start with a dollar sign is left as it is
    in an untyped slot. *)
Theorem dollar_string_literal (text : string) :
  isEvalExpr (VStr text) = false ->
  (startsWith text "$" = true ->
   (forall type root s,
       Type_.type_is type "string" = true \/ truthy type = false ->
       toUpdateExpr (VStr text) type root s
       = Ok (obj [("$literal", VStr text)], s))
   /\ (forall kt k type inner root s,
          isEvalExpr (VObj kt [(k, VStr text)]) = false ->
          truthy type = true ->
          truthy (Type_.member type "inner") = true ->
          Type_.getInner type (Some k) = Ok inner ->
          Type_.type_is inner "string" = true \/ truthy inner = false ->
          toUpdateExpr (VObj kt [(k, VStr text)]) type root s
          = Ok (obj [(k, obj [("$literal", VStr text)])], s)))
  /\ (startsWith text "$" = false ->
      forall root s,
        toUpdateExpr (VStr text) VUndefined root s = Ok (VStr text, s)).
Proof.
  intros He. split.
  - intros Hd.
    assert (forall type root s,
               Type_.type_is type "string" = true \/ truthy type = false ->
               toUpdateExpr (VStr text) type root s
               = Ok (obj [("$literal", VStr text)], s)) as Hroot.
    { intros type root s Ht. cbn [toUpdateExpr isNullable]. rewrite He, Hd.
      destruct Ht as [-> | ->]; [|rewrite orb_true_r]; reflexivity. }
    split; [exact Hroot|].
    intros kt k type inner root s He' Ht Hi Hg Hinner.
    remember (VStr text) as v eqn:Hv.
    simpl. rewrite He', Ht, Hi. rewrite !andb_false_r. simpl.
    unfold mbind, lift. rewrite Hg.
    rewrite (Hroot inner false s Hinner). reflexivity.
  - intros Hd root s. cbn [toUpdateExpr isNullable]. rewrite He, Hd.
    cbn. reflexivity.
Qed.

End UpdateFacts.

(* ================================================================== *)
(** * Further properties of registration and creation *)
(* ================================================================== *)

Section CreateFacts.
Import Spec.
Import Seed.
Context `{Host} `{Core}.

Lemma extend_fields_spec : forall src fs dep fs',
  Model.extend_fields fs dep src = (fs', Ok tt) ->
  NoDup (keys src) ->
  (forall k s, In (k, s) src ->
               exists f, Field.parse s = Ok f
                         /\ lookup k fs' = Some (Field.set_deprecated f dep))
  /\ (forall k, ~ In k (keys src) -> lookup k fs' = lookup k fs).
Proof.
  induction src as [|[key s] src IH]; intros fs dep fs';
    cbn [Model.extend_fields].
  - intros E _. inversion E; subst. split; [intros k s []|reflexivity].
  - intros E Hnd. inversion Hnd as [|? ? Hfresh Hnd']; subst.
    destruct (Field.parse s) as [f|e] eqn:Hp; [|discriminate].
    destruct (String.eqb key "__proto__"); [discriminate|].
    destruct (IH _ _ _ E Hnd') as (Hin & Hout). split.
    + intros k s0 [Heq|Hk].
      * inversion Heq; subst. exists f. split; [exact Hp|].
        rewrite (Hout k Hfresh), lookup_obj_set.
        now rewrite String.eqb_refl.
      * eauto.
    + intros k Hk.
      rewrite Hout by (intros Hc; apply Hk; now right).
      rewrite lookup_obj_set.
      destruct (String.eqb_spec k key) as [->|_]; [|reflexivity].
      exfalso. apply Hk. now left.
Qed.

(** X26. When [extend] returns normally, each field given is registered
    as [Field.parse] reads its definition, marked deprecated exactly when
    a migration callback is given, and the fields that are not given are
    left as they were. *)
Theorem extend_registers
        (m : Model.t) (fs : dict Field.source) (config : Model.Config) :
  snd (Model.extend m fs config) = Ok tt ->
  NoDup (keys fs) ->
  (forall k s,
      In (k, s) fs ->
      exists f,
        Field.parse s = Ok f
        /\ lookup k (Model.fields (fst (Model.extend m fs config)))
           = Some (Field.set_deprecated
                     f (match Model.c_callback config with
                        | Some cb => truthy cb
                        | None => false
                        end)))
  /\ (forall k, ~ In k (keys fs) ->
                lookup k (Model.fields (fst (Model.extend m fs config)))
                = lookup k (Model.fields m)).
Proof.
  unfold Model.extend.
  destruct (Model.extend_fields (Model.fields m) _ fs) as [fields' parsed]
    eqn:E.
  destruct parsed as [[]|e]; [|discriminate].
  match goal with
  | |- context [Model.primary_mismatch ?M] =>
      destruct (Model.primary_mismatch M)
  end; [discriminate|].
  cbn [fst snd Model.fields]. intros _ Hnd.
  exact (extend_fields_spec _ _ _ E Hnd).
Qed.

Lemma seeds_seeded m k v :
  seeds (makeArray (Model.primary m)) (Model.fields m) k v
  <-> seeded m k = Some v.
Proof.
  unfold seeds, seeded. split.
  - intros (f & i & -> & Hd & Hp & -> & -> & ->).
    apply string_in_not_In in Hp. rewrite Hp.
    now destruct (Field.deprecated f) as [[]|].
  - destruct (lookup k (Model.fields m)) as [f|]; [|discriminate].
    destruct (match Field.deprecated f with Some true => true | _ => false end)
      eqn:Hd; [discriminate|].
    destruct (string_in k (makeArray (Model.primary m))) eqn:Hp;
      [discriminate|].
    destruct (Field.initial f) as [i|] eqn:Hi; [|discriminate].
    destruct (isNullable i) eqn:Hn; [discriminate|].
    intros E. inversion E; subst. exists f, i.
    repeat split; auto.
    + intros Hs. rewrite Hs in Hd. discriminate.
    + now apply string_in_not_In.
Qed.

Lemma keys_replace {A} k (v : A) es : keys (replace k v es) = keys es.
Proof.
  induction es as [|[k' v'] es IH]; cbn [replace]; [reflexivity|].
  destruct (String.eqb k k'); cbn [keys map fst]; [reflexivity|].
  f_equal. exact IH.
Qed.

Lemma NoDup_obj_set {A} (es : dict A) k v :
  array_index k = None -> NoDup (keys es) -> NoDup (keys (obj_set es k v)).
Proof.
  intros Hi Hnd. unfold obj_set, has_key.
  destruct (lookup k es) eqn:Hl.
  - now rewrite keys_replace.
  - rewrite Hi. unfold keys. rewrite map_app. cbn [map fst].
    apply NoDup_app; [assumption|repeat constructor; intros []|].
    intros x Hx [<-|[]]. apply lookup_None_keys in Hl. tauto.
Qed.

Lemma spread_spec (b : entries) : forall a,
  (forall k, In k (keys b) -> array_index k = None) ->
  NoDup (keys a) -> NoDup (keys b) ->
  NoDup (keys (spread a b))
  /\ (forall k, In k (keys (spread a b)) -> In k (keys a) \/ In k (keys b))
  /\ forall k, lookup k (spread a b)
               = match lookup k b with
                 | Some v => Some v
                 | None => lookup k a
                 end.
Proof.
  unfold spread. induction b as [|[k0 v0] b IH]; intros a Hidx Ha Hb;
    cbn [fold_left].
  - repeat split; auto.
  - inversion Hb as [|? ? Hfresh Hb']; subst. cbn [fst snd].
    destruct (IH (obj_set a k0 v0)) as (Hnd & Hkeys & Hlook).
    + intros k Hk. apply Hidx. now right.
    + apply NoDup_obj_set; [apply Hidx; now left|assumption].
    + assumption.
    + split; [exact Hnd|]. split.
      * intros k Hk. destruct (Hkeys k Hk) as [Hin|Hin].
        -- apply keys_obj_set in Hin. destruct Hin as [->|Hin];
             [right; now left|now left].
        -- right. now right.
      * intros k. rewrite Hlook, lookup_obj_set. cbn [lookup].
        destruct (String.eqb_spec k k0) as [->|_]; [|reflexivity].
        apply lookup_None_keys in Hfresh. now rewrite Hfresh.
Qed.

(** [parse] on keys without a dot writes the members one by one. *)
Lemma parse_loop_flat m :
  (forall k f, lookup k (Model.fields m) = Some f ->
               Field.type f <> "time") ->
  forall es kt acc,
    (forall k, In k (keys es) -> plain_key k = true) ->
    Model.parse_loop m es (VObj kt acc) = Ok (VObj kt (spread acc es)).
Proof.
  intros Htime.
  assert (forall key x, Model.resolveValue m key x = Ok x) as Hrv.
  { intros key x. unfold Model.resolveValue.
    destruct (isNullable x); [reflexivity|].
    destruct (lookup key (Model.fields m)) as [f|] eqn:Hf; [|reflexivity].
    apply Htime in Hf. apply String.eqb_neq in Hf. now rewrite Hf. }
  induction es as [|[k x] es IH]; intros kt acc Hes; [reflexivity|].
  cbn [Model.parse_loop]. cbv zeta.
  assert (plain_key k = true) as Hk by (apply Hes; now left).
  destruct (plain_key_own k Hk) as (_ & Hinh & Hproto).
  rewrite (split_plain k (plain_key_no_dot k Hk)).
  cbn [removelast last Model.set_path]. rewrite Hrv. cbn [bind set_prop].
  apply String.eqb_neq in Hproto. rewrite Hproto. cbn [bind].
  rewrite IH by (intros k' Hk'; apply Hes; now right).
  reflexivity.
Qed.

(** X27. The members of a created row, for a model without dotted
    field names and without a field of type [time], and data with plain
    keys: [create] returns normally, a key of the data holds the value
    the data gives, any other key holds the deep copy of the initial
    value that the loop of [create] seeds, and there is nothing else. *)
Theorem create_members (m : Model.t) (d : entries) :
  NoDup (keys (Model.fields m)) ->
  (forall k, In k (keys (Model.fields m)) -> plain_key k = true) ->
  (forall k f, lookup k (Model.fields m) = Some f ->
               Field.type f <> "time") ->
  NoDup (keys d) ->
  (forall k, In k (keys d) -> plain_key k = true) ->
  exists R,
    Model.create m (Some (obj d)) = Ok (obj R)
    /\ forall k, lookup k R
                 = match lookup k d with
                   | Some v => Some v
                   | None => seeded m k
                   end.
Proof.
  intros Hnd Hplain Htime Hd Hdplain.
  assert (~ In "__proto__" (keys (Model.fields m))) as Hproto.
  { intros Hin. apply Hplain in Hin. discriminate. }
  destruct (@create_loop_spec (makeArray (Model.primary m))
                              (Model.fields m) [] Hnd Hproto)
    as (seed & Hseed & Hspec); [intros k []|].
  assert (forall k, lookup k seed = seeded m k) as Hlook.
  { intros k. destruct (lookup k seed) as [v|] eqn:E.
    - symmetry. apply seeds_seeded. apply Hspec in E.
      destruct E as [E|E]; [discriminate|exact E].
    - destruct (seeded m k) as [v|] eqn:E'; [|reflexivity].
      apply seeds_seeded in E'. rewrite <- E. apply Hspec. now right. }
  assert (forall k, In k (keys seed) -> In k (keys (Model.fields m)))
    as Hsub.
  { intros k Hk. destruct (lookup k seed) as [v|] eqn:E.
    - rewrite Hlook in E. unfold seeded in E.
      destruct (lookup k (Model.fields m)) eqn:Hf; [|discriminate].
      eapply lookup_Some_keys; eassumption.
    - apply lookup_None_keys in E. contradiction. }
  assert (forall k, plain_key k = true -> array_index k = None) as Hidx.
  { intros k Hk. now destruct (plain_key_own k Hk). }
  assert (NoDup (keys seed)) as Hndseed.
  { (* the seed is built from the empty object by assignments *)
    assert (forall fs acc seed',
               (forall k, In k (keys fs) -> array_index k = None) ->
               NoDup (keys acc) ->
               Model.create_loop (makeArray (Model.primary m)) fs acc
               = Ok seed' -> NoDup (keys seed')) as Hgen.
    { induction fs as [|[key f] fs IH]; intros acc seed' Hi Hacc;
        cbn [Model.create_loop].
      - intros E. inversion E; subst. assumption.
      - assert (forall k, In k (keys fs) -> array_index k = None) as Hi'
            by (intros k Hk; apply Hi; now right).
        destruct (match Field.deprecated f with
                  | Some true => true | _ => false end); [now apply IH|].
        destruct (negb (string_in key (makeArray (Model.primary m)))
                  && negb (match Field.initial f with
                           | Some i => isNullable i
                           | None => true
                           end)); [|now apply IH].
        unfold assign. destruct (String.eqb key "__proto__");
          [discriminate|]. cbn [bind].
        apply IH; [assumption|].
        apply NoDup_obj_set; [apply Hi; now left|assumption]. }
    apply (Hgen (Model.fields m) [] seed); auto using NoDup_nil. }
  destruct (@spread_spec d seed) as (Hnd1 & Hkeys1 & Hlook1); auto.
  assert (forall k, In k (keys (spread seed d)) -> plain_key k = true)
    as Hplain1.
  { intros k Hk. destruct (Hkeys1 k Hk); auto. }
  destruct (@spread_spec (spread seed d) []) as (_ & _ & Hlook2);
    auto using NoDup_nil.
  exists (spread [] (spread seed d)). split.
  - unfold Model.create. rewrite Hseed. cbn [bind for_in_entries obj].
    unfold Model.parse. cbn [for_in_entries obj].
    now apply parse_loop_flat.
  - intros k. rewrite Hlook2, Hlook1, Hlook. cbn [lookup].
    destruct (lookup k d); [reflexivity|]. now destruct (seeded m k).
Qed.

End CreateFacts.

(* ================================================================== *)
(** * The further properties at sample inputs *)
(* ================================================================== *)

Section FurtherInstances.
Import Spec.
Import Operators.
Import Bits.
Import Seed.

Ltac absent :=
  let E := fresh in
  intros E; cbn in E;
  repeat (destruct E as [E|E]; [discriminate|]); exact E.

Ltac all_distinct :=
  repeat (constructor; [absent|]); constructor.

(** X1 at a nested record of the sample model. *)
Lemma format_strict_refines_witness :
  @Model.format Sample.core Sample.events
    (obj [("id", int 1); ("a", obj [("b", int 2)])]) true "" []
  = Ok [("id", int 1); ("a.b", int 2)]
  /\ @Model.format Sample.core Sample.events
       (obj [("id", int 1); ("a", obj [("b", int 2)])]) false "" []
     = Ok [("id", int 1); ("a.b", int 2)].
Proof.
  split; [reflexivity|].
  apply (@format_strict_refines Sample.core). reflexivity.
Defined.

(** X2 at a record with a member that is not declared. *)
Lemma format_keys_declared_witness :
  In "a.b" (keys (@nil (string * value)))
  \/ @declared Sample.events "a.b" = true
  \/ Model.under_field (keys (Model.fields Sample.events)) "a.b" = true.
Proof.
  apply (@format_keys_declared Sample.core Sample.events
           (obj [("id", int 1); ("zzz", int 3); ("a", obj [("b", int 2)])])
           false "" [] [("id", int 1); ("a.b", int 2)] "a.b").
  - reflexivity.
  - cbn. tauto.
Defined.

(** X3 at a flat row of the sample model, in strict mode. *)
Lemma format_declared_row_witness :
  @Model.format Sample.core Sample.events
    (obj [("id", int 1); ("a.b", int 2)]) true "" []
  = Ok [("id", int 1); ("a.b", int 2)].
Proof.
  apply (@format_declared_row Sample.core).
  - all_distinct.
  - intros k Hk. cbn in Hk. destruct Hk as [<-|[<-|[]]];
      repeat split; try reflexivity; discriminate.
Defined.

(** X4 at the key [a.b]. *)
Lemma parse_then_getCell_witness :
  @Model.parse Sample.host Sample.events (obj [("a.b", int 2)])
  = Ok (obj [("a", obj [("b", int 2)])])
  /\ (r <- @Model.parse Sample.host Sample.events (obj [("a.b", int 2)]) ;;
      Query.getCell r "a.b") = Ok (int 2).
Proof.
  apply (@parse_then_getCell Sample.host Sample.events "a.b" (int 2) (int 2)).
  - repeat constructor.
  - reflexivity.
Defined.

(** X5 at a member that holds a number. *)
Lemma parse_path_through_member_witness :
  @Model.parse Sample.host Sample.events
    (obj [("x", int 1); ("x.y", int 2)])
  = Throw (TypeError "Cannot create property on a primitive").
Proof.
  apply (@parse_path_through_member Sample.host Sample.events "x" "y"
           (int 1) (int 2) (int 2)); reflexivity.
Defined.

(** X6 at a time of day. *)
Lemma resolveValue_idempotent_witness :
  @Model.resolveValue Sample.host Sample.events "at" (VDate 3600000)
  = Ok (VDate 3600000).
Proof.
  apply (@resolveValue_idempotent Sample.host Sample.events "at"
           (VDate 90000000)).
  reflexivity.
Defined.



(** X9 at the model of users, registered twice. *)
Lemma extend_unique_idempotent_witness :
  Model.unique
    (fst (@Model.extend Sample.host
            (fst (@Model.extend Sample.host (Model.new "user")
                                Rows.columns Rows.named))
            [] Rows.named))
  = Model.unique (fst (@Model.extend Sample.host (Model.new "user")
                                     Rows.columns Rows.named)).
Proof.
  apply (@extend_unique_idempotent Sample.host (Model.new "user")
           Rows.columns [] Rows.named Rows.named [One "name"]).
  - reflexivity.
  - reflexivity.
  - repeat constructor. now exists "name".
Defined.


(** X12 at two numbers. *)
Lemma field_or_and_semantics_witness :
  @Query.executeFieldQuery Sample.host Sample.core
    (obj [("$or", VArr [int 1; int 2])]) (int 2) = Ok true
  /\ @Query.executeFieldQuery Sample.host Sample.core
       (obj [("$and", VArr [int 1; int 2])]) (int 2) = Ok false.
Proof.
  apply (@field_or_and_semantics Sample.host Sample.core
           [int 1; int 2] [false; true] (int 2)).
  reflexivity.
Defined.

(** X14 at a row with one member. *)
Lemma query_or_and_semantics_witness :
  @Query.executeQuery Sample.host Sample.core (obj [("x", int 1)])
    (obj [("$or", VArr [obj [("x", int 2)]; obj [("x", int 1)]; VNull])])
    "t" (obj [])
  = Ok true.
Proof.
  destruct (@query_or_and_semantics Sample.host Sample.core
              (obj [("x", int 1)]) "t" (obj [])
              [obj [("x", int 2)]] [false] (obj [("x", int 1)]) [VNull])
    as (_ & Hor & _); [reflexivity|].
  apply Hor; reflexivity.
Defined.

(** X15 at a row whose member [x] is null. *)
Lemma query_null_field_witness :
  @Query.executeQuery Sample.host Sample.core (obj [("x", VNull)])
    (obj [("x", VNull)]) "t" (obj []) = Ok true
  /\ @Query.executeQuery Sample.host Sample.core (obj [("x", VNull)])
       (obj [("x", obj [("$exists", VBool false)])]) "t" (obj []) = Ok true
  /\ @Query.executeQuery Sample.host Sample.core (obj [("x", VNull)])
       (obj [("x", obj [("$exists", VBool true)])]) "t" (obj []) = Ok false
  /\ forall q, Query.isComparable q = true ->
               @Query.executeQuery Sample.host Sample.core
                 (obj [("x", VNull)]) (obj [("x", q)]) "t" (obj [])
               = Ok false.
Proof.
  apply (@query_null_field Sample.host Sample.core None [("x", VNull)] "x"
           "t" (obj [])); reflexivity.
Defined.

(** X16 at the mask 5 and the datum 7. *)
Lemma bit_tests_witness :
  exists allSet allClear : bool,
    @Query.executeFieldQuery Sample.host Sample.core
      (obj [("$bitsAllSet", int 5)]) (int 7) = Ok allSet
    /\ @Query.executeFieldQuery Sample.host Sample.core
         (obj [("$bitsAllClear", int 5)]) (int 7) = Ok allClear
    /\ @Query.executeFieldQuery Sample.host Sample.core
         (obj [("$bitsAnyClear", int 5)]) (int 7) = Ok (negb allSet)
    /\ @Query.executeFieldQuery Sample.host Sample.core
         (obj [("$bitsAnySet", int 5)]) (int 7) = Ok (negb allClear)
    /\ (allSet = true <->
        forall i, 0 <= i -> Z.testbit 5 i = true -> Z.testbit 7 i = true)
    /\ (allClear = true <->
        forall i, 0 <= i -> Z.testbit 5 i && Z.testbit 7 i = false).
Proof.
  apply (@bit_tests Sample.host Sample.core 5 7); unfold in_int32; lia.
Defined.

(** X20 at an array of numbers. *)
Lemma fromPrimitive_array_witness :
  Type_.isArray (Type_.Array Type_.Number) = true
  /\ exists t, Type_.fromPrimitive (int 1) = Ok t
               /\ Type_.getInner (Type_.Array Type_.Number) None = Ok t.
Proof.
  apply (@fromPrimitive_array (int 1) [int 2]). reflexivity.
Defined.

(** X21 at an object type with a type and a field name. *)
Lemma Object_getInner_witness :
  exists T,
    Type_.Object (obj [("n", Type_.Number); ("s", VStr "string")]) = Ok T
    /\ exists t,
        Type_.getInner T (Some "s") = Ok t
        /\ Type_.fromField (VStr "string") = Ok t.
Proof.
  eexists. split; [reflexivity|].
  apply (@Object_getInner [("n", Type_.Number); ("s", VStr "string")]
           _ "s" (VStr "string")); reflexivity.
Defined.

(** X22 at a comparable query value. *)
Lemma createFieldFilter_shape_witness :
  obj [("x", obj [("$eq", int 5)])] = VBool false
  \/ obj [("x", obj [("$eq", int 5)])] = VBool true
  \/ exists es, obj [("x", obj [("$eq", int 5)])] = obj es /\ es <> []
                /\ forall k, In k (keys es) -> k = "x" \/ k = "$and".
Proof.
  apply (@createFieldFilter_shape Sample.core Sample.deps
           (int 5) "x" VUndefined).
  reflexivity.
Defined.

(** X24 at the arguments 6 and 3, and at 5. *)
Lemma function_bodies_agree_witness :
  (@Mongo.run Sample.host Mongo.AndNumber (map int [6; 3]) = Ok (int 2)
   /\ @Mongo.run Sample.host Mongo.AndBigInt (map numeral [6; 3])
      = Ok (numeral 2))
  /\ (@Mongo.run Sample.host Mongo.OrNumber (map int [6; 3]) = Ok (int 7)
      /\ @Mongo.run Sample.host Mongo.OrBigInt (map numeral [6; 3])
         = Ok (numeral 7))
  /\ (@Mongo.run Sample.host Mongo.XorNumber (map int [6; 3]) = Ok (int 5)
      /\ @Mongo.run Sample.host Mongo.XorBigInt (map numeral [6; 3])
         = Ok (numeral 5))
  /\ (@Mongo.run Sample.host Mongo.NotNumber [int 5] = Ok (int (-6))
      /\ @Mongo.run Sample.host Mongo.NotBigInt [numeral 5]
         = Ok (numeral (-6))).
Proof.
  apply (@function_bodies_agree Sample.host [6; 3] 5).
  - discriminate.
  - repeat constructor; unfold in_int32; lia.
  - unfold in_int32; lia.
Defined.

(** X25 at the strings [$name] and [name]. *)
Lemma dollar_string_literal_witness :
  (forall root s,
      @Mongo.toUpdateExpr Sample.core Sample.deps (VStr "$name") VUndefined
                          root s
      = Ok (obj [("$literal", VStr "$name")], s))
  /\ (forall root s,
         @Mongo.toUpdateExpr Sample.core Sample.deps (VStr "name") VUndefined
                             root s
         = Ok (VStr "name", s)).
Proof.
  split.
  - intros root s.
    destruct (@dollar_string_literal Sample.core Sample.deps "$name")
      as (Hd & _); [reflexivity|].
    destruct (Hd eq_refl) as (Hroot & _). apply Hroot. now right.
  - destruct (@dollar_string_literal Sample.core Sample.deps "name")
      as (_ & Hn); [reflexivity|].
    apply Hn. reflexivity.
Defined.

(** X26 at the registration of the model of users. *)
Lemma extend_registers_witness :
  (forall k s,
      In (k, s) Rows.columns ->
      exists f,
        @Field.parse Sample.host s = Ok f
        /\ lookup k (Model.fields Rows.users)
           = Some (Field.set_deprecated f false))
  /\ (forall k, ~ In k (keys Rows.columns) ->
                lookup k (Model.fields Rows.users) = None).
Proof.
  apply (@extend_registers Sample.host (Model.new "user") Rows.columns
           Rows.named).
  - reflexivity.
  - all_distinct.
Defined.

(** X27 at the model of users and data that names the user. *)
Lemma create_members_witness :
  exists R,
    @Model.create Sample.host Rows.users (Some (obj [("name", VStr "x")]))
    = Ok (obj R)
    /\ forall k, lookup k R
                 = match lookup k [("name", VStr "x")] with
                   | Some v => Some v
                   | None => seeded Rows.users k
                   end.
Proof.
  apply (@create_members Sample.host Rows.users [("name", VStr "x")]).
  - all_distinct.
  - intros k Hk. cbn in Hk. destruct Hk as [<-|[<-|[<-|[]]]]; reflexivity.
  - intros k f Hl.
    let fs := eval vm_compute in (Model.fields Rows.users) in
    change (Model.fields Rows.users) with fs in Hl.
    cbn [lookup] in Hl.
    destruct (String.eqb k "id"); [inversion Hl; discriminate|].
    destruct (String.eqb k "name"); [inversion Hl; discriminate|].
    destruct (String.eqb k "tags"); [inversion Hl; discriminate|].
    discriminate.
  - all_distinct.
  - intros k Hk. cbn in Hk. destruct Hk as [<-|[]]; reflexivity.
Defined.

End FurtherInstances.

(* ================================================================== *)
(** * Further properties: accumulated filters, lists, nested types *)
(* ================================================================== *)

Section GrowthFacts.
Import Mongo.
Import Operators.
Context `{Host} `{Core} `{Deps}.

Lemma grows_refl f : grows f f.
Proof. exists []. now rewrite app_nil_r. Qed.

Lemma grows_trans f g h : grows f g -> grows g h -> grows f h.
Proof. intros (a & ->) (b & ->). exists (a ++ b). now rewrite app_assoc. Qed.

Lemma grows_after f x g : grows (f ++ x) g -> grows f g.
Proof. intros (a & ->). exists (x ++ a). now rewrite app_assoc. Qed.

Ltac grow_step :=
  match goal with
  | |- Ok _ = Ok _ -> _ =>
      let E := fresh "E" in
      intros E; inversion E; subst; eauto using grows_refl
  | |- Throw _ = Ok _ -> _ => discriminate
  | |- bind ?c _ = _ -> _ => destruct c as [?|?]; cbn [bind]; unfold ret
  | |- (if ?b then _ else _) = _ -> _ => destruct b
  | |- match ?v with _ => _ end = _ -> _ => destruct v
  | |- _ = Ok _ -> _ =>
      let E := fresh "E" in
      intros E; eauto using grows_refl, grows_after, grows_trans
  end.

(** X28. [transformFieldQuery] never drops a condition that has been set
    aside: the list of filters it returns is the list it was given,
    followed by the conditions it adds; this holds through [$and], [$or],
    [$not], [$el] and [$regexFor], at any depth. *)
Theorem transformFieldQuery_grows :
  forall (q : value) (key : string) (filters : list value) (type r : value)
         (filters' : list value),
    transformFieldQuery q key filters type = Ok (r, filters') ->
    exists extra, filters' = filters ++ extra.
Proof.
  change (forall q key filters type r filters',
             transformFieldQuery q key filters type = Ok (r, filters') ->
             grows filters filters').
  induction q as [q IHq] using value_size_ind.
  intros key filters type r filters'.
  destruct q as [| | | | | | | | | xs|kt es];
    cbn [transformFieldQuery Query.isComparable is_object_id orb];
    try solve [repeat grow_step].
  match goal with
  | |- ?L es [] filters = _ -> _ => set (loop := L)
  end.
  assert (forall es' res f r f',
             incl es' es -> loop es' res f = Ok (r, f') -> grows f f')
    as Hloop.
  { induction es' as [|[prop q] es' IH]; intros res f r0 f0 Hincl.
    - unfold loop. repeat grow_step.
    - assert (incl es' es) as Hincl'
          by (intros e He; apply Hincl; now right).
      assert (In (prop, q) es) as Hin by (apply Hincl; now left).
      pose proof (fun res f r f' => IH res f r f' Hincl') as IH'. clear IH.
      pose proof (fun key filters type r filters' =>
                    IHq q (size_member kt es prop q Hin)
                        key filters type r filters') as IHel.
      clear IHq Hincl Hin.
      unfold loop at 1. lazy beta iota fix. fold loop.
      destruct (String.eqb prop "$and").
      { destruct q as [| | | | | | | | | items|];
          try solve [repeat grow_step].
        clear IHel. revert f.
        induction items as [|item items IHitems]; intros f.
        - grow_step.
        - repeat grow_step. }
      destruct (String.eqb prop "$or"); [repeat grow_step|].
      destruct (String.eqb prop "$not"); [repeat grow_step|].
      destruct (String.eqb prop "$el").
      { destruct (transformFieldQuery q key f VUndefined) as [[c fs]|e]
          eqn:Et; cbn [bind fst snd]; [|discriminate].
        apply IHel in Et. repeat grow_step. }
      repeat grow_step. }
  intros E. eapply Hloop; [apply incl_refl|exact E].
Qed.

End GrowthFacts.

Section ListFacts.
Import Query.
Import Operators.
Context `{Host} `{Core}.

Lemma field_el_unfold kt q es items :
  executeFieldQuery (VObj kt (("$el", q) :: es)) (VArr items)
  = (r <- someOf (fun item => executeFieldQuery q item) items ;;
     if r then executeFieldQuery (VObj kt es) (VArr items) else Ok false).
Proof. reflexivity. Qed.

Lemma someOf_all f items bs :
  mapR f items = Ok bs -> someOf f items = Ok (existsb (fun b => b) bs).
Proof.
  revert bs. induction items as [|x items IH]; intros bs;
    cbn [mapR someOf].
  - intros E. inversion E. reflexivity.
  - destruct (f x) as [b|e]; cbn [bind]; [|discriminate].
    destruct (mapR f items) as [bs'|e]; cbn [bind ret]; [|discriminate].
    intros E. inversion E; subst. cbn [existsb].
    destruct b; [reflexivity|]. now apply IH.
Qed.

(** X29. On a list, [$el] holds exactly when the query holds of some
    item (the query evaluating on every item) and [$size] exactly when
    the list has the given length; on a number [$el] raises a
    TypeError. *)
Theorem el_size_semantics
        (q : value) (items : list value) (bs : list bool) (n : Z)
        (x : number) :
  mapR (fun item => executeFieldQuery q item) items = Ok bs ->
  executeFieldQuery (obj [("$el", q)]) (VArr items)
  = Ok (existsb (fun b => b) bs)
  /\ executeFieldQuery (obj [("$size", int n)]) (VArr items)
     = Ok (Z.of_nat (List.length items) =? n)
  /\ executeFieldQuery (obj [("$el", q)]) (VNum x)
     = Throw (TypeError "some is not a function").
Proof.
  intros Hbs. unfold obj. split; [|split].
  - rewrite field_el_unfold, (someOf_all _ _ Hbs).
    cbn. now destruct (existsb _ bs).
  - cbn. now destruct (Z.of_nat (List.length items) =? n).
  - reflexivity.
Qed.

End ListFacts.

Section InnerFacts.
Import Spec.
Context `{Core}.

Lemma getInner_segment t k :
  has_dot k = false ->
  Type_.getInner t (Some k) = Type_.getInnerSegment t (Some k).
Proof.
  intros Hk. unfold Type_.getInner, Type_.getInnerSegment.
  unfold has_dot in Hk. rewrite Hk. reflexivity.
Qed.

(** X30. [getInner] follows a dotted key through nested object types:
    when the inner types have no member under the whole key [a.b], the
    inner type at [a.b] is the inner type at [b] of the inner type at
    [a]. *)
Theorem getInner_dotted (type : value) (a b : string) (direct : value) :
  has_dot a = false -> has_dot b = false ->
  truthy (Type_.member type "inner") = true ->
  get_prop (Type_.member type "inner") (a ++ "." ++ b) = Ok direct ->
  truthy direct = false ->
  Type_.getInner type (Some (a ++ "." ++ b)%string)
  = (t <- Type_.getInner type (Some a) ;; Type_.getInner t (Some b)).
Proof.
  intros Ha Hb Hinner Hdirect Hfalsy.
  rewrite (getInner_segment type a Ha).
  unfold Type_.getInner at 1. rewrite Hinner, Hdirect. cbn [negb bind].
  rewrite Hfalsy.
  assert (existsb (Ascii.eqb dot) (list_ascii_of_string (a ++ "." ++ b))
          = true) as ->.
  { change (has_dot (a ++ "." ++ b) = true).
    rewrite !has_dot_app. cbn. now rewrite orb_true_r. }
  change ("." ++ b)%string with (String dot b).
  rewrite (split_app_dot a b Ha), (split_plain b Hb).
  cbn [fold_left bind].
  destruct (Type_.getInnerSegment type (Some a)) as [t|e]; cbn [bind];
    [|reflexivity].
  now rewrite (getInner_segment t b Hb).
Qed.

End InnerFacts.

Section LastInstances.
Import Spec.
Import Operators.

(** X28 at a field query with a negation. *)
Lemma transformFieldQuery_grows_witness :
  exists extra,
    [obj [("x", int 0)];
     obj [("$nor", VArr [obj [("k", obj [("$eq", int 1)])]])]]
    = [obj [("x", int 0)]] ++ extra.
Proof.
  apply (@transformFieldQuery_grows Sample.core Sample.deps
           (obj [("$not", int 1)]) "k" [obj [("x", int 0)]] VUndefined
           (VBool true)).
  reflexivity.
Defined.

(** X29 at a list of three numbers. *)
Lemma el_size_semantics_witness :
  @Query.executeFieldQuery Sample.host Sample.core
    (obj [("$el", int 2)]) (VArr [int 1; int 2; int 3]) = Ok true
  /\ @Query.executeFieldQuery Sample.host Sample.core
       (obj [("$size", int 3)]) (VArr [int 1; int 2; int 3]) = Ok true
  /\ @Query.executeFieldQuery Sample.host Sample.core
       (obj [("$el", int 2)]) (VNum (Int 2))
     = Throw (TypeError "some is not a function").
Proof.
  apply (@el_size_semantics Sample.host Sample.core (int 2)
           [int 1; int 2; int 3] [false; true; false] 3 (Int 2)).
  reflexivity.
Defined.

(** X30 at an object type nested in an object type. *)
Lemma getInner_dotted_witness :
  Type_.getInner
    (Type_.make
       [("type", VStr "json");
        ("inner",
         obj [("a", Type_.make [("type", VStr "json");
                                ("inner", obj [("b", Type_.Number)])])])])
    (Some "a.b")
  = Ok Type_.Number.
Proof.
  apply (@getInner_dotted
           (Type_.make
              [("type", VStr "json");
               ("inner",
                obj [("a", Type_.make [("type", VStr "json");
                                       ("inner", obj [("b", Type_.Number)])])])])
           "a" "b" VUndefined); reflexivity.
Defined.

End LastInstances.
